(** * Oclgrind device core: scheduler, error router and debugger front-end

    A shallow embedding of [src/core/Device.cpp].  The device keeps its
    state in member variables; here that state is the record [Device] and
    every member function is a computation in a small state-and-error
    monad.  Machine integers ([size_t]) are integers modulo [2^64], the
    arrays [size_t[3]] are lists read and written by index, and both
    output streams are token lists that remember the numeric base the
    stream is in. *)

From Stdlib Require Import ZArith List String Ascii Bool Lia Sorted.
From stdpp Require Import base numbers list strings gmap.

Local Open Scope Z_scope.

(** ** [size_t] arithmetic *)

Module SizeT.

Definition modulus : Z := 2 ^ 64.

Definition max : Z := modulus - 1.

Definition wrap (z : Z) : Z := z mod modulus.

Definition in_range (z : Z) : Prop := 0 <= z < modulus.

Definition add (a b : Z) : Z := wrap (a + b).

Definition sub (a b : Z) : Z := wrap (a - b).

Definition mul (a b : Z) : Z := wrap (a * b).

(** Integer division and remainder have no result for a zero divisor. *)
Definition div (a b : Z) : option Z :=
  if b =? 0 then None else Some (a / b).

Definition rem (a b : Z) : option Z :=
  if b =? 0 then None else Some (a mod b).

End SizeT.

(** A [size_t[3]] array.  The three elements are always there; reading or
    writing at an index computed at run time has no defined result when
    the index is 3 or more. *)
Record size3 := V3 { v0 : Z; v1 : Z; v2 : Z }.

Definition v3_get (v : size3) (i : nat) : option Z :=
  match i with
  | 0%nat => Some (v0 v)
  | 1%nat => Some (v1 v)
  | 2%nat => Some (v2 v)
  | _ => None
  end.

Definition v3_set (v : size3) (i : nat) (x : Z) : option size3 :=
  match i with
  | 0%nat => Some (V3 x (v1 v) (v2 v))
  | 1%nat => Some (V3 (v0 v) x (v2 v))
  | 2%nat => Some (V3 (v0 v) (v1 v) x)
  | _ => None
  end.

Definition size3_in_range (v : size3) : Prop :=
  SizeT.in_range (v0 v) /\ SizeT.in_range (v1 v) /\ SizeT.in_range (v2 v).

Global Instance size3_eq_dec : EqDecision size3.
Proof. solve_decision. Defined.

(** ** Output streams *)

Inductive Base := Dec | Hex.

Inductive Tok :=
| TStr (s : string)
| TNum (b : Base) (n : Z)
| TEndl.

Record Stream := mkStream { s_out : list Tok; s_base : Base }.

Definition put_str (s : string) (o : Stream) : Stream :=
  mkStream (s_out o ++ [TStr s]) (s_base o).

Definition put_num (n : Z) (o : Stream) : Stream :=
  mkStream (s_out o ++ [TNum (s_base o) n]) (s_base o).

Definition put_endl (o : Stream) : Stream :=
  mkStream (s_out o ++ [TEndl]) (s_base o).

Definition set_base (b : Base) (o : Stream) : Stream :=
  mkStream (s_out o) b.

(** ** Results of device computations *)

Record FatalError := mkFatal { err_file : string; err_line : Z; err_what : string }.

(** A computation either returns, unwinds with a [FatalError], has no
    defined behaviour (null dereference, index outside an array, division
    by zero), or has used up the steps it was given. *)
Inductive Result (S A : Type) :=
| Ok (a : A) (s : S)
| Throw (e : FatalError) (s : S)
| Undefined
| Timeout.

Arguments Ok {S A} a s.
Arguments Throw {S A} e s.
Arguments Undefined {S A}.
Arguments Timeout {S A}.

Definition M (S A : Type) : Type := S -> Result S A.

Definition ret {S A} (a : A) : M S A := fun s => Ok a s.

Definition bind {S A B} (c : M S A) (k : A -> M S B) : M S B :=
  fun s =>
    match c s with
    | Ok a s' => k a s'
    | Throw e s' => Throw e s'
    | Undefined => Undefined
    | Timeout => Timeout
    end.

Definition get {S} : M S S := fun s => Ok s s.

Definition gets {S A} (f : S -> A) : M S A := fun s => Ok (f s) s.

Definition modify {S} (f : S -> S) : M S unit := fun s => Ok tt (f s).

Definition throw {S A} (e : FatalError) : M S A := fun s => Throw e s.

Definition undefined {S A} : M S A := fun _ => Undefined.

Definition timeout {S A} : M S A := fun _ => Timeout.

(** Dereference: [None] stands for a null pointer or a missing element. *)
Definition deref {S A} (o : option A) : M S A :=
  match o with
  | Some a => ret a
  | None => undefined
  end.

Declare Scope dev_scope.
Delimit Scope dev_scope with dev.

Notation "'let*' x := c 'in' k" := (bind c (fun x => k))
  (at level 10, x name, c at level 100, k at level 200) : dev_scope.
Notation "c ;; k" := (bind c (fun _ => k))
  (at level 100, k at level 200, right associativity) : dev_scope.

Local Open Scope dev_scope.

(** ** Work-items, work-groups and the interpreter interface *)

Inductive State := READY | BARRIER | FINISHED.

Global Instance State_eq_dec : EqDecision State.
Proof. solve_decision. Defined.

(** An instruction as the device sees it: its disassembly and the
    ["dbg"] metadata (line number and file name), if any. *)
Record Instruction := mkInst {
  inst_text : string;
  inst_dbg : option (Z * string)
}.

Inductive AddrSpace :=
| AddrSpacePrivate | AddrSpaceGlobal | AddrSpaceConstant | AddrSpaceLocal.

Inductive DataRaceType := ReadWriteRace | WriteWriteRace | OtherRace.

Inductive Notification :=
| MemoryError (read : bool) (addrSpace : AddrSpace) (address size : Z)
| DataRace (type : DataRaceType) (addrSpace : AddrSpace)
    (address lastWorkItem lastWorkGroup : Z)
    (lastInstruction : option Instruction)
| Divergence (instruction : Instruction)
    (divergence currentInfo previousInfo : string)
| GenericError (error info : string).

Record Program := mkProgram { prog_id : Z; prog_source : string }.

(** The parts of a work-item the device reads through its accessors
    ([getGlobalID], [getLocalID], [getState], [getCurrentInstruction],
    [getCallStack]), and the interpreter's own state [P]. *)
Record WorkItem (P : Type) := mkWorkItem {
  wi_globalID : size3;
  wi_localID : size3;
  wi_state : State;
  wi_inst : Instruction;
  wi_callStack : list Instruction;
  wi_priv : P
}.

Arguments mkWorkItem {P}.
Arguments wi_globalID {P}.
Arguments wi_localID {P}.
Arguments wi_state {P}.
Arguments wi_inst {P}.
Arguments wi_callStack {P}.
Arguments wi_priv {P}.

(** What one call of [WorkItem::step] does: it unwinds with a fatal
    error, or it leaves new global and local memory, the advanced
    work-item, and the notifications it sent to the device on the way. *)
Inductive StepResult (P Mem : Type) :=
| StepThrow (e : FatalError)
| StepDone (global local : Mem) (wi : WorkItem P) (notes : list Notification).

Arguments StepThrow {P Mem}.
Arguments StepDone {P Mem}.

(** The external collaborators of the device: kernel, memory and the
    instruction interpreter.  The device code only calls them. *)
Class Interpreter := {
  Priv : Type;
  Memory : Type;
  Kernel : Type;
  kernel_getName : Kernel -> string;
  kernel_getProgram : Kernel -> Program;
  kernel_allocateConstants : Kernel -> Memory -> FatalError + Memory;
  kernel_deallocateConstants : Kernel -> Memory -> Memory;
  kernel_getLocalMemory : Kernel -> Memory;
  memory_synchronize : Memory -> Memory;
  workitem_entry : Kernel -> size3 -> size3 -> Instruction * Priv;
  workitem_step : Memory -> Memory -> WorkItem Priv -> StepResult Priv Memory;
  function_text : WorkItem Priv -> Instruction -> string
}.

Section Model.

Context `{Interpreter}.

(** *** Work-groups *)

(** Modelled from the spec: the work-group class ([WorkGroup.cpp] is not
    among the sources; the device only calls it).  A work-group owns a
    fixed set of work-items for one group coordinate, stored by linear
    local id, and its local memory. *)
Record WorkGroup := mkWorkGroup {
  wg_groupID : size3;
  wg_groupSize : size3;
  wg_items : list (WorkItem Priv);
  wg_localMemory : Memory
}.

(** Modelled from the spec: [next_ready_item] of the work-group, which
    "returns none when all are Barrier or Finished".  The order among
    ready items is left open by the spec but must be reproducible; the
    model takes the ready item with the least linear local id. *)
Definition getNextWorkItem (g : WorkGroup) : option nat :=
  fst <$> list_find (fun wi => wi_state wi = READY) (wg_items g).

(** Modelled from the spec: [has_barrier] of the work-group, true when
    some work-item waits at a barrier. *)
Definition hasBarrier (g : WorkGroup) : bool :=
  existsb (fun wi => bool_decide (wi_state wi = BARRIER)) (wg_items g).

Definition resume (wi : WorkItem Priv) : WorkItem Priv :=
  match wi_state wi with
  | BARRIER =>
      mkWorkItem (wi_globalID wi) (wi_localID wi) READY (wi_inst wi)
        (wi_callStack wi) (wi_priv wi)
  | _ => wi
  end.

(** Modelled from the spec: [clear_barrier] of the work-group, which
    "flips all Barrier items back to Ready". *)
Definition clearBarrier (g : WorkGroup) : WorkGroup :=
  mkWorkGroup (wg_groupID g) (wg_groupSize g) (resume <$> wg_items g)
    (wg_localMemory g).

(** Modelled from the spec: [get_work_item(local_id)] of the work-group.
    The result points at the item stored at the linear local id. *)
Definition getWorkItem (g : WorkGroup) (lid : size3) : option nat :=
  let n := wg_groupSize g in
  let idx := Z.to_nat (v0 lid + (v1 lid + v2 lid * v1 n) * v0 n) in
  if decide (idx < length (wg_items g))%nat then Some idx else None.

Definition range (n : Z) : list Z := seqZ 0 n.

(** The points below [n] in [z]-outer, [y]-middle, [x]-inner order, each
    mapped by [f]. *)
Definition grid {B} (n : size3) (f : Z -> Z -> Z -> B) : list B :=
  z ← range (v2 n); y ← range (v1 n); x ← range (v0 n); [f x y z].

(** Modelled from the spec: construction of a work-group.  One work-item
    per local id below the group size, stored in [z]-outer, [y]-middle,
    [x]-inner order; every item starts out ready, at the kernel's entry,
    with global id = group id * group size + local id + global offset,
    the rule of the execution model the device simulates. *)
Definition newWorkItem (k : Kernel) (gid lid : size3) : WorkItem Priv :=
  let '(inst, p) := workitem_entry k gid lid in
  mkWorkItem gid lid READY inst [] p.

Definition globalIDOf (group offset lsize lid : size3) : size3 :=
  V3 (SizeT.add (SizeT.add (v0 lid) (SizeT.mul (v0 group) (v0 lsize))) (v0 offset))
     (SizeT.add (SizeT.add (v1 lid) (SizeT.mul (v1 group) (v1 lsize))) (v1 offset))
     (SizeT.add (SizeT.add (v2 lid) (SizeT.mul (v2 group) (v2 lsize))) (v2 offset)).

Definition newWorkGroup (k : Kernel) (group offset lsize : size3) : WorkGroup :=
  mkWorkGroup group lsize
    (grid lsize (fun x y z =>
       newWorkItem k (globalIDOf group offset lsize (V3 x y z)) (V3 x y z)))
    (kernel_getLocalMemory k).

(** *** The device *)

(** The member variables of [Device] that the embedded functions use,
    the function-local static [lastBreakLine] of [cont], and the three
    standard streams.  [m_currentWorkItem] points into the current
    work-group, which owns the item: it is the position of the item
    there.  Breakpoints are kept per program, each an association list
    in ascending order of breakpoint id, the order [std::map] iterates
    in. *)
Record Device := mkDevice {
  m_interactive : bool;
  m_showInstCounts : bool;
  m_quickMode : bool;
  m_running : bool;
  m_forceBreak : bool;
  m_workDim : Z;
  m_globalSize : size3;
  m_globalOffset : size3;
  m_localSize : size3;
  m_numGroups : size3;
  m_pendingGroups : list size3;
  m_runningGroups : list WorkGroup;
  m_currentWorkGroup : option WorkGroup;
  m_currentWorkItem : option nat;
  m_globalMemory : Memory;
  m_kernel : option Kernel;
  m_program : option Program;
  m_breakpoints : gmap Z (list (Z * Z));
  m_nextBreakpoint : Z;
  m_listPosition : Z;
  m_sourceLines : list string;
  lastBreakLine : Z;
  cin : string;
  cout : Stream;
  cerr : Stream
}.

Definition set_m_interactive (x : bool) (d : Device) : Device :=
    mkDevice x (m_showInstCounts d) (m_quickMode d) (m_running d)
      (m_forceBreak d) (m_workDim d) (m_globalSize d) (m_globalOffset d)
      (m_localSize d) (m_numGroups d) (m_pendingGroups d)
      (m_runningGroups d) (m_currentWorkGroup d) (m_currentWorkItem d)
      (m_globalMemory d) (m_kernel d) (m_program d) (m_breakpoints d)
      (m_nextBreakpoint d) (m_listPosition d) (m_sourceLines d)
      (lastBreakLine d) (cin d) (cout d) (cerr d).

Definition set_m_showInstCounts (x : bool) (d : Device) : Device :=
    mkDevice (m_interactive d) x (m_quickMode d) (m_running d)
      (m_forceBreak d) (m_workDim d) (m_globalSize d) (m_globalOffset d)
      (m_localSize d) (m_numGroups d) (m_pendingGroups d)
      (m_runningGroups d) (m_currentWorkGroup d) (m_currentWorkItem d)
      (m_globalMemory d) (m_kernel d) (m_program d) (m_breakpoints d)
      (m_nextBreakpoint d) (m_listPosition d) (m_sourceLines d)
      (lastBreakLine d) (cin d) (cout d) (cerr d).

Definition set_m_quickMode (x : bool) (d : Device) : Device :=
    mkDevice (m_interactive d) (m_showInstCounts d) x (m_running d)
      (m_forceBreak d) (m_workDim d) (m_globalSize d) (m_globalOffset d)
      (m_localSize d) (m_numGroups d) (m_pendingGroups d)
      (m_runningGroups d) (m_currentWorkGroup d) (m_currentWorkItem d)
      (m_globalMemory d) (m_kernel d) (m_program d) (m_breakpoints d)
      (m_nextBreakpoint d) (m_listPosition d) (m_sourceLines d)
      (lastBreakLine d) (cin d) (cout d) (cerr d).

Definition set_m_running (x : bool) (d : Device) : Device :=
    mkDevice (m_interactive d) (m_showInstCounts d) (m_quickMode d) x
      (m_forceBreak d) (m_workDim d) (m_globalSize d) (m_globalOffset d)
      (m_localSize d) (m_numGroups d) (m_pendingGroups d)
      (m_runningGroups d) (m_currentWorkGroup d) (m_currentWorkItem d)
      (m_globalMemory d) (m_kernel d) (m_program d) (m_breakpoints d)
      (m_nextBreakpoint d) (m_listPosition d) (m_sourceLines d)
      (lastBreakLine d) (cin d) (cout d) (cerr d).

Definition set_m_forceBreak (x : bool) (d : Device) : Device :=
    mkDevice (m_interactive d) (m_showInstCounts d) (m_quickMode d)
      (m_running d) x (m_workDim d) (m_globalSize d) (m_globalOffset d)
      (m_localSize d) (m_numGroups d) (m_pendingGroups d)
      (m_runningGroups d) (m_currentWorkGroup d) (m_currentWorkItem d)
      (m_globalMemory d) (m_kernel d) (m_program d) (m_breakpoints d)
      (m_nextBreakpoint d) (m_listPosition d) (m_sourceLines d)
      (lastBreakLine d) (cin d) (cout d) (cerr d).

Definition set_m_workDim (x : Z) (d : Device) : Device :=
    mkDevice (m_interactive d) (m_showInstCounts d) (m_quickMode d)
      (m_running d) (m_forceBreak d) x (m_globalSize d) (m_globalOffset d)
      (m_localSize d) (m_numGroups d) (m_pendingGroups d)
      (m_runningGroups d) (m_currentWorkGroup d) (m_currentWorkItem d)
      (m_globalMemory d) (m_kernel d) (m_program d) (m_breakpoints d)
      (m_nextBreakpoint d) (m_listPosition d) (m_sourceLines d)
      (lastBreakLine d) (cin d) (cout d) (cerr d).

Definition set_m_globalSize (x : size3) (d : Device) : Device :=
    mkDevice (m_interactive d) (m_showInstCounts d) (m_quickMode d)
      (m_running d) (m_forceBreak d) (m_workDim d) x (m_globalOffset d)
      (m_localSize d) (m_numGroups d) (m_pendingGroups d)
      (m_runningGroups d) (m_currentWorkGroup d) (m_currentWorkItem d)
      (m_globalMemory d) (m_kernel d) (m_program d) (m_breakpoints d)
      (m_nextBreakpoint d) (m_listPosition d) (m_sourceLines d)
      (lastBreakLine d) (cin d) (cout d) (cerr d).

Definition set_m_globalOffset (x : size3) (d : Device) : Device :=
    mkDevice (m_interactive d) (m_showInstCounts d) (m_quickMode d)
      (m_running d) (m_forceBreak d) (m_workDim d) (m_globalSize d) x
      (m_localSize d) (m_numGroups d) (m_pendingGroups d)
      (m_runningGroups d) (m_currentWorkGroup d) (m_currentWorkItem d)
      (m_globalMemory d) (m_kernel d) (m_program d) (m_breakpoints d)
      (m_nextBreakpoint d) (m_listPosition d) (m_sourceLines d)
      (lastBreakLine d) (cin d) (cout d) (cerr d).

Definition set_m_localSize (x : size3) (d : Device) : Device :=
    mkDevice (m_interactive d) (m_showInstCounts d) (m_quickMode d)
      (m_running d) (m_forceBreak d) (m_workDim d) (m_globalSize d)
      (m_globalOffset d) x (m_numGroups d) (m_pendingGroups d)
      (m_runningGroups d) (m_currentWorkGroup d) (m_currentWorkItem d)
      (m_globalMemory d) (m_kernel d) (m_program d) (m_breakpoints d)
      (m_nextBreakpoint d) (m_listPosition d) (m_sourceLines d)
      (lastBreakLine d) (cin d) (cout d) (cerr d).

Definition set_m_numGroups (x : size3) (d : Device) : Device :=
    mkDevice (m_interactive d) (m_showInstCounts d) (m_quickMode d)
      (m_running d) (m_forceBreak d) (m_workDim d) (m_globalSize d)
      (m_globalOffset d) (m_localSize d) x (m_pendingGroups d)
      (m_runningGroups d) (m_currentWorkGroup d) (m_currentWorkItem d)
      (m_globalMemory d) (m_kernel d) (m_program d) (m_breakpoints d)
      (m_nextBreakpoint d) (m_listPosition d) (m_sourceLines d)
      (lastBreakLine d) (cin d) (cout d) (cerr d).

Definition set_m_pendingGroups (x : list size3) (d : Device) : Device :=
    mkDevice (m_interactive d) (m_showInstCounts d) (m_quickMode d)
      (m_running d) (m_forceBreak d) (m_workDim d) (m_globalSize d)
      (m_globalOffset d) (m_localSize d) (m_numGroups d) x
      (m_runningGroups d) (m_currentWorkGroup d) (m_currentWorkItem d)
      (m_globalMemory d) (m_kernel d) (m_program d) (m_breakpoints d)
      (m_nextBreakpoint d) (m_listPosition d) (m_sourceLines d)
      (lastBreakLine d) (cin d) (cout d) (cerr d).

Definition set_m_runningGroups (x : list WorkGroup) (d : Device) : Device :=
    mkDevice (m_interactive d) (m_showInstCounts d) (m_quickMode d)
      (m_running d) (m_forceBreak d) (m_workDim d) (m_globalSize d)
      (m_globalOffset d) (m_localSize d) (m_numGroups d) (m_pendingGroups d)
      x (m_currentWorkGroup d) (m_currentWorkItem d) (m_globalMemory d)
      (m_kernel d) (m_program d) (m_breakpoints d) (m_nextBreakpoint d)
      (m_listPosition d) (m_sourceLines d) (lastBreakLine d) (cin d)
      (cout d) (cerr d).

Definition set_m_currentWorkGroup (x : option WorkGroup) (d : Device) : Device :=
    mkDevice (m_interactive d) (m_showInstCounts d) (m_quickMode d)
      (m_running d) (m_forceBreak d) (m_workDim d) (m_globalSize d)
      (m_globalOffset d) (m_localSize d) (m_numGroups d) (m_pendingGroups d)
      (m_runningGroups d) x (m_currentWorkItem d) (m_globalMemory d)
      (m_kernel d) (m_program d) (m_breakpoints d) (m_nextBreakpoint d)
      (m_listPosition d) (m_sourceLines d) (lastBreakLine d) (cin d)
      (cout d) (cerr d).

Definition set_m_currentWorkItem (x : option nat) (d : Device) : Device :=
    mkDevice (m_interactive d) (m_showInstCounts d) (m_quickMode d)
      (m_running d) (m_forceBreak d) (m_workDim d) (m_globalSize d)
      (m_globalOffset d) (m_localSize d) (m_numGroups d) (m_pendingGroups d)
      (m_runningGroups d) (m_currentWorkGroup d) x (m_globalMemory d)
      (m_kernel d) (m_program d) (m_breakpoints d) (m_nextBreakpoint d)
      (m_listPosition d) (m_sourceLines d) (lastBreakLine d) (cin d)
      (cout d) (cerr d).

Definition set_m_globalMemory (x : Memory) (d : Device) : Device :=
    mkDevice (m_interactive d) (m_showInstCounts d) (m_quickMode d)
      (m_running d) (m_forceBreak d) (m_workDim d) (m_globalSize d)
      (m_globalOffset d) (m_localSize d) (m_numGroups d) (m_pendingGroups d)
      (m_runningGroups d) (m_currentWorkGroup d) (m_currentWorkItem d) x
      (m_kernel d) (m_program d) (m_breakpoints d) (m_nextBreakpoint d)
      (m_listPosition d) (m_sourceLines d) (lastBreakLine d) (cin d)
      (cout d) (cerr d).

Definition set_m_kernel (x : option Kernel) (d : Device) : Device :=
    mkDevice (m_interactive d) (m_showInstCounts d) (m_quickMode d)
      (m_running d) (m_forceBreak d) (m_workDim d) (m_globalSize d)
      (m_globalOffset d) (m_localSize d) (m_numGroups d) (m_pendingGroups d)
      (m_runningGroups d) (m_currentWorkGroup d) (m_currentWorkItem d)
      (m_globalMemory d) x (m_program d) (m_breakpoints d)
      (m_nextBreakpoint d) (m_listPosition d) (m_sourceLines d)
      (lastBreakLine d) (cin d) (cout d) (cerr d).

Definition set_m_program (x : option Program) (d : Device) : Device :=
    mkDevice (m_interactive d) (m_showInstCounts d) (m_quickMode d)
      (m_running d) (m_forceBreak d) (m_workDim d) (m_globalSize d)
      (m_globalOffset d) (m_localSize d) (m_numGroups d) (m_pendingGroups d)
      (m_runningGroups d) (m_currentWorkGroup d) (m_currentWorkItem d)
      (m_globalMemory d) (m_kernel d) x (m_breakpoints d)
      (m_nextBreakpoint d) (m_listPosition d) (m_sourceLines d)
      (lastBreakLine d) (cin d) (cout d) (cerr d).

Definition set_m_breakpoints (x : gmap Z (list (Z * Z))) (d : Device) : Device :=
    mkDevice (m_interactive d) (m_showInstCounts d) (m_quickMode d)
      (m_running d) (m_forceBreak d) (m_workDim d) (m_globalSize d)
      (m_globalOffset d) (m_localSize d) (m_numGroups d) (m_pendingGroups d)
      (m_runningGroups d) (m_currentWorkGroup d) (m_currentWorkItem d)
      (m_globalMemory d) (m_kernel d) (m_program d) x (m_nextBreakpoint d)
      (m_listPosition d) (m_sourceLines d) (lastBreakLine d) (cin d)
      (cout d) (cerr d).

Definition set_m_nextBreakpoint (x : Z) (d : Device) : Device :=
    mkDevice (m_interactive d) (m_showInstCounts d) (m_quickMode d)
      (m_running d) (m_forceBreak d) (m_workDim d) (m_globalSize d)
      (m_globalOffset d) (m_localSize d) (m_numGroups d) (m_pendingGroups d)
      (m_runningGroups d) (m_currentWorkGroup d) (m_currentWorkItem d)
      (m_globalMemory d) (m_kernel d) (m_program d) (m_breakpoints d) x
      (m_listPosition d) (m_sourceLines d) (lastBreakLine d) (cin d)
      (cout d) (cerr d).

Definition set_m_listPosition (x : Z) (d : Device) : Device :=
    mkDevice (m_interactive d) (m_showInstCounts d) (m_quickMode d)
      (m_running d) (m_forceBreak d) (m_workDim d) (m_globalSize d)
      (m_globalOffset d) (m_localSize d) (m_numGroups d) (m_pendingGroups d)
      (m_runningGroups d) (m_currentWorkGroup d) (m_currentWorkItem d)
      (m_globalMemory d) (m_kernel d) (m_program d) (m_breakpoints d)
      (m_nextBreakpoint d) x (m_sourceLines d) (lastBreakLine d) (cin d)
      (cout d) (cerr d).

Definition set_m_sourceLines (x : list string) (d : Device) : Device :=
    mkDevice (m_interactive d) (m_showInstCounts d) (m_quickMode d)
      (m_running d) (m_forceBreak d) (m_workDim d) (m_globalSize d)
      (m_globalOffset d) (m_localSize d) (m_numGroups d) (m_pendingGroups d)
      (m_runningGroups d) (m_currentWorkGroup d) (m_currentWorkItem d)
      (m_globalMemory d) (m_kernel d) (m_program d) (m_breakpoints d)
      (m_nextBreakpoint d) (m_listPosition d) x (lastBreakLine d) (cin d)
      (cout d) (cerr d).

Definition set_lastBreakLine (x : Z) (d : Device) : Device :=
    mkDevice (m_interactive d) (m_showInstCounts d) (m_quickMode d)
      (m_running d) (m_forceBreak d) (m_workDim d) (m_globalSize d)
      (m_globalOffset d) (m_localSize d) (m_numGroups d) (m_pendingGroups d)
      (m_runningGroups d) (m_currentWorkGroup d) (m_currentWorkItem d)
      (m_globalMemory d) (m_kernel d) (m_program d) (m_breakpoints d)
      (m_nextBreakpoint d) (m_listPosition d) (m_sourceLines d) x (cin d)
      (cout d) (cerr d).

Definition set_cin (x : string) (d : Device) : Device :=
    mkDevice (m_interactive d) (m_showInstCounts d) (m_quickMode d)
      (m_running d) (m_forceBreak d) (m_workDim d) (m_globalSize d)
      (m_globalOffset d) (m_localSize d) (m_numGroups d) (m_pendingGroups d)
      (m_runningGroups d) (m_currentWorkGroup d) (m_currentWorkItem d)
      (m_globalMemory d) (m_kernel d) (m_program d) (m_breakpoints d)
      (m_nextBreakpoint d) (m_listPosition d) (m_sourceLines d)
      (lastBreakLine d) x (cout d) (cerr d).

Definition set_cout (x : Stream) (d : Device) : Device :=
    mkDevice (m_interactive d) (m_showInstCounts d) (m_quickMode d)
      (m_running d) (m_forceBreak d) (m_workDim d) (m_globalSize d)
      (m_globalOffset d) (m_localSize d) (m_numGroups d) (m_pendingGroups d)
      (m_runningGroups d) (m_currentWorkGroup d) (m_currentWorkItem d)
      (m_globalMemory d) (m_kernel d) (m_program d) (m_breakpoints d)
      (m_nextBreakpoint d) (m_listPosition d) (m_sourceLines d)
      (lastBreakLine d) (cin d) x (cerr d).

Definition set_cerr (x : Stream) (d : Device) : Device :=
    mkDevice (m_interactive d) (m_showInstCounts d) (m_quickMode d)
      (m_running d) (m_forceBreak d) (m_workDim d) (m_globalSize d)
      (m_globalOffset d) (m_localSize d) (m_numGroups d) (m_pendingGroups d)
      (m_runningGroups d) (m_currentWorkGroup d) (m_currentWorkItem d)
      (m_globalMemory d) (m_kernel d) (m_program d) (m_breakpoints d)
      (m_nextBreakpoint d) (m_listPosition d) (m_sourceLines d)
      (lastBreakLine d) (cin d) (cout d) x.

(** *** Writing to the streams *)

(** One operand of a [<<] chain. *)
Inductive Item :=
| IS (s : string)
| IN (n : Z)
| Iendl
| Idec
| Ihex.

Definition write1 (o : Stream) (i : Item) : Stream :=
  match i with
  | IS s => put_str s o
  | IN n => put_num n o
  | Iendl => put_endl o
  | Idec => set_base Dec o
  | Ihex => set_base Hex o
  end.

Definition write (items : list Item) (o : Stream) : Stream :=
  fold_left write1 items o.

Definition to_cerr (items : list Item) : M Device unit :=
  modify (fun d => set_cerr (write items (cerr d)) d).

Definition to_cout (items : list Item) : M Device unit :=
  modify (fun d => set_cout (write items (cout d)) d).

Definition tab : string := String (ascii_of_nat 9) EmptyString.

Definition when {S} (b : bool) (c : M S unit) : M S unit :=
  if b then c else ret tt.

Fixpoint forEach {S A} (l : list A) (body : A -> M S unit) : M S unit :=
  match l with
  | [] => ret tt
  | a :: l' => body a ;; forEach l' body
  end.

(** *** Accessors *)

(** The work-item [m_currentWorkItem] points at; a pointer that is set
    while the group it points into is gone cannot be followed. *)
Definition currentWorkItem : M Device (option (WorkItem Priv)) :=
  let* p := gets m_currentWorkItem in
  match p with
  | None => ret None
  | Some i =>
      let* og := gets m_currentWorkGroup in
      let* g := deref og in
      let* wi := deref (wg_items g !! i) in
      ret (Some wi)
  end.

Definition getLineNumber (instruction : Instruction) : Z :=
  match inst_dbg instruction with
  | Some (line, _) => line
  | None => 0
  end.

Definition lineOf (wi : option (WorkItem Priv)) : Z :=
  match wi with
  | None => 0
  | Some wi =>
      if decide (wi_state wi = FINISHED) then 0
      else getLineNumber (wi_inst wi)
  end.

Definition getCurrentLineNumber : M Device Z :=
  let* wi := currentWorkItem in
  ret (lineOf wi).

(** *** Error router *)

Definition printInstruction (instruction : Instruction) : list Item :=
  [IS (inst_text instruction); Iendl; IS tab] ++
  match inst_dbg instruction with
  | None => [IS "Debugging information not available."; Iendl]
  | Some (line, file) =>
      [IS "At line "; Idec; IN line; IS " of "; IS file; Iendl]
  end.

Definition errorContext (wi : option (WorkItem Priv)) (g : option WorkGroup)
    (k : option Kernel) : list Item :=
  match wi with
  | Some wi =>
      let gid := wi_globalID wi in
      let lid := wi_localID wi in
      [IS (tab +:+ "Work-item:  Global("); Idec;
       IN (v0 gid); IS ","; IN (v1 gid); IS ","; IN (v2 gid); IS ")";
       IS " Local("; Idec;
       IN (v0 lid); IS ","; IN (v1 lid); IS ","; IN (v2 lid); IS ")";
       Iendl]
  | None => []
  end ++
  match g with
  | Some g =>
      let group := wg_groupID g in
      [IS (tab +:+ "Work-group: ("); Idec;
       IN (v0 group); IS ","; IN (v1 group); IS ","; IN (v2 group); IS ")";
       Iendl]
  | None => []
  end ++
  match k with
  | Some k => [IS (tab +:+ "Kernel:     "); IS (kernel_getName k); Iendl]
  | None => []
  end ++
  match wi with
  | Some wi => IS tab :: printInstruction (wi_inst wi)
  | None => []
  end.

Definition printErrorContext : M Device unit :=
  let* wi := currentWorkItem in
  let* g := gets m_currentWorkGroup in
  let* k := gets m_kernel in
  to_cerr (errorContext wi g k).

Definition memTypeName (addrSpace : AddrSpace) : string :=
  match addrSpace with
  | AddrSpacePrivate => "private"
  | AddrSpaceGlobal => "global"
  | AddrSpaceConstant => "constant"
  | AddrSpaceLocal => "local"
  end.

Definition raceName (type : DataRaceType) : string :=
  match type with
  | ReadWriteRace => "Read-write"
  | WriteWriteRace => "Write-write"
  | OtherRace => "Unrecognized"
  end.

(** The decoding of a linear index against the sizes [n], as written in
    [notifyDataRace]. *)
Definition delinearize (n : size3) (index : Z) : option size3 :=
  gx ← SizeT.rem index (v0 n);
  gy ← SizeT.div (SizeT.sub index gx) (v1 n);
  gz ← SizeT.div (SizeT.sub (SizeT.sub index gy) gx) (v2 n);
  Some (V3 gx gy gz).

Definition raceEntity (what : string) (g : size3) : list Item :=
  [IS (tab +:+ "Race occured with " +:+ what +:+ " ("); Idec;
   IN (v0 g); IS ","; IN (v1 g); IS ","; IN (v2 g); IS ")"; Iendl].

(** The part of [notifyDataRace] that shows the other entity involved
    in the race; [-1] stands for "none". *)
Definition reportOtherEntity (lastWorkItem lastWorkGroup : Z) : M Device unit :=
  if decide (lastWorkItem <> SizeT.max) then
    let* n := gets m_globalSize in
    let* g := deref (delinearize n lastWorkItem) in
    to_cerr (raceEntity "work-item" g)
  else if decide (lastWorkGroup <> SizeT.max) then
    let* n := gets m_numGroups in
    let* g := deref (delinearize n lastWorkGroup) in
    to_cerr (raceEntity "work-group" g)
  else
    to_cerr [IS (tab +:+ "Race occured with unknown entity"); Iendl].

Definition notifyDataRace (type : DataRaceType) (addrSpace : AddrSpace)
    (address lastWorkItem lastWorkGroup : Z)
    (lastInstruction : option Instruction) : M Device unit :=
  let memType := memTypeName addrSpace in
  to_cerr [Iendl; IS (raceName type); IS " data race"; IS " at "; IS memType;
           IS " memory address "; Ihex; IN address; Iendl] ;;
  printErrorContext ;;
  to_cerr [Iendl] ;;
  reportOtherEntity lastWorkItem lastWorkGroup ;;
  match lastInstruction with
  | Some i => to_cerr (IS tab :: printInstruction i)
  | None => ret tt
  end ;;
  to_cerr [Iendl] ;;
  modify (set_m_forceBreak true).

Definition is_empty (s : string) : bool := bool_decide (s = EmptyString).

Definition notifyDivergence (instruction : Instruction)
    (divergence currentInfo previousInfo : string) : M Device unit :=
  to_cerr [Iendl; IS "Work-group divergence detected ("; IS divergence;
           IS "):"; Iendl] ;;
  printErrorContext ;;
  when (negb (is_empty currentInfo))
    (to_cerr [IS tab; IS currentInfo; Iendl]) ;;
  to_cerr [Iendl] ;;
  to_cerr [IS "Previous work-items executed this instruction:"; Iendl] ;;
  to_cerr (IS tab :: printInstruction instruction) ;;
  when (negb (is_empty previousInfo))
    (to_cerr [IS tab; IS previousInfo; Iendl]) ;;
  to_cerr [Iendl] ;;
  modify (set_m_forceBreak true).

Definition notifyError (error info : string) : M Device unit :=
  to_cerr [Iendl; IS error; IS ":"; Iendl] ;;
  printErrorContext ;;
  when (negb (is_empty info)) (to_cerr [IS tab; IS info; Iendl]) ;;
  to_cerr [Iendl] ;;
  modify (set_m_forceBreak true).

Definition notifyMemoryError (read : bool) (addrSpace : AddrSpace)
    (address size : Z) : M Device unit :=
  let memType := memTypeName addrSpace in
  to_cerr [Iendl; IS "Invalid "; IS (if read then "read" else "write");
           IS " of size "; IN size; IS " at "; IS memType;
           IS " memory address "; Ihex; IN address; Iendl] ;;
  printErrorContext ;;
  to_cerr [Iendl] ;;
  modify (set_m_forceBreak true).

(** The error router as the interpreter reaches it. *)
Definition notify (n : Notification) : M Device unit :=
  match n with
  | MemoryError read addrSpace address size =>
      notifyMemoryError read addrSpace address size
  | DataRace type addrSpace address lastWorkItem lastWorkGroup lastInstruction =>
      notifyDataRace type addrSpace address lastWorkItem lastWorkGroup
        lastInstruction
  | Divergence instruction divergence currentInfo previousInfo =>
      notifyDivergence instruction divergence currentInfo previousInfo
  | GenericError error info => notifyError error info
  end.

(** *** Scheduler *)

Definition createWorkGroup (x y z : Z) : M Device WorkGroup :=
  let* ok := gets m_kernel in
  let* k := deref ok in
  let* offset := gets m_globalOffset in
  let* lsize := gets m_localSize in
  ret (newWorkGroup k (V3 x y z) offset lsize).

(** The first half of [nextWorkItem]: with a current work-group, switch
    to its next ready work-item, or resume it from a barrier, or destroy
    it.  The result tells whether [nextWorkItem] returns [true] here. *)
Definition resumeCurrentGroup : M Device bool :=
  let* og := gets m_currentWorkGroup in
  match og with
  | Some g =>
      modify (set_m_currentWorkItem (getNextWorkItem g)) ;;
      let* wi := gets m_currentWorkItem in
      match wi with
      | Some _ => ret true
      | None =>
          if hasBarrier g then
            modify (set_m_currentWorkGroup (Some (clearBarrier g))) ;;
            modify (set_m_currentWorkItem (getNextWorkItem (clearBarrier g))) ;;
            ret true
          else
            modify (set_m_currentWorkGroup None) ;;
            ret false
      end
  | None => ret false
  end.

(** The second half: take a work-group from the running pool, else from
    the pending pool.  The result is [false] where [nextWorkItem] returns
    [false]. *)
Definition takeNextGroup : M Device bool :=
  let* running := gets m_runningGroups in
  match running with
  | g :: rest =>
      modify (set_m_currentWorkGroup (Some g)) ;;
      modify (set_m_runningGroups rest) ;;
      ret true
  | [] =>
      let* pending := gets m_pendingGroups in
      match pending with
      | group :: rest =>
          modify (set_m_pendingGroups rest) ;;
          let* g := createWorkGroup (v0 group) (v1 group) (v2 group) in
          modify (set_m_currentWorkGroup (Some g)) ;;
          ret true
      | [] => ret false
      end
  end.

Fixpoint nextWorkItem (fuel : nat) : M Device bool :=
  match fuel with
  | O => timeout
  | S fuel' =>
      modify (set_m_currentWorkItem None) ;;
      let* resumed := resumeCurrentGroup in
      if resumed then ret true
      else
        let* taken := takeNextGroup in
        if negb taken then ret false
        else
          let* og := gets m_currentWorkGroup in
          let* g := deref og in
          modify (set_m_currentWorkItem (getNextWorkItem g)) ;;
          let* wi := gets m_currentWorkItem in
          match wi with
          | Some _ => ret true
          | None => nextWorkItem fuel'
          end
  end.

(** Calls of [nextWorkItem] that suffice from a device state: every
    recursive call has taken one group out of a pool. *)
Definition nextWorkItem_fuel (d : Device) : nat :=
  S (length (m_runningGroups d) + length (m_pendingGroups d)).

(** *** Start of a run: sizes and the pool of pending work-groups *)

(** One pass of the loop over [i < workDim] that copies the sizes in. *)
Definition setSizes (globalOffset globalSize localSize : list Z) (i : nat)
    : M Device unit :=
  let* gs := deref (globalSize !! i) in
  let* a := gets m_globalSize in
  let* a' := deref (v3_set a i gs) in
  modify (set_m_globalSize a') ;;
  let* go := deref (globalOffset !! i) in
  (if decide (go <> 0) then
     let* a := gets m_globalOffset in
     let* a' := deref (v3_set a i go) in
     modify (set_m_globalOffset a')
   else ret tt) ;;
  let* ls := deref (localSize !! i) in
  (if decide (ls <> 0) then
     let* a := gets m_localSize in
     let* a' := deref (v3_set a i ls) in
     modify (set_m_localSize a')
   else ret tt).

Definition setup (workDim : Z) (globalOffset globalSize localSize : list Z)
    : M Device unit :=
  modify (set_m_workDim workDim) ;;
  modify (set_m_globalSize (V3 1 1 1)) ;;
  modify (set_m_globalOffset (V3 0 0 0)) ;;
  modify (set_m_localSize (V3 1 1 1)) ;;
  forEach (seq 0 (Z.to_nat workDim))
    (setSizes globalOffset globalSize localSize).

Definition push_pending (g : size3) : M Device unit :=
  modify (fun d => set_m_pendingGroups (m_pendingGroups d ++ [g]) d).

Definition computeNumGroups : M Device unit :=
  let* gs := gets m_globalSize in
  let* ls := gets m_localSize in
  let* n0 := deref (SizeT.div (v0 gs) (v0 ls)) in
  let* n1 := deref (SizeT.div (v1 gs) (v1 ls)) in
  let* n2 := deref (SizeT.div (v2 gs) (v2 ls)) in
  modify (set_m_numGroups (V3 n0 n1 n2)).

Definition createPendingGroups : M Device unit :=
  computeNumGroups ;;
  let* n := gets m_numGroups in
  let* quick := gets m_quickMode in
  if quick then
    let firstGroup := V3 0 0 0 in
    let lastGroup :=
      V3 (SizeT.sub (v0 n) 1) (SizeT.sub (v1 n) 1) (SizeT.sub (v2 n) 1) in
    push_pending firstGroup ;;
    push_pending lastGroup
  else
    forEach (range (v2 n)) (fun k =>
      forEach (range (v1 n)) (fun j =>
        forEach (range (v0 n)) (fun i =>
          let workGroup := V3 i j k in
          push_pending workGroup))).

(** *** Reading numbers and lines *)

Definition digit_of (c : ascii) : option Z :=
  let n := Z.of_nat (nat_of_ascii c) in
  if (48 <=? n) && (n <=? 57) then Some (n - 48) else None.

(** Digits at the front of [s]: their value, how many there are, and
    what follows them. *)
Fixpoint read_digits (s : string) (acc : Z) (count : nat) : Z * nat * string :=
  match s with
  | EmptyString => (acc, count, EmptyString)
  | String c rest =>
      match digit_of c with
      | Some v => read_digits rest (10 * acc + v) (S count)
      | None => (acc, count, s)
      end
  end.

(** [istringstream ss(token); ss >> n] for a [size_t n], in decimal: the
    value stored in [n] and whether [ss.eof()] holds afterwards.  An
    optional sign is read first; without any digit the extraction fails
    and stores zero; a value that does not fit stores the largest one;
    the end-of-file flag is set when the extraction reached the end of
    the token. *)
Definition extract_size_t (token : string) : Z * bool :=
  let '(negative, body) :=
    match token with
    | String "+"%char rest => (false, rest)
    | String "-"%char rest => (true, rest)
    | _ => (false, token)
    end in
  let '(value, count, rest) := read_digits body 0 0%nat in
  let eof := is_empty rest in
  if decide (count = 0%nat) then (0, eof)
  else if decide (value > SizeT.max) then (SizeT.max, eof)
  else ((if negative : bool then SizeT.wrap (- value) else value), eof).

Definition is_space (c : ascii) : bool :=
  let n := nat_of_ascii c in
  (n =? 32)%nat || ((9 <=? n)%nat && (n <=? 13)%nat).

(** Whitespace-separated tokens of a line ([istream_iterator<string>]). *)
Fixpoint tokens_from (s : string) (current : string) : list string :=
  let flush := if is_empty current then [] else [current] in
  match s with
  | EmptyString => flush
  | String c rest =>
      if is_space c then flush ++ tokens_from rest EmptyString
      else tokens_from rest (current +:+ String c EmptyString)
  end.

Definition tokenize (line : string) : list string :=
  tokens_from line EmptyString.

Definition newline : ascii := ascii_of_nat 10.

(** The text up to the first newline, and the text after it, if there is
    a newline. *)
Fixpoint split_line (s : string) : option (string * string) :=
  match s with
  | EmptyString => None
  | String c rest =>
      if decide (c = newline) then Some (EmptyString, rest)
      else
        match split_line rest with
        | Some (line, after) => Some (String c line, after)
        | None => None
        end
  end.

(** [getline(cin, cmd); eof = cin.eof()]: the line read and whether the
    end of the input was hit while reading it.  This is the prompt of
    the build without a line editor, the [#else] branch of lines
    539-554.  With [HAVE_READLINE] the prompt is written by [readline],
    not through [cout], and [eof] is set only when [readline] returns no
    line at all: a last line without a newline is then returned and
    executed, where here it sets [eof]. *)
Definition getline : M Device (string * bool) :=
  let* input := gets cin in
  match split_line input with
  | Some (line, after) => modify (set_cin after) ;; ret (line, false)
  | None => modify (set_cin EmptyString) ;; ret (input, true)
  end.

Fixpoint skip_spaces (s : string) : string :=
  match s with
  | String c rest => if is_space c then skip_spaces rest else s
  | EmptyString => s
  end.

Fixpoint read_word (s : string) : string * string :=
  match s with
  | String c rest =>
      if is_space c then (EmptyString, s)
      else let '(w, after) := read_word rest in (String c w, after)
  | EmptyString => (EmptyString, s)
  end.

(** [cin >> word; cin.ignore()]. *)
Definition read_confirmation : M Device string :=
  let* input := gets cin in
  let '(word, after) := read_word (skip_spaces input) in
  modify (set_cin (match after with String _ rest => rest | EmptyString => after end)) ;;
  ret word.

(** *** Stepping *)

Definition replaceItem (g : WorkGroup) (i : nat) (wi : WorkItem Priv)
    (local : Memory) : WorkGroup :=
  mkWorkGroup (wg_groupID g) (wg_groupSize g) (<[i := wi]> (wg_items g)) local.

(** [m_currentWorkItem->step()].  The interpreter runs one instruction of
    the work-item the device points at; the notifications it sends reach
    the error router while that instruction is still the current one;
    then the advanced work-item and the memories it wrote take the place
    of the old ones.  The result is the new state of the work-item. *)
Definition stepWorkItem : M Device State :=
  let* p := gets m_currentWorkItem in
  let* i := deref p in
  let* og := gets m_currentWorkGroup in
  let* g := deref og in
  let* wi := deref (wg_items g !! i) in
  let* global := gets m_globalMemory in
  match workitem_step global (wg_localMemory g) wi with
  | StepThrow e => throw e
  | StepDone global' local' wi' notes =>
      forEach notes notify ;;
      modify (set_m_globalMemory global') ;;
      modify (set_m_currentWorkGroup (Some (replaceItem g i wi' local'))) ;;
      ret (wi_state wi')
  end.

Definition is_nil {A} (l : list A) : bool :=
  match l with [] => true | _ => false end.

(** The [do ... while] loop of [Device::step()]. *)
Fixpoint stepLoop (fuel : nat) (prevLine : Z) : M Device unit :=
  match fuel with
  | O => timeout
  | S fuel' =>
      let* state := stepWorkItem in
      if decide (state <> READY) then ret tt
      else
        let* currLine := getCurrentLineNumber in
        let* source := gets m_sourceLines in
        if negb (is_nil source) && ((currLine =? prevLine) || (currLine =? 0))
        then stepLoop fuel' prevLine
        else ret tt
  end.

(** [Device::step()], the helper behind the [step] and [next] commands. *)
Definition step (fuel : nat) : M Device unit :=
  let* p := currentWorkItem in
  let* wi := deref p in
  match wi_state wi with
  | BARRIER => to_cout [IS "Work-item is at a barrier."; Iendl]
  | FINISHED => to_cout [IS "Work-item has finished execution."; Iendl]
  | READY =>
      let* prevLine := getCurrentLineNumber in
      stepLoop fuel prevLine
  end.

(** *** Printing for the debugger *)

Definition printSourceLine (lineNum : Z) : M Device unit :=
  let* source := gets m_sourceLines in
  if negb (lineNum =? 0) && (lineNum <=? Z.of_nat (length source)) then
    let* text := deref (source !! Z.to_nat (lineNum - 1)) in
    to_cout [Idec; IN lineNum; IS tab; IS text; Iendl]
  else
    to_cout [IS "Invalid line number: "; IN lineNum; Iendl].

Definition printCurrentLine : M Device unit :=
  let* p := currentWorkItem in
  match p with
  | None => ret tt
  | Some wi =>
      if decide (wi_state wi = FINISHED) then ret tt
      else
        let* lineNum := getCurrentLineNumber in
        let* source := gets m_sourceLines in
        if negb (is_nil source) && (lineNum >? 0) then printSourceLine lineNum
        else
          to_cout [IS "Source line not available."; Iendl;
                   IS (inst_text (wi_inst wi)); Iendl]
  end.

(** [printFunction]: the function's name and arguments are the
    interpreter's text; the device adds the line. *)
Definition printFunction (instruction : Instruction) : M Device unit :=
  let* p := currentWorkItem in
  let* wi := deref p in
  to_cout [IS (function_text wi instruction); IS ") at line "; Idec;
           IN (getLineNumber instruction); Iendl].

(** *** Breakpoints *)

(** [m[id] = line] on a [std::map<size_t, size_t>]. *)
Fixpoint bp_insert (id line : Z) (l : list (Z * Z)) : list (Z * Z) :=
  match l with
  | [] => [(id, line)]
  | (i, v) :: rest =>
      if id <? i then (id, line) :: l
      else if id =? i then (id, line) :: rest
      else (i, v) :: bp_insert id line rest
  end.

Definition bp_erase (id : Z) (l : list (Z * Z)) : list (Z * Z) :=
  List.filter (fun bp => negb (fst bp =? id)) l.

Definition bp_count (id : Z) (l : list (Z * Z)) : bool :=
  existsb (fun bp => fst bp =? id) l.

(** The key [m_program] is in [m_breakpoints]; a null pointer is a key
    like any other. *)
Definition programKey (p : option Program) : Z :=
  match p with
  | Some p => prog_id p
  | None => 0
  end.

(** [m_breakpoints[m_program]], which makes an empty entry when there is
    none yet. *)
Definition programBreakpoints : M Device (list (Z * Z)) :=
  let* program := gets m_program in
  let* all := gets m_breakpoints in
  match all !! programKey program with
  | Some bps => ret bps
  | None =>
      modify (set_m_breakpoints (<[programKey program := []]> all)) ;;
      ret []
  end.

Definition setProgramBreakpoints (bps : list (Z * Z)) : M Device unit :=
  let* program := gets m_program in
  modify (fun d =>
    set_m_breakpoints (<[programKey program := bps]> (m_breakpoints d)) d).

(** *** [continue] *)

(** How one pass through the body of the inner loop of [cont] ends:
    [cont] returns, or the loop goes on with the given [canBreak]. *)
Inductive Flow := Returned | Continue (canBreak : bool).

Definition reportBreakpoint (id line : Z) : M Device unit :=
  let* p := currentWorkItem in
  let* wi := deref p in
  let gid := wi_globalID wi in
  to_cout [IS "Breakpoint "; IN id; IS " hit at line "; IN line;
           IS " by work-item ("; IN (v0 gid); IS ","; IN (v1 gid); IS ",";
           IN (v2 gid); IS ")"; Iendl].

(** "Check if we have passed over the previous breakpoint": the new
    value of [canBreak]. *)
Definition passedLastBreak (canBreak : bool) : M Device bool :=
  if canBreak then ret true
  else
    let* line := getCurrentLineNumber in
    let* last := gets lastBreakLine in
    ret (negb (line =? last)).

(** "Check if we're at a breakpoint". *)
Definition checkBreakpoint : M Device Flow :=
  let* line := getCurrentLineNumber in
  let* bps := programBreakpoints in
  match List.find (fun bp => snd bp =? line) bps with
  | Some (id, l) =>
      reportBreakpoint id l ;;
      printCurrentLine ;;
      modify (set_lastBreakLine line) ;;
      modify (set_m_listPosition 0) ;;
      ret Returned
  | None => ret (Continue true)
  end.

(** The body of the inner loop of [cont] after the call of [step]. *)
Definition afterStep (canBreak : bool) : M Device Flow :=
  let* interactive := gets m_interactive in
  if negb interactive then ret (Continue canBreak)
  else
    let* forceBreak := gets m_forceBreak in
    if forceBreak then
      modify (set_m_listPosition 0) ;;
      modify (set_m_forceBreak false) ;;
      ret Returned
    else
      let* all := gets m_breakpoints in
      if bool_decide (all = ∅) then ret (Continue canBreak)
      else
        let* passed := passedLastBreak canBreak in
        if negb passed then ret (Continue false)
        else checkBreakpoint.

(** The inner loop of [cont]: run the current work-item as far as
    possible. *)
Fixpoint runWorkItem (fuel : nat) (canBreak : bool) : M Device Flow :=
  match fuel with
  | O => timeout
  | S fuel' =>
      let* p := currentWorkItem in
      let* wi := deref p in
      let* running := gets m_running in
      if bool_decide (wi_state wi = READY) && running then
        stepWorkItem ;;
        let* flow := afterStep canBreak in
        match flow with
        | Returned => ret Returned
        | Continue canBreak' => runWorkItem fuel' canBreak'
        end
      else ret (Continue canBreak)
  end.

Definition nextWorkItemNow : M Device bool :=
  let* d := get in
  nextWorkItem (nextWorkItem_fuel d).

(** The outer loop of [cont]; the result tells whether [cont] returned
    from inside the loop. *)
Fixpoint contLoop (fuel : nat) (canBreak : bool) : M Device bool :=
  match fuel with
  | O => timeout
  | S fuel' =>
      let* p := gets m_currentWorkItem in
      let* running := gets m_running in
      if bool_decide (is_Some p) && running then
        let* flow := runWorkItem fuel' canBreak in
        match flow with
        | Returned => ret true
        | Continue canBreak' => nextWorkItemNow ;; contLoop fuel' canBreak'
        end
      else ret false
  end.

Definition cont (fuel : nat) (args : list string) : M Device unit :=
  let canBreak := false in
  modify (set_m_forceBreak false) ;;
  modify (set_m_running true) ;;
  let* returned := contLoop fuel canBreak in
  if returned : bool then ret tt else modify (set_m_running false).

(** *** Other commands *)

Definition brk (args : list string) : M Device unit :=
  let* source := gets m_sourceLines in
  if is_nil source then
    to_cout [IS "Breakpoints only valid when source is available."; Iendl]
  else
    let* current := getCurrentLineNumber in
    let install (lineNum : Z) : M Device unit :=
      if negb (lineNum =? 0) then
        let* bps := programBreakpoints in
        let* id := gets m_nextBreakpoint in
        modify (set_m_nextBreakpoint (SizeT.add id 1)) ;;
        setProgramBreakpoints (bp_insert id lineNum bps)
      else to_cout [IS "Not currently on a line."; Iendl] in
    match args with
    | _ :: arg :: _ =>
        let '(lineNum, eof) := extract_size_t arg in
        if negb eof || (lineNum =? 0)
           || (lineNum >? SizeT.add (Z.of_nat (length source)) 1)
        then to_cout [IS "Invalid line number."; Iendl]
        else install lineNum
    | _ => install current
    end.

Definition del (args : list string) : M Device unit :=
  match args with
  | _ :: arg :: _ =>
      let '(bpNum, eof) := extract_size_t arg in
      if negb eof then to_cout [IS "Invalid breakpoint number."; Iendl]
      else
        let* bps := programBreakpoints in
        if negb (bp_count bpNum bps) then
          to_cout [IS "Breakpoint not found."; Iendl]
        else
          let* bps := programBreakpoints in
          setProgramBreakpoints (bp_erase bpNum bps)
  | _ =>
      to_cout [IS "Delete all breakpoints? (y/n) "] ;;
      let* confirm := read_confirmation in
      when (bool_decide (confirm = "y")) (modify (set_m_breakpoints ∅))
  end.

Definition info (args : list string) : M Device unit :=
  match args with
  | _ :: arg :: _ =>
      if bool_decide (arg = "break") then
        let* bps := programBreakpoints in
        forEach bps (fun bp =>
          to_cout [IS "Breakpoint "; IN (fst bp); IS ": Line "; IN (snd bp);
                   Iendl])
      else to_cout [IS "Invalid info command: "; IS arg; Iendl]
  | _ =>
      let* ok := gets m_kernel in
      let* k := deref ok in
      let* gs := gets m_globalSize in
      let* go := gets m_globalOffset in
      let* ls := gets m_localSize in
      to_cout [IS "Running kernel '"; IS (kernel_getName k); IS "'"; Iendl;
               IS "-> Global work size:   ("; IN (v0 gs); IS ",";
               IN (v1 gs); IS ","; IN (v2 gs); IS ")"; Iendl;
               IS "-> Global work offset: ("; IN (v0 go); IS ",";
               IN (v1 go); IS ","; IN (v2 go); IS ")"; Iendl;
               IS "-> Local work size:    ("; IN (v0 ls); IS ",";
               IN (v1 ls); IS ","; IN (v2 ls); IS ")"; Iendl] ;;
      let* p := currentWorkItem in
      match p with
      | Some wi =>
          let gid := wi_globalID wi in
          to_cout [Iendl; IS "Current work-item: ("; IN (v0 gid); IS ",";
                   IN (v1 gid); IS ","; IN (v2 gid); IS ")"; Iendl] ;;
          printCurrentLine
      | None => to_cout [IS "All work-items finished."; Iendl]
      end
  end.

Definition LIST_LENGTH : Z := 10.

(** The display loop of [list]: it stops at the first line past the end
    of the source. *)
Fixpoint displayLines (start size : Z) (offsets : list Z) : M Device unit :=
  match offsets with
  | [] => ret tt
  | i :: rest =>
      if SizeT.add start i >=? SizeT.add size 1 then ret tt
      else printSourceLine (SizeT.add start i) ;; displayLines start size rest
  end.

(** The [list] command, [Device::list]. *)
Definition list_cmd (args : list string) : M Device unit :=
  let* p := gets m_currentWorkItem in
  let* source := gets m_sourceLines in
  let size := Z.of_nat (length source) in
  let display (start : Z) : M Device unit :=
    displayLines start size (range LIST_LENGTH) ;;
    modify (set_m_listPosition start) in
  let backwards : M Device unit :=
    let* position := gets m_listPosition in
    let* current := getCurrentLineNumber in
    let start := if negb (position =? 0) then position else current in
    display (if start >? LIST_LENGTH then start - LIST_LENGTH else 1) in
  let forwards : M Device unit :=
    let* position := gets m_listPosition in
    let* current := getCurrentLineNumber in
    let start :=
      if negb (position =? 0) then SizeT.add position LIST_LENGTH
      else SizeT.add current 1 in
    if start >=? SizeT.add size 1 then
      modify (set_m_listPosition (SizeT.add size 1))
    else display start in
  match p with
  | None => to_cout [IS "All work-items finished."; Iendl]
  | Some _ =>
      if is_nil source then to_cout [IS "No source code available."; Iendl]
      else
        match args with
        | _ :: arg :: _ =>
            if bool_decide (arg = "-") then backwards
            else
              let '(start, eof) := extract_size_t arg in
              if negb eof then to_cout [IS "Invalid line number."; Iendl]
              else
                display (if start >? LIST_LENGTH / 2
                         then start - LIST_LENGTH / 2 else 1)
        | _ => forwards
        end
  end.

Definition callDepth : M Device Z :=
  let* p := currentWorkItem in
  let* wi := deref p in
  ret (Z.of_nat (length (wi_callStack wi))).

(** What [step] and [next] print once they have stepped. *)
Definition showPosition (prevDepth : Z) : M Device unit :=
  let* depth := callDepth in
  let* p := currentWorkItem in
  let* wi := deref p in
  when (negb (prevDepth =? depth) && negb (bool_decide (wi_state wi = FINISHED)))
    (printFunction (wi_inst wi)) ;;
  printCurrentLine ;;
  modify (set_m_listPosition 0).

(** The [do ... while] loop of [next]. *)
Fixpoint nextLoop (fuel : nat) (prevDepth : Z) : M Device unit :=
  match fuel with
  | O => timeout
  | S fuel' =>
      step fuel' ;;
      let* depth := callDepth in
      if depth >? prevDepth then nextLoop fuel' prevDepth else ret tt
  end.

Definition next (fuel : nat) (args : list string) : M Device unit :=
  let* p := gets m_currentWorkItem in
  match p with
  | None => to_cout [IS "All work-items finished."; Iendl]
  | Some _ =>
      let* prevDepth := callDepth in
      nextLoop fuel prevDepth ;;
      showPosition prevDepth
  end.

Definition quit (args : list string) : M Device unit :=
  modify (set_m_interactive false) ;;
  modify (set_m_running false) ;;
  modify (set_m_breakpoints ∅).

(** The [step] command, [Device::step(vector<string>)]. *)
Definition stepCommand (fuel : nat) (args : list string) : M Device unit :=
  let* p := gets m_currentWorkItem in
  match p with
  | None => to_cout [IS "All work-items finished."; Iendl]
  | Some _ =>
      let* prevDepth := callDepth in
      step fuel ;;
      showPosition prevDepth
  end.

(** *** [workitem] *)

(** The loop over the arguments of [workitem]; [i] is the loop variable.
    [None] is the early return after "Invalid global ID.". *)
Fixpoint parseGlobalID (args : list string) (i : nat) (gid : size3)
    : M Device (option size3) :=
  match args with
  | [] => ret (Some gid)
  | arg :: rest =>
      let '(value, eof) := extract_size_t arg in
      let* gid' := deref (v3_set gid (i - 1) value) in
      let* invalid :=
        (if negb eof then ret true
         else
           let* gs := gets m_globalSize in
           let* limit := deref (v3_get gs (i - 1)) in
           ret (value >=? limit)) in
      if invalid : bool then
        to_cout [IS "Invalid global ID."; Iendl] ;;
        ret None
      else parseGlobalID rest (S i) gid'
  end.

Definition same_group (a b : size3) : bool :=
  (v0 a =? v0 b) && (v1 a =? v1 b) && (v2 a =? v2 b).

Global Instance same_group_dec (a b : size3) : Decision (same_group a b = true).
Proof. solve_decision. Defined.

(** The search of the running pool; the result is [found]. *)
Definition findInRunning (group : size3) : M Device bool :=
  let* running := gets m_runningGroups in
  match list_find (fun g => same_group group (wg_groupID g) = true) running with
  | Some (position, g) =>
      modify (set_m_currentWorkGroup (Some g)) ;;
      modify (set_m_runningGroups (delete position running)) ;;
      ret true
  | None => ret false
  end.

(** The search of the pending pool; the result is [found]. *)
Definition findInPending (group : size3) : M Device bool :=
  let* pending := gets m_pendingGroups in
  match list_find (fun g => same_group group g = true) pending with
  | Some (position, _) =>
      let* g := createWorkGroup (v0 group) (v1 group) (v2 group) in
      modify (set_m_currentWorkGroup (Some g)) ;;
      modify (set_m_pendingGroups (delete position pending)) ;;
      ret true
  | None => ret false
  end.

(** The last part of [workitem]: make the work-item with global id
    [gid] of the current work-group the current one and show it. *)
Definition selectWorkItem (gid : size3) : M Device unit :=
  let* ls := gets m_localSize in
  let* l0 := deref (SizeT.rem (v0 gid) (v0 ls)) in
  let* l1 := deref (SizeT.rem (v1 gid) (v1 ls)) in
  let* l2 := deref (SizeT.rem (v2 gid) (v2 ls)) in
  let lid := V3 l0 l1 l2 in
  let* og := gets m_currentWorkGroup in
  let* g := deref og in
  modify (set_m_currentWorkItem (getWorkItem g lid)) ;;
  to_cout [IS "Switched to work-item: ("; IN (v0 gid); IS ",";
           IN (v1 gid); IS ","; IN (v2 gid); IS ")"; Iendl] ;;
  let* p := currentWorkItem in
  let* wi := deref p in
  if decide (wi_state wi = FINISHED) then
    to_cout [IS "Work-item has finished execution."; Iendl]
  else printCurrentLine.

Definition workitem (args : list string) : M Device unit :=
  let* parsed := parseGlobalID (tail args) 1 (V3 0 0 0) in
  match parsed with
  | None => ret tt
  | Some gid =>
      let* ls := gets m_localSize in
      let* g0 := deref (SizeT.div (v0 gid) (v0 ls)) in
      let* g1 := deref (SizeT.div (v1 gid) (v1 ls)) in
      let* g2 := deref (SizeT.div (v2 gid) (v2 ls)) in
      let group := V3 g0 g1 g2 in
      let* previousWorkGroup := gets m_currentWorkGroup in
      let* current := deref previousWorkGroup in
      let isCurrent := same_group group (wg_groupID current) in
      let* found :=
        (if isCurrent then ret true
         else
           let* inRunning := findInRunning group in
           if inRunning : bool then ret true else findInPending group) in
      if negb found then
        to_cout [IS "Work-item has already finished, unable to load state.";
                 Iendl]
      else
        (* the current work-group is another object than the previous one
           exactly when it came out of a pool *)
        when (negb isCurrent)
          (modify (fun d =>
             set_m_runningGroups (m_runningGroups d ++ [current]) d)) ;;
        selectWorkItem gid
  end.

(** *** Command loop *)

Inductive Command :=
| Cbacktrace | Cbrk | Ccont | Cdel | Cmem | Chelp | Cinfo | Clist | Cnext
| Cprint | Cquit | Cstep | Cworkitem.

(** The table the constructor fills with [ADD_CMD]. *)
Definition m_commands : list (string * Command) :=
  [("backtrace", Cbacktrace); ("bt", Cbacktrace);
   ("break", Cbrk); ("b", Cbrk);
   ("continue", Ccont); ("c", Ccont);
   ("delete", Cdel); ("d", Cdel);
   ("gmem", Cmem); ("gm", Cmem);
   ("help", Chelp); ("h", Chelp);
   ("info", Cinfo); ("i", Cinfo);
   ("list", Clist); ("l", Clist);
   ("lmem", Cmem); ("lm", Cmem);
   ("next", Cnext); ("n", Cnext);
   ("pmem", Cmem); ("pm", Cmem);
   ("print", Cprint); ("p", Cprint);
   ("quit", Cquit); ("q", Cquit);
   ("step", Cstep); ("s", Cstep);
   ("workitem", Cworkitem); ("wi", Cworkitem)].

Definition findCommand (name : string) : option Command :=
  snd <$> List.find (fun entry => bool_decide (fst entry = name)) m_commands.

(** The handlers that only inspect the interpreter's data (call stack,
    memory contents, variables) or print fixed text are not embedded;
    the command loop takes them as they come. *)
Class Inspectors := {
  backtrace : list string -> M Device unit;
  help : list string -> M Device unit;
  mem : list string -> M Device unit;
  print : list string -> M Device unit
}.

Context `{Inspectors}.

Definition execute (fuel : nat) (c : Command) (tokens : list string)
    : M Device unit :=
  match c with
  | Cbacktrace => backtrace tokens
  | Cbrk => brk tokens
  | Ccont => cont fuel tokens
  | Cdel => del tokens
  | Cmem => mem tokens
  | Chelp => help tokens
  | Cinfo => info tokens
  | Clist => list_cmd tokens
  | Cnext => next fuel tokens
  | Cprint => print tokens
  | Cquit => quit tokens
  | Cstep => stepCommand fuel tokens
  | Cworkitem => workitem tokens
  end.

(** The interactive debugging loop, [while (m_running)], in the build
    without a line editor: the prompt goes to [cout] and the line comes
    from [getline]. *)
Fixpoint commandLoop (fuel : nat) : M Device unit :=
  match fuel with
  | O => timeout
  | S fuel' =>
      let* running := gets m_running in
      if negb running then ret tt
      else
        to_cout [IS "(oclgrind) "] ;;
        let* input := getline in
        let '(cmd, eof) := input in
        if eof : bool then
          to_cout [IS "(quit)"; Iendl] ;;
          quit []
        else
          match tokenize cmd with
          | [] => commandLoop fuel'
          | name :: arguments =>
              match findCommand name with
              | Some c => execute fuel' c (name :: arguments)
              | None =>
                  to_cout [IS "Unrecognized command '"; IS name; IS "'"; Iendl]
              end ;;
              commandLoop fuel'
          end
  end.

(** *** [run] *)

Definition catchFatal (c : M Device unit) (handler : FatalError -> M Device unit)
    : M Device unit :=
  fun d =>
    match c d with
    | Throw e d' => handler e d'
    | r => r
    end.

(** The lines of the source text, as [getline] with ['\n'] splits them. *)
Fixpoint lines_from (s : string) (current : string) : list string :=
  match s with
  | EmptyString => if is_empty current then [] else [current]
  | String c rest =>
      if decide (c = newline) then current :: lines_from rest EmptyString
      else lines_from rest (current +:+ String c EmptyString)
  end.

Definition teardown (kernel : Kernel) : M Device unit :=
  modify (set_m_runningGroups []) ;;
  modify (set_m_currentWorkGroup None) ;;
  modify (fun d =>
    set_m_globalMemory (kernel_deallocateConstants kernel (m_globalMemory d)) d) ;;
  modify (set_m_kernel None) ;;
  modify (fun d => set_m_globalMemory (memory_synchronize (m_globalMemory d)) d).

(** What [run] does on the way into interactive mode. *)
Definition enterDebugger : M Device unit :=
  modify (set_m_running true) ;;
  let* program := gets m_program in
  let source := match program with
                | Some p => prog_source p
                | None => EmptyString
                end in
  modify (set_m_sourceLines (lines_from source EmptyString)) ;;
  to_cout [Iendl] ;;
  info [].

(** The body of the [try] block of [run]. *)
Definition debugOrRun (fuel : nat) : M Device unit :=
  let* interactive := gets m_interactive in
  (if interactive then enterDebugger
   else
     cont fuel [] ;;
     modify (set_m_running false)) ;;
  commandLoop fuel.

(** The first part of [Device::run], up to the first call of
    [nextWorkItem]: sizes, constant memory, the pool of pending
    work-groups.  The result is [false] when the constants could not be
    allocated and [run] returns at once. *)
Definition startRun (kernel : Kernel) (workDim : Z)
    (globalOffset globalSize localSize : list Z) : M Device bool :=
  let* running := gets m_runningGroups in
  if negb (is_nil running) then undefined
  else
    setup workDim globalOffset globalSize localSize ;;
    let* global := gets m_globalMemory in
    match kernel_allocateConstants kernel global with
    | inl err =>
        to_cerr [Iendl; IS "OCLGRIND FATAL ERROR "; IS "("; IS (err_file err);
                 IS ":"; IN (err_line err); IS ")"; Iendl; IS (err_what err);
                 Iendl; IS "When allocating kernel constants for '";
                 IS (kernel_getName kernel); IS "'"; Iendl] ;;
        ret false
    | inr global' =>
        modify (set_m_globalMemory global') ;;
        createPendingGroups ;;
        modify (set_m_program (Some (kernel_getProgram kernel))) ;;
        modify (set_m_kernel (Some kernel)) ;;
        modify (set_m_listPosition 0) ;;
        modify (set_m_currentWorkGroup None) ;;
        modify (set_m_currentWorkItem None) ;;
        modify (fun d =>
          set_m_globalMemory (memory_synchronize (m_globalMemory d)) d) ;;
        nextWorkItemNow ;;
        ret true
    end.

(** What [run] does with a [FatalError] of the interpreter. *)
Definition reportFatal (err : FatalError) : M Device unit :=
  to_cerr [Iendl; IS "OCLGRIND FATAL ERROR "; IS "("; IS (err_file err);
           IS ":"; IN (err_line err); IS ")"; Iendl; IS (err_what err);
           Iendl] ;;
  printErrorContext ;;
  to_cerr [Iendl].

(** [Device::run], up to the point where the instruction counts are
    reported; the report reads the interpreter's counters and writes to
    the standard output only.  A failed [assert] has no result. *)
Definition run (fuel : nat) (kernel : Kernel) (workDim : Z)
    (globalOffset globalSize localSize : list Z) : M Device unit :=
  let* started := startRun kernel workDim globalOffset globalSize localSize in
  if started : bool then
    catchFatal (debugOrRun fuel) reportFatal ;;
    teardown kernel
  else ret tt.

(** The constructor: the three modes come from the environment, each on
    exactly for the value ["1"]; the members it leaves unset start out
    here as zero, empty or false. *)
Definition envFlag (value : option string) : bool :=
  match value with
  | Some v => bool_decide (v = "1")
  | None => false
  end.

(** [lastBreakLine] is no member: it is a static of [cont] that the
    constructor does not touch.  Its value 0 here is the one the first
    device of a process finds; a later device would find what [cont]
    last left there. *)
Definition newDevice (instCounts interactive quick : option string)
    (memory : Memory) (input : string) : Device :=
  {| m_interactive := envFlag interactive;
     m_showInstCounts := envFlag instCounts;
     m_quickMode := envFlag quick;
     m_running := false;
     m_forceBreak := false;
     m_workDim := 0;
     m_globalSize := V3 0 0 0;
     m_globalOffset := V3 0 0 0;
     m_localSize := V3 0 0 0;
     m_numGroups := V3 0 0 0;
     m_pendingGroups := [];
     m_runningGroups := [];
     m_currentWorkGroup := None;
     m_currentWorkItem := None;
     m_globalMemory := memory;
     m_kernel := None;
     m_program := None;
     m_breakpoints := ∅;
     m_nextBreakpoint := 1;
     m_listPosition := 0;
     m_sourceLines := [];
     lastBreakLine := 0;
     cin := input;
     cout := mkStream [] Dec;
     cerr := mkStream [] Dec |}.

End Model.

(** ** Derived notions used in the statements *)

(** The groups [(i, j, k)] below [n], [k] outermost and [i] innermost. *)
Definition allGroups (n : size3) : list size3 := grid n V3.

(** The state a computation ends in, when it returns. *)
Definition final {S A} (r : Result S A) : option S :=
  match r with
  | Ok _ s => Some s
  | _ => None
  end.

(** The point [g] lies in the box of sizes [n]. *)
Definition in_box (n g : size3) : Prop :=
  0 <= v0 g < v0 n /\ 0 <= v1 g < v1 n /\ 0 <= v2 g < v2 n.

Definition positive3 (v : size3) : Prop := 1 <= v0 v /\ 1 <= v1 v /\ 1 <= v2 v.

(** What a sequence of [<<] operands puts on a stream that is in base
    [b], and the base it leaves the stream in. *)
Fixpoint render (items : list Item) (b : Base) : list Tok :=
  match items with
  | [] => []
  | IS s :: rest => TStr s :: render rest b
  | IN n :: rest => TNum b n :: render rest b
  | Iendl :: rest => TEndl :: render rest b
  | Idec :: rest => render rest Dec
  | Ihex :: rest => render rest Hex
  end.

Fixpoint final_base (items : list Item) (b : Base) : Base :=
  match items with
  | [] => b
  | Idec :: rest => final_base rest Dec
  | Ihex :: rest => final_base rest Hex
  | _ :: rest => final_base rest b
  end.

(** Whether the stream is at the start of a line after the operands,
    given whether it was before. *)
Fixpoint line_start (items : list Item) (start : bool) : bool :=
  match items with
  | [] => start
  | Iendl :: rest => line_start rest true
  | IS _ :: rest | IN _ :: rest => line_start rest false
  | Idec :: rest | Ihex :: rest => line_start rest start
  end.

(** What each router function writes before the error context. *)
Definition heading (n : Notification) : list Item :=
  match n with
  | MemoryError read addrSpace address size =>
      [Iendl; IS "Invalid "; IS (if read then "read" else "write");
       IS " of size "; IN size; IS " at "; IS (memTypeName addrSpace);
       IS " memory address "; Ihex; IN address; Iendl]
  | DataRace type addrSpace address _ _ _ =>
      [Iendl; IS (raceName type); IS " data race"; IS " at ";
       IS (memTypeName addrSpace); IS " memory address "; Ihex; IN address;
       Iendl]
  | Divergence _ divergence _ _ =>
      [Iendl; IS "Work-group divergence detected ("; IS divergence; IS "):";
       Iendl]
  | GenericError error _ => [Iendl; IS error; IS ":"; Iendl]
  end.

Section Views.

Context `{Interpreter}.

(** The work-item [m_currentWorkItem] designates: [Some None] for a null
    pointer, [None] for a pointer that cannot be followed. *)
Definition pointee (d : Device) : option (option (WorkItem Priv)) :=
  match m_currentWorkItem d with
  | None => Some None
  | Some i =>
      g ← m_currentWorkGroup d;
      wi ← wg_items g !! i;
      Some (Some wi)
  end.

(** The device after [items] went to the diagnostic stream. *)
Definition emit (items : list Item) (d : Device) : Device :=
  set_cerr (write items (cerr d)) d.

(** The device once a router function has written [items] and asked for
    a break. *)
Definition reported (items : list Item) (d : Device) : Device :=
  set_m_forceBreak true (emit items d).

(** The device after the groups [gs] joined the pending pool. *)
Definition enqueued (gs : list size3) (d : Device) : Device :=
  set_m_pendingGroups (m_pendingGroups d ++ gs) d.

(** The line about the other party of a data race, where it can be
    decoded. *)
Definition otherEntity (d : Device) (lastWorkItem lastWorkGroup : Z)
    : option (list Item) :=
  if decide (lastWorkItem <> SizeT.max) then
    raceEntity "work-item" <$> delinearize (m_globalSize d) lastWorkItem
  else if decide (lastWorkGroup <> SizeT.max) then
    raceEntity "work-group" <$> delinearize (m_numGroups d) lastWorkGroup
  else Some [IS (tab +:+ "Race occured with unknown entity"); Iendl].

(** What each router function writes between the error context and the
    closing [endl]; there is none when the other party of a race cannot
    be decoded. *)
Definition detail (d : Device) (n : Notification) : option (list Item) :=
  match n with
  | MemoryError _ _ _ _ => Some []
  | DataRace _ _ _ lastWorkItem lastWorkGroup lastInstruction =>
      entity ← otherEntity d lastWorkItem lastWorkGroup;
      Some ([Iendl] ++ entity ++
            match lastInstruction with
            | Some i => IS tab :: printInstruction i
            | None => []
            end)
  | Divergence instruction _ currentInfo previousInfo =>
      Some ((if is_empty currentInfo then []
             else [IS tab; IS currentInfo; Iendl])
            ++ [Iendl; IS "Previous work-items executed this instruction:";
                Iendl]
            ++ IS tab :: printInstruction instruction
            ++ (if is_empty previousInfo then []
                else [IS tab; IS previousInfo; Iendl]))
  | GenericError _ info =>
      Some (if is_empty info then [] else [IS tab; IS info; Iendl])
  end.

(** A ready work-item is current. *)
Definition ready_current (d : Device) : Prop :=
  exists g i wi,
    m_currentWorkGroup d = Some g /\ m_currentWorkItem d = Some i /\
    wg_items g !! i = Some wi /\ wi_state wi = READY.

(** No work-group is left: none current, running or pending. *)
Definition nothing_left (d : Device) : Prop :=
  m_currentWorkGroup d = None /\ m_runningGroups d = [] /\
  m_pendingGroups d = [].

(** A work-group that [nextWorkItem] passes over: no work-item of it is
    ready and none waits at a barrier. *)
Definition finished_group (g : WorkGroup) : Prop :=
  getNextWorkItem g = None /\ hasBarrier g = false.

(** No work-group of the device has a work-item to run: not the current
    one, none of the running pool, and none that the pending pool would
    instantiate. *)
Definition all_finished (d : Device) : Prop :=
  (forall g, m_currentWorkGroup d = Some g -> finished_group g) /\
  Forall finished_group (m_runningGroups d) /\
  (forall k, m_kernel d = Some k ->
     Forall (fun p => finished_group
                        (newWorkGroup k p (m_globalOffset d) (m_localSize d)))
            (m_pendingGroups d)).

(** The global id the tokens after the command name stand for: up to
    three numbers, each read to the end of its token; missing ones are
    zero. *)
Definition denotes (tokens : list string) (G : size3) : Prop :=
  match tokens with
  | [] => G = V3 0 0 0
  | [a] => extract_size_t a = (v0 G, true) /\ v1 G = 0 /\ v2 G = 0
  | [a; b] =>
      extract_size_t a = (v0 G, true) /\ extract_size_t b = (v1 G, true) /\
      v2 G = 0
  | [a; b; c] =>
      extract_size_t a = (v0 G, true) /\ extract_size_t b = (v1 G, true) /\
      extract_size_t c = (v2 G, true)
  | _ => False
  end.

(** A work-group of the running invocation: for every local id it yields
    a work-item with that local id and the matching global id. *)
Definition group_of (d : Device) (g : WorkGroup) : Prop :=
  forall lid, in_box (m_localSize d) lid ->
    exists i wi,
      getWorkItem g lid = Some i /\ wg_items g !! i = Some wi /\
      wi_localID wi = lid /\
      wi_globalID wi =
        globalIDOf (wg_groupID g) (m_globalOffset d) (m_localSize d) lid.

(** The line the device is currently on, [getCurrentLineNumber] as a function
    of the state. *)
Definition currentLine (d : Device) : Z :=
  match pointee d with
  | Some p => lineOf p
  | None => 0
  end.

(** The device differs from [d] in the diagnostic stream and the break
    request only. *)
Definition router_only (d d' : Device) : Prop :=
  exists o fb, d' = set_m_forceBreak fb (set_cerr o d).

(** [stops prev st d]: after an instruction that left the work-item in
    state [st] and the device in [d], the loop of [step] ends. *)
Definition stops (prev : Z) (st : State) (d : Device) : Prop :=
  st <> READY \/ m_sourceLines d = [] \/
  (currentLine d <> prev /\ currentLine d <> 0).

(** [stepped prev n d d']: [n] instructions of the current work-item take
    the device from [d] to [d'], and the loop of [step] goes on after
    each but the last. *)
Inductive stepped (prev : Z) : nat -> Device -> Device -> Prop :=
| stepped_last d st d1 :
    stepWorkItem d = Ok st d1 -> stops prev st d1 -> stepped prev 1 d d1
| stepped_more n d d1 d' :
    stepWorkItem d = Ok READY d1 ->
    m_sourceLines d1 <> [] ->
    currentLine d1 = prev \/ currentLine d1 = 0 ->
    stepped prev n d1 d' ->
    stepped prev (S n) d d'.

(** Every component of both stored sizes is at least one. *)
Definition sizes_at_least_one (d : Device) : Prop :=
  positive3 (m_localSize d) /\ positive3 (m_globalSize d).

(** The loop of [step] as the specification words it: it goes on while
    the work-item is ready and no source is loaded, or the new line is
    the previous line or zero. *)
Fixpoint stepLoop_worded (fuel : nat) (prevLine : Z) : M Device unit :=
  match fuel with
  | O => timeout
  | S fuel' =>
      let* state := stepWorkItem in
      if decide (state <> READY) then ret tt
      else
        let* currLine := getCurrentLineNumber in
        let* source := gets m_sourceLines in
        if is_nil source || (currLine =? prevLine) || (currLine =? 0)
        then stepLoop_worded fuel' prevLine
        else ret tt
  end.

Definition step_worded (fuel : nat) : M Device unit :=
  let* p := currentWorkItem in
  let* wi := deref p in
  match wi_state wi with
  | BARRIER => to_cout [IS "Work-item is at a barrier."; Iendl]
  | FINISHED => to_cout [IS "Work-item has finished execution."; Iendl]
  | READY =>
      let* prevLine := getCurrentLineNumber in
      stepLoop_worded fuel prevLine
  end.

(** The breakpoints of the current program. *)
Definition breakpointsHere (d : Device) : list (Z * Z) :=
  default [] (m_breakpoints d !! programKey (m_program d)).

(** The breakpoint that fires on line [line], the first in order of id. *)
Definition firing (d : Device) (line : Z) : option (Z * Z) :=
  List.find (fun bp => snd bp =? line) (breakpointsHere d).

(** The device after [quit]. *)
Definition quitted (d : Device) : Device :=
  set_m_breakpoints ∅ (set_m_running false (set_m_interactive false d)).

(** The device after the prompt went out and one line was read. *)
Definition prompted (after : string) (d : Device) : Device :=
  set_cin after (set_cout (write [IS "(oclgrind) "] (cout d)) d).

(** The device after the teardown of [run]. *)
Definition tornDown (kernel : Kernel) (d : Device) : Device :=
  set_m_globalMemory
    (memory_synchronize (kernel_deallocateConstants kernel (m_globalMemory d)))
    (set_m_kernel None (set_m_currentWorkGroup None (set_m_runningGroups [] d))).

End Views.

(** ** The row-major linear index *)

(** The conventional row-major linear index of the point [g] in a box of
    sizes [n], in the spec's words [i = x + y*S0 + z*S0*S1].  The device
    itself never computes it; it is what the decoding in
    [notifyDataRace] is compared with. *)
Definition linearize_rowmajor (n g : size3) : Z :=
  v0 g + v1 g * v0 n + v2 g * v0 n * v1 n.

(** ** Notions for the debugger commands *)

Section Debugger.

Context `{Interpreter}.

(** The device after [items] went to the standard output. *)
Definition said (items : list Item) (d : Device) : Device :=
  set_cout (write items (cout d)) d.

(** The breakpoints recorded under the key [key]; none when the key has
    no entry. *)
Definition breakpointsOf (d : Device) (key : Z) : list (Z * Z) :=
  default [] (m_breakpoints d !! key).

(** The line of breakpoint [id] in the list [l]. *)
Definition bp_line (id : Z) (l : list (Z * Z)) : option Z :=
  snd <$> List.find (fun bp => fst bp =? id) l.

(** [m_breakpoints] once [m_breakpoints[m_program]] has been evaluated:
    the entry of the current program exists. *)
Definition touched (d : Device) : gmap Z (list (Z * Z)) :=
  match m_breakpoints d !! programKey (m_program d) with
  | Some _ => m_breakpoints d
  | None => <[programKey (m_program d) := []]> (m_breakpoints d)
  end.

(** The device after the breakpoints of the current program became [l]. *)
Definition withBreakpoints (l : list (Z * Z)) (d : Device) : Device :=
  set_m_breakpoints (<[programKey (m_program d) := l]> (m_breakpoints d)) d.



(** What [printSourceLine] writes for line [l] of [source]. *)
Definition sourceLine (source : list string) (l : Z) : list Item :=
  match source !! Z.to_nat (l - 1) with
  | Some text => [Idec; IN l; IS tab; IS text; Iendl]
  | None => []
  end.

(** The lines of [source] from line [start] on, [LIST_LENGTH] of them or
    as many as there are. *)
Definition listing (source : list string) (start : Z) : list Item :=
  l ← seqZ start (Z.min LIST_LENGTH (Z.of_nat (length source) + 1 - start));
  sourceLine source l.

(** A source text: every line followed by a newline. *)
Definition unlines (lines : list string) : string :=
  foldr (fun line text => line +:+ String newline text) EmptyString lines.

(** The character [c] does not occur in [s]. *)
Fixpoint free_of (c : ascii) (s : string) : Prop :=
  match s with
  | EmptyString => True
  | String c' rest => c' <> c /\ free_of c rest
  end.

(** What [info break] writes for a list of breakpoints. *)
Definition breakpointLines (l : list (Z * Z)) : list Item :=
  bp ← l; [IS "Breakpoint "; IN (fst bp); IS ": Line "; IN (snd bp); Iendl].

(** [d'] differs from [d] in the sizes and the offset only. *)
Definition sizes_only (d d' : Device) : Prop :=
  exists gs go ls,
    d' = set_m_localSize ls (set_m_globalOffset go (set_m_globalSize gs d)).

(** What the scheduler leaves untouched. *)
Definition scheduler_only (d d' : Device) : Prop :=
  m_interactive d' = m_interactive d /\ m_running d' = m_running d /\
  cout d' = cout d /\ cin d' = cin d /\ cerr d' = cerr d /\
  m_kernel d' = m_kernel d /\ m_globalMemory d' = m_globalMemory d /\
  m_breakpoints d' = m_breakpoints d.

End Debugger.

(** ** A script interpreter for worked examples

    Every work-item runs the same straight-line script.  Global memory
    is the log of the instructions executed so far, with the global id of
    the work-item that ran each. *)
Module Script.

Inductive Effect :=
| Plain
| AtBarrier
| Send (n : Notification)
| Fail (e : FatalError).

Definition Code : Type := list (Instruction * Effect).

Record ScriptKernel := mkKernel {
  name : string;
  program : Program;
  code : Code
}.

Definition Log : Type := list (size3 * string).

Definition halt : Instruction := mkInst "ret" None.

Definition first_of (c : Code) (default : Instruction) : Instruction :=
  match c with
  | (i, _) :: _ => i
  | [] => default
  end.

Definition entry (k : ScriptKernel) (gid lid : size3) : Instruction * Code :=
  (first_of (code k) halt, code k).

Definition exec (global local : Log) (wi : WorkItem Code)
    : StepResult Code Log :=
  match wi_priv wi with
  | [] =>
      StepDone global local
        (mkWorkItem (wi_globalID wi) (wi_localID wi) FINISHED (wi_inst wi)
           (wi_callStack wi) [])
        []
  | (i, Fail e) :: _ => StepThrow e
  | (i, effect) :: rest =>
      let state :=
        match rest, effect with
        | [], _ => FINISHED
        | _, AtBarrier => BARRIER
        | _, _ => READY
        end in
      StepDone (global ++ [(wi_globalID wi, inst_text i)]) local
        (mkWorkItem (wi_globalID wi) (wi_localID wi) state (first_of rest i)
           (wi_callStack wi) rest)
        (match effect with Send n => [n] | _ => [] end)
  end.

Global Instance interpreter : Interpreter := {|
  Priv := Code;
  Memory := Log;
  Kernel := ScriptKernel;
  kernel_getName := name;
  kernel_getProgram := program;
  kernel_allocateConstants := fun _ m => inr m;
  kernel_deallocateConstants := fun _ m => m;
  kernel_getLocalMemory := fun _ => [];
  memory_synchronize := fun m => m;
  workitem_entry := entry;
  workitem_step := exec;
  function_text := fun _ _ => "kernel("
|}.

Global Instance inspectors : Inspectors := {|
  backtrace := fun _ => ret tt;
  help := fun _ => ret tt;
  mem := fun _ => ret tt;
  print := fun _ => ret tt
|}.

(** An instruction of source line [n]. *)
Definition at_line (n : Z) : Instruction := mkInst "op" (Some (n, "k.cl")).

(** A device as the constructor leaves it, non-interactive, with
    nothing to read. *)
Definition fresh : Device := newDevice None None None [] EmptyString.

(** The same with quick mode on. *)
Definition fresh_quick : Device :=
  newDevice None None (Some "1") [] EmptyString.

(** The same in interactive mode, reading [input]. *)
Definition fresh_interactive (input : string) : Device :=
  newDevice None (Some "1") None [] input.

(** A kernel of four instructions on the source lines 1, 2, 2 and 3. *)
Definition source3 : string := "a = 1;
b = 2;
c = 3;
".

Definition kernel4 : ScriptKernel :=
  mkKernel "k" (mkProgram 1 source3)
    [(at_line 1, Plain); (at_line 2, Plain); (at_line 2, Plain);
     (at_line 3, Plain)].

Definition state_of {A} (r : Result Device A) : Device :=
  default fresh (final r).

(** The sizes of the spec's enumeration scenario, set up. *)
Definition sized : Device :=
  state_of (setup 2 [0; 0] [4; 2] [2; 1] fresh).

(** A run of one work-item (or, with [globalSize] 2, of two groups of
    one work-item), not interactive, just started: no source is
    loaded. *)
Definition started (globalSize : Z) : Device :=
  state_of (startRun kernel4 1 [0] [globalSize] [1] fresh).

(** The first of two work-groups has run its work-item to the end. *)
Definition firstDone : Device :=
  state_of ((stepWorkItem ;; stepWorkItem ;; stepWorkItem ;; stepWorkItem)
              (started 2)).

(** An interactive run of one work-item at its first prompt, with
    [input] left to read. *)
Definition atPrompt (input : string) : Device :=
  state_of ((startRun kernel4 1 [0] [1] [1] ;; enterDebugger)
              (fresh_interactive input)).

(** After [break 2]. *)
Definition withBreakpoint : Device :=
  state_of (brk ["break"; "2"] (atPrompt EmptyString)).

(** After a first [continue], which stopped at the breakpoint. *)
Definition stopped : Device := state_of (cont 20 [] withBreakpoint).

(** At the start of the next [continue]. *)
Definition resumed : Device :=
  set_m_running true (set_m_forceBreak false stopped).

(** One instruction later. *)
Definition resumedOne : Device := state_of (stepWorkItem resumed).

(** The work-item the device points at, if any. *)
Definition pointed (d : Device) : option (WorkItem Code) :=
  default None (pointee d).

(** An interactive run of two groups of one work-item with global
    offset 1, at its first prompt. *)
Definition offsetPrompt : Device :=
  state_of ((startRun kernel4 1 [1] [2] [1] ;; enterDebugger)
              (fresh_interactive EmptyString)).

(** The work-item of [stopped]: its first instruction is done, the two of
    line 2 and the one of line 3 are left. *)
Definition secondInstruction : WorkItem Code :=
  mkWorkItem (V3 0 0 0) (V3 0 0 0) READY (at_line 2) []
    [(at_line 2, Plain); (at_line 2, Plain); (at_line 3, Plain)].

(** The same kernel built from a binary: there is no source text. *)
Definition kernelNoSource : ScriptKernel :=
  mkKernel "k" (mkProgram 2 EmptyString) (code kernel4).

(** An interactive run of one work-item of it, at its first prompt. *)
Definition noSourcePrompt : Device :=
  state_of ((startRun kernelNoSource 1 [0] [1] [1] ;; enterDebugger)
              (fresh_interactive EmptyString)).

(** An interactive run of one work-item at its first prompt, where the
    user types [quit]. *)
Definition quitPrompt : Device := atPrompt "quit
".

(** An interactive run over an empty index space, at its first prompt:
    there is no work-group at all. *)
Definition emptyPrompt : Device :=
  state_of ((startRun kernel4 1 [0] [0] [1] ;; enterDebugger)
              (fresh_interactive EmptyString)).

(** The second of two work-groups is current, the first is gone. *)
Definition secondGroup : Device := state_of (nextWorkItemNow firstDone).

(** A kernel whose first instruction reads outside its buffer. *)
Definition kernelFault : ScriptKernel :=
  mkKernel "k" (mkProgram 1 source3)
    [(at_line 1, Send (MemoryError true AddrSpaceGlobal 16 4));
     (at_line 2, Plain)].

(** An interactive run of one work-item of it, at its first prompt. *)
Definition faultPrompt : Device :=
  state_of ((startRun kernelFault 1 [0] [1] [1] ;; enterDebugger)
              (fresh_interactive EmptyString)).

Definition unsupported : FatalError :=
  mkFatal "WorkItem.cpp" 100 "Unsupported instruction".

(** A kernel whose first instruction the interpreter cannot execute. *)
Definition kernelFatal : ScriptKernel :=
  mkKernel "k" (mkProgram 1 source3)
    [(at_line 1, Fail unsupported); (at_line 2, Plain)].

(** A run of two work-groups of it, not interactive, just started. *)
Definition fatalStart : Device :=
  state_of (startRun kernelFatal 1 [0] [2] [1] fresh).

(** A work-item that waits at a barrier inside a function it called. *)
Definition waiting : WorkItem Code :=
  mkWorkItem (V3 0 0 0) (V3 0 0 0) BARRIER (at_line 2) [at_line 1]
    [(at_line 2, Plain); (at_line 3, Plain)].

Definition barrierInCall : Device :=
  set_m_currentWorkGroup
    (Some (mkWorkGroup (V3 0 0 0) (V3 1 1 1) [waiting] []))
    stopped.

Definition outOfMemory : FatalError :=
  mkFatal "Memory.cpp" 50 "Out of memory".

(** The same interpreter on a device whose memory is exhausted. *)
Definition exhausted : Interpreter := {|
  Priv := Code;
  Memory := Log;
  Kernel := ScriptKernel;
  kernel_getName := name;
  kernel_getProgram := program;
  kernel_allocateConstants := fun _ _ => inl outOfMemory;
  kernel_deallocateConstants := fun _ m => m;
  kernel_getLocalMemory := fun _ => [];
  memory_synchronize := fun m => m;
  workitem_entry := entry;
  workitem_step := exec;
  function_text := fun _ _ => "kernel("
|}.

Definition exhaustedInspectors : @Inspectors exhausted := {|
  backtrace := fun _ => ret tt;
  help := fun _ => ret tt;
  mem := fun _ => ret tt;
  print := fun _ => ret tt
|}.

Definition exhaustedDevice : @Device exhausted :=
  @newDevice exhausted None None None [] EmptyString.

(** The work-item and the work-group of [atPrompt]: nothing has run. *)
Definition firstInstruction : WorkItem Code :=
  mkWorkItem (V3 0 0 0) (V3 0 0 0) READY (at_line 1) [] (code kernel4).

(** The work-item of [firstDone]. *)
Definition doneItem : WorkItem Code :=
  mkWorkItem (V3 0 0 0) (V3 0 0 0) FINISHED (at_line 3) [] [].

(** The work-items and work-groups of [faultPrompt], [fatalStart] and
    [secondGroup]. *)
Definition faultItem : WorkItem Code :=
  mkWorkItem (V3 0 0 0) (V3 0 0 0) READY (at_line 1) [] (code kernelFault).

Definition faultGroup : WorkGroup :=
  mkWorkGroup (V3 0 0 0) (V3 1 1 1) [faultItem] [].

Definition fatalItem : WorkItem Code :=
  mkWorkItem (V3 0 0 0) (V3 0 0 0) READY (at_line 1) [] (code kernelFatal).

Definition fatalGroup : WorkGroup :=
  mkWorkGroup (V3 0 0 0) (V3 1 1 1) [fatalItem] [].

Definition lastGroup : WorkGroup :=
  mkWorkGroup (V3 1 0 0) (V3 1 1 1)
    [mkWorkItem (V3 1 0 0) (V3 0 0 0) READY (at_line 1) [] (code kernel4)] [].

(** An interactive run of one work-item at its first prompt, where the
    user types an empty line and then [quit]. *)
Definition blankPrompt : Device := atPrompt "
quit
".

(** The same, where the input ends in the middle of a line. *)
Definition cutPrompt : Device := atPrompt "continue".

End Script.

(** * Properties *)

(** ** Decoding of linear indices *)

(** C1 (the round trip fails in the code).  For global size (2,2,1) the
    decoding of [notifyDataRace] sends index 2 to (0,1,1), which lies
    outside the index space and from which the row-major index gives 6,
    not 2; and no index at all decodes to the work-item (1,1,0). *)
Theorem delinearize_not_inverse :
  delinearize (V3 2 2 1) 2 = Some (V3 0 1 1) /\
  linearize_rowmajor (V3 2 2 1) (V3 0 1 1) = 6 /\
  ~ in_box (V3 2 2 1) (V3 0 1 1) /\
  forall index, delinearize (V3 2 2 1) index <> Some (V3 1 1 0).
Proof.
  split; [reflexivity|].
  split; [reflexivity|].
  split.
  - unfold in_box; simpl; lia.
  - intros index Hd.
    unfold delinearize, SizeT.rem, SizeT.div, SizeT.sub, SizeT.wrap in Hd.
    simpl in Hd.
    injection Hd as Hx Hy Hz.
    rewrite Hy in Hz.
    rewrite Hx in Hy, Hz.
    rewrite Z.div_1_r in Hz.
    assert (Hm : 0 < SizeT.modulus) by (unfold SizeT.modulus; lia).
    pose proof (Z.mod_pos_bound (index - 1) SizeT.modulus Hm) as Hb.
    set (w := (index - 1) mod SizeT.modulus) in *.
    assert (Hw : 2 <= w <= 3).
    { pose proof (Z.div_mod w 2 ltac:(lia)) as Hdm.
      pose proof (Z.mod_pos_bound w 2 ltac:(lia)). lia. }
    rewrite Z.mod_small in Hz; unfold SizeT.modulus in *; lia.
Qed.

(** ** Lists of groups *)

Section Lists.
Context {A B : Type}.

Lemma lookup_bind_const (f : A -> list B) (m : nat) (l : list A) :
  (forall a, length (f a) = m) ->
  forall q r, (r < m)%nat ->
    (l ≫= f) !! (q * m + r)%nat = l !! q ≫= (fun a => f a !! r).
Proof.
  intros Hlen. induction l as [|a l IH]; intros q r Hr.
  - reflexivity.
  - rewrite bind_cons. destruct q as [|q]; simpl.
    + rewrite lookup_app_l by (rewrite Hlen; lia). reflexivity.
    + rewrite lookup_app_r by (rewrite Hlen; lia).
      rewrite Hlen. replace (m + q * m + r - m)%nat with (q * m + r)%nat by lia.
      apply IH, Hr.
Qed.

Lemma length_bind_const (f : A -> list B) (m : nat) (l : list A) :
  (forall a, length (f a) = m) -> length (l ≫= f) = (length l * m)%nat.
Proof.
  intros Hlen. induction l as [|a l IH]; [reflexivity|].
  rewrite bind_cons, length_app, Hlen, IH. simpl. lia.
Qed.
End Lists.

Lemma lookup_range (n : Z) (i : nat) :
  Z.of_nat i < n -> range n !! i = Some (Z.of_nat i).
Proof. intros Hi. unfold range. rewrite lookup_seqZ_lt by lia. f_equal. Qed.

Section Grid.
Context {B : Type} (f : Z -> Z -> Z -> B).

Lemma length_row (n0 j k : Z) :
  length (i ← range n0; [f i j k]) = Z.to_nat n0.
Proof.
  rewrite (length_bind_const _ 1%nat) by reflexivity.
  unfold range. rewrite length_seqZ. lia.
Qed.

Lemma length_plane (n0 n1 k : Z) :
  length (j ← range n1; i ← range n0; [f i j k])
  = (Z.to_nat n1 * Z.to_nat n0)%nat.
Proof.
  rewrite (length_bind_const _ (Z.to_nat n0)) by (intros; apply length_row).
  unfold range. rewrite length_seqZ. lia.
Qed.

Lemma length_grid n :
  length (grid n f)
  = (Z.to_nat (v2 n) * (Z.to_nat (v1 n) * Z.to_nat (v0 n)))%nat.
Proof.
  unfold grid.
  rewrite (length_bind_const _ (Z.to_nat (v1 n) * Z.to_nat (v0 n))%nat)
    by (intros; apply length_plane).
  unfold range. rewrite length_seqZ. lia.
Qed.

Lemma lookup_grid n i j k :
  0 <= i < v0 n -> 0 <= j < v1 n -> 0 <= k < v2 n ->
  grid n f !! Z.to_nat (i + v0 n * (j + v1 n * k)) = Some (f i j k).
Proof.
  intros Hi Hj Hk.
  replace (Z.to_nat (i + v0 n * (j + v1 n * k)))
    with (Z.to_nat k * (Z.to_nat (v1 n) * Z.to_nat (v0 n))
          + (Z.to_nat j * Z.to_nat (v0 n) + (Z.to_nat i * 1 + 0)))%nat by nia.
  unfold grid.
  rewrite (lookup_bind_const _ (Z.to_nat (v1 n) * Z.to_nat (v0 n))%nat)
    by (try (intros; apply length_plane); nia).
  rewrite (lookup_range (v2 n)) by lia. simpl.
  rewrite (lookup_bind_const _ (Z.to_nat (v0 n)))
    by (try (intros; apply length_row); nia).
  rewrite (lookup_range (v1 n)) by lia. simpl.
  rewrite (lookup_bind_const _ 1%nat) by (try reflexivity; lia).
  rewrite (lookup_range (v0 n)) by lia. simpl.
  do 3 f_equal; lia.
Qed.
End Grid.

Lemma lookup_allGroups n i j k :
  0 <= i < v0 n -> 0 <= j < v1 n -> 0 <= k < v2 n ->
  allGroups n !! Z.to_nat (i + v0 n * (j + v1 n * k)) = Some (V3 i j k).
Proof. apply lookup_grid. Qed.

Lemma elem_of_allGroups n g :
  g ∈ allGroups n <-> in_box n g.
Proof.
  unfold allGroups, grid, in_box, range.
  rewrite list_elem_of_bind. split.
  - intros (k & Hg & Hk%elem_of_seqZ).
    apply list_elem_of_bind in Hg as (j & Hg & Hj%elem_of_seqZ).
    apply list_elem_of_bind in Hg as (i & Hg & Hi%elem_of_seqZ).
    apply list_elem_of_singleton in Hg as ->. simpl. lia.
  - intros (Hi & Hj & Hk). exists (v2 g). split; [|apply elem_of_seqZ; lia].
    apply list_elem_of_bind. exists (v1 g). split; [|apply elem_of_seqZ; lia].
    apply list_elem_of_bind. exists (v0 g). split; [|apply elem_of_seqZ; lia].
    destruct g. simpl. apply list_elem_of_singleton. reflexivity.
Qed.

Lemma NoDup_allGroups n : NoDup (allGroups n).
Proof.
  unfold allGroups, grid, range.
  apply NoDup_bind; [| |apply NoDup_seqZ].
  - intros k1 k2 g _ _ H1 H2.
    apply list_elem_of_bind in H1 as (j1 & H1 & _).
    apply list_elem_of_bind in H1 as (i1 & H1 & _).
    apply list_elem_of_bind in H2 as (j2 & H2 & _).
    apply list_elem_of_bind in H2 as (i2 & H2 & _).
    apply list_elem_of_singleton in H1, H2. congruence.
  - intros k _. apply NoDup_bind; [| |apply NoDup_seqZ].
    + intros j1 j2 g _ _ H1 H2.
      apply list_elem_of_bind in H1 as (i1 & H1 & _).
      apply list_elem_of_bind in H2 as (i2 & H2 & _).
      apply list_elem_of_singleton in H1, H2. congruence.
    + intros j _. apply NoDup_bind; [| |apply NoDup_seqZ].
      * intros i1 i2 g _ _ H1 H2.
        apply list_elem_of_singleton in H1, H2. congruence.
      * intros i _. apply NoDup_singleton.
Qed.

(** ** Start of a run *)

Section Start.

Context `{Interpreter}.

Lemma computeNumGroups_ok (d : Device) :
  positive3 (m_localSize d) ->
  computeNumGroups d =
    Ok tt (set_m_numGroups
             (V3 (v0 (m_globalSize d) / v0 (m_localSize d))
                 (v1 (m_globalSize d) / v1 (m_localSize d))
                 (v2 (m_globalSize d) / v2 (m_localSize d))) d).
Proof.
  intros (H0 & H1 & H2).
  unfold computeNumGroups, bind, gets, SizeT.div.
  destruct (Z.eqb_spec (v0 (m_localSize d)) 0); [lia|].
  destruct (Z.eqb_spec (v1 (m_localSize d)) 0); [lia|].
  destruct (Z.eqb_spec (v2 (m_localSize d)) 0); [lia|].
  reflexivity.
Qed.

Lemma forEach_cons_ok {S A} (a : A) l (body : A -> M S unit) s s' :
  body a s = Ok tt s' -> forEach (a :: l) body s = forEach l body s'.
Proof. intros Hb. simpl. unfold bind. rewrite Hb. reflexivity. Qed.

Lemma setSizes_step globalOffset globalSize localSize i d g o l :
  (i < 3)%nat ->
  globalSize !! i = Some g -> globalOffset !! i = Some o ->
  localSize !! i = Some l ->
  exists d',
    setSizes globalOffset globalSize localSize i d = Ok tt d' /\
    (forall j, v3_get (m_globalSize d') j =
       if decide (j = i) then Some g else v3_get (m_globalSize d) j) /\
    (forall j, v3_get (m_localSize d') j =
       if decide (j = i /\ l <> 0) then Some l else v3_get (m_localSize d) j).
Proof.
  intros Hi Hg Ho Hl.
  unfold setSizes, bind, gets, modify, deref, ret.
  rewrite Hg, Ho, Hl.
  destruct i as [|[|[|i]]]; [| | |lia]; simpl;
    destruct (decide (o <> 0)); destruct (decide (l <> 0)); simpl;
    (eexists; split; [reflexivity|]; split; intros [|[|[|j]]]; simpl;
     repeat case_decide; try reflexivity; try lia; intuition congruence).
Qed.

Lemma setSizes_loop globalOffset globalSize localSize n : forall a d,
  (a + n <= 3)%nat ->
  (a + n <= length globalOffset)%nat ->
  (a + n <= length globalSize)%nat ->
  (a + n <= length localSize)%nat ->
  exists d',
    forEach (seq a n) (setSizes globalOffset globalSize localSize) d = Ok tt d' /\
    (forall j, v3_get (m_globalSize d') j =
       if decide (a <= j < a + n)%nat then globalSize !! j
       else v3_get (m_globalSize d) j) /\
    (forall j, v3_get (m_localSize d') j =
       if decide (a <= j < a + n)%nat then
         match localSize !! j with
         | Some l => if decide (l = 0) then v3_get (m_localSize d) j else Some l
         | None => None
         end
       else v3_get (m_localSize d) j).
Proof.
  induction n as [|n IH]; intros a d H3 Ho Hg Hl.
  - exists d. split; [reflexivity|].
    split; intros j; case_decide; try reflexivity; lia.
  - destruct (lookup_lt_is_Some_2 globalSize a) as [g Hga]; [lia|].
    destruct (lookup_lt_is_Some_2 globalOffset a) as [o Hoa]; [lia|].
    destruct (lookup_lt_is_Some_2 localSize a) as [l Hla]; [lia|].
    destruct (setSizes_step globalOffset globalSize localSize a d g o l)
      as (d1 & Hstep & Hgs1 & Hls1); [lia|done..|].
    destruct (IH (S a) d1) as (d' & Hrest & Hgs' & Hls'); [lia..|].
    exists d'. split.
    { simpl seq. rewrite (forEach_cons_ok _ _ _ _ _ Hstep). exact Hrest. }
    split; intros j.
    + rewrite Hgs', Hgs1.
      destruct (decide (j = a)) as [->|Hne].
      * rewrite (decide_False (P := (S a <= a < S a + n)%nat)) by lia.
        rewrite (decide_True (P := (a <= a < a + S n)%nat)) by lia. done.
      * destruct (decide (S a <= j < S a + n)%nat);
          [rewrite (decide_True (P := (a <= j < a + S n)%nat)) by lia
          |rewrite (decide_False (P := (a <= j < a + S n)%nat)) by lia]; done.
    + rewrite Hls'.
      destruct (decide (j = a)) as [->|Hne].
      * rewrite (decide_False (P := (S a <= a < S a + n)%nat)) by lia.
        rewrite (decide_True (P := (a <= a < a + S n)%nat)) by lia.
        rewrite Hls1, Hla.
        destruct (decide (l = 0));
          [rewrite decide_False by tauto | rewrite decide_True by tauto]; done.
      * destruct (decide (S a <= j < S a + n)%nat).
        -- rewrite (decide_True (P := (a <= j < a + S n)%nat)) by lia.
           destruct (localSize !! j) as [z|]; [|done].
           destruct (decide (z = 0)); [|done].
           rewrite Hls1. rewrite decide_False by tauto. done.
        -- rewrite (decide_False (P := (a <= j < a + S n)%nat)) by lia.
           rewrite Hls1. rewrite decide_False by tauto. done.
Qed.

(** C9 (amended).  For a work dimension of at most three and size arrays
    that long, the setup phase of [run] returns; every component of the
    stored local size is at least one (a zero passed within [workDim] is
    left at one, the components outside [workDim] stay one); the stored
    global size is the passed one within [workDim] and one outside; and
    the three divisions of the group count are defined. *)
Theorem setup_sizes (d : Device) (workDim : Z) (globalOffset globalSize localSize : list Z) :
  0 <= workDim <= 3 ->
  (Z.to_nat workDim <= length globalOffset)%nat ->
  (Z.to_nat workDim <= length globalSize)%nat ->
  (Z.to_nat workDim <= length localSize)%nat ->
  Forall (fun z => 0 <= z) localSize ->
  exists d',
    setup workDim globalOffset globalSize localSize d = Ok tt d' /\
    positive3 (m_localSize d') /\
    (forall i, (i < Z.to_nat workDim)%nat ->
       v3_get (m_globalSize d') i = globalSize !! i) /\
    (forall i, (Z.to_nat workDim <= i < 3)%nat ->
       v3_get (m_globalSize d') i = Some 1 /\ v3_get (m_localSize d') i = Some 1) /\
    (forall i l, (i < Z.to_nat workDim)%nat -> localSize !! i = Some l ->
       v3_get (m_localSize d') i = Some (if decide (l = 0) then 1 else l)) /\
    exists d'', computeNumGroups d' = Ok tt d''.
Proof.
  intros Hwd Hgo Hgs Hls Hpos.
  set (d0 := set_m_localSize (V3 1 1 1) (set_m_globalOffset (V3 0 0 0)
               (set_m_globalSize (V3 1 1 1) (set_m_workDim workDim d)))).
  destruct (setSizes_loop globalOffset globalSize localSize (Z.to_nat workDim) 0%nat d0)
    as (d' & Hloop & Hg & Hl); [lia..|].
  assert (Hlocal : forall i, (i < 3)%nat -> exists l, v3_get (m_localSize d') i = Some l /\ 1 <= l).
  { intros i Hi. rewrite Hl. case_decide as Hin.
    - destruct (lookup_lt_is_Some_2 localSize i) as [l Hli]; [lia|].
      rewrite Hli. rewrite Forall_lookup in Hpos. specialize (Hpos i l Hli).
      case_decide; [|exists l; split; [done|lia]].
      exists 1. split; [|lia]. destruct i as [|[|[|i]]]; [done..|lia].
    - exists 1. split; [|lia]. destruct i as [|[|[|i]]]; [done..|lia]. }
  assert (Hp : positive3 (m_localSize d')).
  { destruct (Hlocal 0%nat) as (l0 & Hl0 & ?); [lia|].
    destruct (Hlocal 1%nat) as (l1 & Hl1 & ?); [lia|].
    destruct (Hlocal 2%nat) as (l2 & Hl2 & ?); [lia|].
    simpl in *. unfold positive3. simplify_eq. lia. }
  exists d'. split.
  { unfold setup, bind, modify. exact Hloop. }
  split; [exact Hp|].
  split.
  { intros i Hi. rewrite Hg. rewrite decide_True by lia. done. }
  split.
  { intros i Hi. rewrite Hg, Hl. rewrite !decide_False by lia.
    destruct i as [|[|[|i]]]; [done..|lia]. }
  split.
  { intros i l Hi Hli. rewrite Hl. rewrite decide_True by lia. rewrite Hli.
    case_decide; [|done]. destruct i as [|[|[|i]]]; [done..|lia]. }
  eexists. apply computeNumGroups_ok, Hp.
Qed.

Lemma enqueued_nil d : enqueued [] d = d.
Proof. unfold enqueued. rewrite app_nil_r. destruct d; reflexivity. Qed.

Lemma enqueued_app gs1 gs2 d :
  enqueued gs2 (enqueued gs1 d) = enqueued (gs1 ++ gs2) d.
Proof. unfold enqueued. simpl. rewrite app_assoc. reflexivity. Qed.

Lemma forEach_enqueue {A} (l : list A) (F : A -> list size3)
    (body : A -> M Device unit) :
  (forall a d, body a d = Ok tt (enqueued (F a) d)) ->
  forall d, forEach l body d = Ok tt (enqueued (l ≫= F) d).
Proof.
  intros Hbody. induction l as [|a l IH]; intros d.
  - simpl. rewrite enqueued_nil. reflexivity.
  - simpl forEach. unfold bind at 1. rewrite Hbody, IH, enqueued_app. reflexivity.
Qed.

Lemma enumerate_ok (n : size3) (d : Device) :
  forEach (range (v2 n)) (fun k =>
    forEach (range (v1 n)) (fun j =>
      forEach (range (v0 n)) (fun i => push_pending (V3 i j k)))) d
  = Ok tt (enqueued (allGroups n) d).
Proof.
  unfold allGroups, grid.
  apply forEach_enqueue. intros k d1.
  apply forEach_enqueue. intros j d2.
  apply forEach_enqueue. intros i d3. reflexivity.
Qed.

(** C3.  With a positive local size the enumeration at the start of a
    run returns and appends to the pending pool: in quick mode exactly the
    two corners, (0,0,0) first and the last group second, also when they
    coincide; otherwise every group of the grid exactly once, the group
    (i,j,k) at position i + n0*(j + n1*k), that is x innermost and z
    outermost, which for global size (4,2,1) and local size (2,1,1) is
    (0,0,0), (1,0,0), (0,1,0), (1,1,0). *)
Theorem createPendingGroups_order (d : Device) :
  positive3 (m_localSize d) ->
  let n := V3 (v0 (m_globalSize d) / v0 (m_localSize d))
              (v1 (m_globalSize d) / v1 (m_localSize d))
              (v2 (m_globalSize d) / v2 (m_localSize d)) in
  exists d' new,
    createPendingGroups d = Ok tt d' /\
    m_numGroups d' = n /\
    m_pendingGroups d' = m_pendingGroups d ++ new /\
    (m_quickMode d = true ->
       new = [V3 0 0 0;
              V3 (SizeT.sub (v0 n) 1) (SizeT.sub (v1 n) 1) (SizeT.sub (v2 n) 1)] /\
       (n = V3 1 1 1 -> new = [V3 0 0 0; V3 0 0 0])) /\
    (m_quickMode d = false ->
       NoDup new /\
       (forall g, g ∈ new <-> in_box n g) /\
       (forall i j k,
          0 <= i < v0 n -> 0 <= j < v1 n -> 0 <= k < v2 n ->
          new !! Z.to_nat (i + v0 n * (j + v1 n * k)) = Some (V3 i j k)) /\
       (m_globalSize d = V3 4 2 1 -> m_localSize d = V3 2 1 1 ->
          new = [V3 0 0 0; V3 1 0 0; V3 0 1 0; V3 1 1 0])).
Proof.
  intros Hls n.
  unfold createPendingGroups, bind at 1.
  rewrite (computeNumGroups_ok d Hls). fold n.
  unfold bind, gets. simpl.
  destruct (m_quickMode d) eqn:Hq.
  - eexists _, [V3 0 0 0; _]. split; [reflexivity|]. simpl.
    split; [reflexivity|].
    split; [rewrite <- app_assoc; reflexivity|].
    split; [|discriminate].
    intros _. split; [reflexivity|]. intros Hn.
    unfold n in Hn. injection Hn as -> -> ->. reflexivity.
  - pose proof (enumerate_ok n (set_m_numGroups n d)) as He.
    simpl in He. rewrite He. clear He.
    exists (enqueued (allGroups n) (set_m_numGroups n d)), (allGroups n).
    split; [reflexivity|]. split; [reflexivity|]. split; [reflexivity|].
    split; [discriminate|]. intros _.
    split; [apply NoDup_allGroups|].
    split; [apply elem_of_allGroups|].
    split; [exact (lookup_allGroups n)|].
    intros Hg Hl. subst n. rewrite Hg, Hl. reflexivity.
Qed.

End Start.

(** ** Error router *)

Section Router.

Context `{Interpreter}.

Lemma currentWorkItem_pointee d :
  currentWorkItem d =
    match pointee d with
    | Some p => Ok p d
    | None => Undefined
    end.
Proof.
  unfold currentWorkItem, pointee, bind, gets, deref, ret, undefined.
  destruct (m_currentWorkItem d) as [i|]; [|reflexivity].
  destruct (m_currentWorkGroup d) as [g|]; [|reflexivity]. simpl.
  destruct (wg_items g !! i); reflexivity.
Qed.

Lemma printErrorContext_ok d wi :
  pointee d = Some wi ->
  printErrorContext d =
    Ok tt (set_cerr (write (errorContext wi (m_currentWorkGroup d) (m_kernel d))
                       (cerr d)) d).
Proof.
  intros Hp. unfold printErrorContext, bind at 1.
  rewrite currentWorkItem_pointee, Hp. reflexivity.
Qed.

Lemma write_app a b o : write (a ++ b) o = write b (write a o).
Proof. apply fold_left_app. Qed.

Lemma write_render items : forall o,
  write items o =
    mkStream (s_out o ++ render items (s_base o)) (final_base items (s_base o)).
Proof.
  induction items as [|i items IH]; intros [out b].
  - simpl. rewrite app_nil_r. reflexivity.
  - change (write (i :: items) (mkStream out b))
      with (write items (write1 (mkStream out b) i)).
    rewrite IH. destruct i; simpl; rewrite <- ?app_assoc; reflexivity.
Qed.

Lemma render_app a : forall b base,
  render (a ++ b) base = render a base ++ render b (final_base a base).
Proof.
  induction a as [|i a IH]; intros b base; [reflexivity|].
  destruct i; simpl; rewrite IH; reflexivity.
Qed.

Lemma line_start_app a : forall b start,
  line_start (a ++ b) start = line_start b (line_start a start).
Proof.
  induction a as [|i a IH]; intros b start; [reflexivity|].
  destruct i; simpl; apply IH.
Qed.

Lemma line_start_render items : forall base start,
  line_start items start =
    match last (render items base) with
    | Some TEndl => true
    | Some _ => false
    | None => start
    end.
Proof.
  induction items as [|i items IH]; intros base start; [reflexivity|].
  destruct i; simpl; try apply IH;
    rewrite last_cons, (IH base);
    destruct (last (render items base)) as [[]|]; reflexivity.
Qed.

(** Operands that leave the stream at the start of a line, followed by
    [endl], end in an empty line. *)
Lemma blank_line_render items base :
  line_start items false = true ->
  exists toks, render (items ++ [Iendl]) base = toks ++ [TEndl; TEndl].
Proof.
  intros Hs. rewrite (line_start_render items base) in Hs.
  destruct (last (render items base)) as [t|] eqn:Hlast; [|discriminate].
  destruct t; try discriminate.
  apply last_Some in Hlast as [toks Ht].
  exists toks. rewrite render_app, Ht. simpl. rewrite <- app_assoc. reflexivity.
Qed.

Lemma line_start_printInstruction i start :
  line_start (printInstruction i) start = true.
Proof. unfold printInstruction. destruct (inst_dbg i) as [[? ?]|]; reflexivity. Qed.

Lemma line_start_errorContext wi g k :
  line_start (errorContext wi g k) true = true.
Proof.
  unfold errorContext. rewrite !line_start_app.
  destruct wi as [w|], g, k; simpl;
    try (unfold printInstruction; destruct (inst_dbg (wi_inst w)) as [[? ?]|]);
    reflexivity.
Qed.

Lemma line_start_otherEntity d lastWorkItem lastWorkGroup entity start :
  otherEntity d lastWorkItem lastWorkGroup = Some entity ->
  line_start entity start = true.
Proof.
  unfold otherEntity. repeat case_decide.
  - destruct (delinearize _ _); intros [= <-]; reflexivity.
  - destruct (delinearize _ _); intros [= <-]; reflexivity.
  - intros [= <-]; reflexivity.
Qed.

Lemma bind_ok {S A B} (c : M S A) (k : A -> M S B) s a s' :
  c s = Ok a s' -> bind c k s = k a s'.
Proof. intros Hc. unfold bind. rewrite Hc. reflexivity. Qed.

Lemma to_cerr_ok items d : to_cerr items d = Ok tt (emit items d).
Proof. reflexivity. Qed.

Lemma emit_emit a b d : emit b (emit a d) = emit (a ++ b) d.
Proof. unfold emit. simpl. rewrite write_app. reflexivity. Qed.

Lemma printErrorContext_emit d wi :
  pointee d = Some wi ->
  printErrorContext d =
    Ok tt (emit (errorContext wi (m_currentWorkGroup d) (m_kernel d)) d).
Proof. apply printErrorContext_ok. Qed.

Lemma when_emit (b : bool) items d :
  when b (to_cerr items) d = Ok tt (emit (if b then items else []) d).
Proof.
  destruct b; [reflexivity|]. unfold emit. simpl.
  destruct d; reflexivity.
Qed.

Lemma reportOtherEntity_emit d lastWorkItem lastWorkGroup entity :
  otherEntity d lastWorkItem lastWorkGroup = Some entity ->
  reportOtherEntity lastWorkItem lastWorkGroup d = Ok tt (emit entity d).
Proof.
  unfold otherEntity, reportOtherEntity, bind, gets, deref.
  repeat case_decide.
  - destruct (delinearize _ _); intros [= <-]; reflexivity.
  - destruct (delinearize _ _); intros [= <-]; reflexivity.
  - intros [= <-]; reflexivity.
Qed.

Lemma line_start_heading n start : line_start (heading n) start = true.
Proof. destruct n; reflexivity. Qed.

Lemma line_start_detail d n after :
  detail d n = Some after -> line_start after true = true.
Proof.
  destruct n as
    [ read addrSpace address size
    | type addrSpace address lastWorkItem lastWorkGroup lastInstruction
    | instruction divergence currentInfo previousInfo
    | error message ]; unfold detail.
  - intros [= <-]. reflexivity.
  - destruct (otherEntity d lastWorkItem lastWorkGroup) as [entity|] eqn:He;
      [|discriminate].
    intros [= <-]. cbn [app line_start]. rewrite line_start_app.
    rewrite (line_start_otherEntity _ _ _ _ _ He).
    destruct lastInstruction; [apply line_start_printInstruction|reflexivity].
  - intros [= <-].
    destruct (is_empty currentInfo), (is_empty previousInfo);
      unfold printInstruction;
      destruct (inst_dbg instruction) as [[? ?]|]; reflexivity.
  - intros [= <-]. destruct (is_empty message); reflexivity.
Qed.

Ltac router_step Hp :=
  first
    [ rewrite (bind_ok _ _ _ _ _ (to_cerr_ok _ _))
    | rewrite (bind_ok _ _ _ _ _ (when_emit _ _ _))
    | erewrite bind_ok by (apply printErrorContext_emit; exact Hp) ].

Ltac router_done :=
  unfold modify, reported; rewrite ?emit_emit;
  repeat first [rewrite <- app_assoc | progress cbn [app]]; reflexivity.

(** C5 (amended).  Each of the four notifications returns, and writes to
    [cerr] first its heading (the kind of notification, with the address
    for a memory error or a data race), then the error context of the
    current work-item, then the rest of its detail (none for a memory
    error) and a closing [endl]; what it writes ends in an empty line, and
    [m_forceBreak] is set afterwards. *)
Theorem notification_block (d : Device) (wi : option (WorkItem Priv))
    (n : Notification) (after : list Item) :
  pointee d = Some wi ->
  detail d n = Some after ->
  let context := errorContext wi (m_currentWorkGroup d) (m_kernel d) in
  let d' := reported (heading n ++ context ++ after ++ [Iendl]) d in
  notify n d = Ok tt d' /\
  m_forceBreak d' = true /\
  exists toks, s_out (cerr d') = s_out (cerr d) ++ toks ++ [TEndl; TEndl].
Proof.
  intros Hp Hafter context d'.
  split; [|split; [reflexivity|]].
  - subst d' context.
    destruct n as
      [ read addrSpace address size
      | type addrSpace address lastWorkItem lastWorkGroup lastInstruction
      | instruction divergence currentInfo previousInfo
      | error message ]; simpl in Hafter; simpl notify; simpl heading.
    + injection Hafter as <-.
      unfold notifyMemoryError. do 3 router_step Hp. router_done.
    + destruct (otherEntity d lastWorkItem lastWorkGroup) as [entity|] eqn:He;
        [|discriminate].
      injection Hafter as <-.
      unfold notifyDataRace. do 3 router_step Hp.
      erewrite bind_ok by (apply reportOtherEntity_emit; exact He).
      destruct lastInstruction; [router_step Hp|rewrite (bind_ok _ _ _ _ _ eq_refl)];
        router_step Hp; router_done.
    + injection Hafter as <-.
      unfold notifyDivergence. do 6 router_step Hp. do 2 router_step Hp.
      unfold negb. destruct (is_empty currentInfo), (is_empty previousInfo);
        router_done.
    + injection Hafter as <-.
      unfold notifyError. do 4 router_step Hp.
      unfold negb. destruct (is_empty message); router_done.
  - subst d'. unfold reported, emit. simpl.
    rewrite write_render. simpl.
    destruct (blank_line_render (heading n ++ context ++ after) (s_base (cerr d)))
      as [toks Ht].
    + rewrite !line_start_app, line_start_heading.
      subst context. rewrite line_start_errorContext.
      exact (line_start_detail _ _ _ Hafter).
    + exists toks. rewrite <- Ht. rewrite <- !app_assoc. reflexivity.
Qed.

End Router.

(** ** Scheduler *)

Section Scheduler.

Context `{Interpreter}.

Lemma getNextWorkItem_ready g i :
  getNextWorkItem g = Some i ->
  exists wi, wg_items g !! i = Some wi /\ wi_state wi = READY.
Proof.
  unfold getNextWorkItem. intros Hf.
  destruct (list_find _ _) as [[j wi]|] eqn:Hfind; [|discriminate].
  injection Hf as <-. apply list_find_Some in Hfind as (Hl & Hr & _).
  exists wi. split; assumption.
Qed.

Lemma clearBarrier_ready g :
  hasBarrier g = true -> is_Some (getNextWorkItem (clearBarrier g)).
Proof.
  unfold hasBarrier, getNextWorkItem, clearBarrier. simpl.
  intros Hb. apply existsb_exists in Hb as (wi & Hin & Hs).
  apply bool_decide_eq_true in Hs.
  apply fmap_is_Some.
  apply (list_find_elem_of _ _ (resume wi)).
  - apply list_elem_of_fmap. exists wi. split; [reflexivity|].
    apply list_elem_of_In, Hin.
  - unfold resume. rewrite Hs. reflexivity.
Qed.

Lemma nextWorkItem_ready f d g i :
  m_currentWorkGroup d = Some g -> getNextWorkItem g = Some i ->
  nextWorkItem (S f) d = Ok true (set_m_currentWorkItem (Some i) d).
Proof.
  intros Hg Hn. simpl. unfold bind, modify, gets, resumeCurrentGroup, bind, gets, modify. simpl.
  rewrite Hg. simpl. rewrite Hn. reflexivity.
Qed.

Lemma nextWorkItem_barrier f d g :
  m_currentWorkGroup d = Some g -> getNextWorkItem g = None ->
  hasBarrier g = true ->
  nextWorkItem (S f) d =
    Ok true (set_m_currentWorkItem (getNextWorkItem (clearBarrier g))
               (set_m_currentWorkGroup (Some (clearBarrier g)) d)).
Proof.
  intros Hg Hn Hb. simpl. unfold bind, modify, gets, resumeCurrentGroup, bind, gets, modify. simpl.
  rewrite Hg. simpl. rewrite Hn, Hb. reflexivity.
Qed.

Lemma nextWorkItem_finished f d g :
  m_currentWorkGroup d = Some g -> getNextWorkItem g = None ->
  hasBarrier g = false ->
  nextWorkItem (S f) d = nextWorkItem (S f) (set_m_currentWorkGroup None d).
Proof.
  intros Hg Hn Hb. simpl. unfold bind, modify, gets, resumeCurrentGroup, bind, gets, modify. simpl.
  rewrite Hg. simpl. rewrite Hn, Hb. reflexivity.
Qed.

Lemma nextWorkItem_running f d g rest :
  m_currentWorkGroup d = None -> m_runningGroups d = g :: rest ->
  nextWorkItem (S f) d =
    let d1 := set_m_runningGroups rest (set_m_currentWorkGroup (Some g) d) in
    match getNextWorkItem g with
    | Some i => Ok true (set_m_currentWorkItem (Some i) d1)
    | None => nextWorkItem f (set_m_currentWorkItem None d1)
    end.
Proof.
  intros Hg Hr. simpl. unfold bind, modify, gets, resumeCurrentGroup, takeNextGroup, bind, gets, modify. simpl.
  rewrite Hg. simpl. rewrite Hr. simpl.
  destruct (getNextWorkItem g); reflexivity.
Qed.

Lemma nextWorkItem_pending f d p rest k :
  m_currentWorkGroup d = None -> m_runningGroups d = [] ->
  m_pendingGroups d = p :: rest -> m_kernel d = Some k ->
  nextWorkItem (S f) d =
    let g := newWorkGroup k p (m_globalOffset d) (m_localSize d) in
    let d1 := set_m_currentWorkGroup (Some g) (set_m_pendingGroups rest d) in
    match getNextWorkItem g with
    | Some i => Ok true (set_m_currentWorkItem (Some i) d1)
    | None => nextWorkItem f (set_m_currentWorkItem None d1)
    end.
Proof.
  intros Hg Hr Hp Hk. simpl. unfold bind, modify, gets, resumeCurrentGroup, takeNextGroup, createWorkGroup, bind, gets, modify, deref. simpl.
  rewrite Hg. simpl. rewrite Hr. simpl. rewrite Hp. simpl. rewrite Hk. simpl.
  destruct p as [x y z]. simpl.
  destruct (getNextWorkItem _); reflexivity.
Qed.

Lemma nextWorkItem_empty f d :
  m_currentWorkGroup d = None -> m_runningGroups d = [] ->
  m_pendingGroups d = [] ->
  nextWorkItem (S f) d = Ok false (set_m_currentWorkItem None d).
Proof.
  intros Hg Hr Hp. simpl. unfold bind, modify, gets, resumeCurrentGroup, takeNextGroup, bind, gets, modify. simpl.
  rewrite Hg. simpl. rewrite Hr. simpl. rewrite Hp. reflexivity.
Qed.


Lemma nextWorkItem_total : forall fuel d,
  (nextWorkItem_fuel d <= fuel)%nat ->
  m_pendingGroups d = [] \/ is_Some (m_kernel d) ->
  exists b d',
    nextWorkItem fuel d = Ok b d' /\
    if b : bool then ready_current d'
    else nothing_left d' /\ m_currentWorkItem d' = None.
Proof.
  induction fuel as [|f IH]; intros d Hfuel Hk;
    [unfold nextWorkItem_fuel in Hfuel; lia|].
  assert (Hnone : forall d0,
    (nextWorkItem_fuel d0 <= S f)%nat ->
    m_pendingGroups d0 = [] \/ is_Some (m_kernel d0) ->
    m_currentWorkGroup d0 = None ->
    exists b d',
      nextWorkItem (S f) d0 = Ok b d' /\
      if b : bool then ready_current d'
      else nothing_left d' /\ m_currentWorkItem d' = None).
  { intros d0 Hfuel0 Hk0 Hg0. unfold nextWorkItem_fuel in Hfuel0.
    destruct (m_runningGroups d0) as [|g rest] eqn:Hr.
    - destruct (m_pendingGroups d0) as [|p rest] eqn:Hp.
      + exists false, (set_m_currentWorkItem None d0).
        split; [apply nextWorkItem_empty; assumption|].
        repeat split; assumption.
      + destruct Hk0 as [|[k Hker]]; [discriminate|].
        rewrite (nextWorkItem_pending f d0 p rest k) by assumption.
        cbv zeta.
        destruct (getNextWorkItem _) as [i|] eqn:Hn.
        * exists true. eexists. split; [reflexivity|].
          destruct (getNextWorkItem_ready _ _ Hn) as (wi & Hwi & Hs).
          eexists _, i, wi. repeat split; try reflexivity; assumption.
        * apply IH.
          -- unfold nextWorkItem_fuel. simpl. rewrite Hr. simpl in Hfuel0. simpl. lia.
          -- right. simpl. rewrite Hker. eexists; reflexivity.
    - rewrite (nextWorkItem_running f d0 g rest) by assumption.
      cbv zeta.
      destruct (getNextWorkItem g) as [i|] eqn:Hn.
      * exists true. eexists. split; [reflexivity|].
        destruct (getNextWorkItem_ready _ _ Hn) as (wi & Hwi & Hs).
        eexists _, i, wi. repeat split; try reflexivity; assumption.
      * apply IH.
        -- unfold nextWorkItem_fuel. simpl. simpl in Hfuel0. lia.
        -- exact Hk0. }
  destruct (m_currentWorkGroup d) as [g|] eqn:Hg; [|apply Hnone; assumption].
  destruct (getNextWorkItem g) as [i|] eqn:Hn.
  - exists true. eexists. split; [apply (nextWorkItem_ready f d g i); assumption|].
    destruct (getNextWorkItem_ready _ _ Hn) as (wi & Hwi & Hs).
    exists g, i, wi. repeat split; try reflexivity; assumption.
  - destruct (hasBarrier g) eqn:Hb.
    + exists true. eexists.
      split; [apply (nextWorkItem_barrier f d g); assumption|].
      destruct (clearBarrier_ready g Hb) as [i Hi].
      destruct (getNextWorkItem_ready _ _ Hi) as (wi & Hwi & Hs).
      exists (clearBarrier g), i, wi. repeat split; try reflexivity; assumption.
    + rewrite (nextWorkItem_finished f d g) by assumption.
      apply Hnone; [exact Hfuel|exact Hk|reflexivity].
Qed.

(** Dropping a finished current work-group does not change whether the
    device has work left. *)
Lemma all_finished_drop d g :
  m_currentWorkGroup d = Some g -> finished_group g ->
  all_finished d <-> all_finished (set_m_currentWorkGroup None d).
Proof.
  intros Hg Hfin. unfold all_finished. simpl. split.
  - intros (_ & Hr & Hp). split; [intros g0 Hg0; discriminate|]. split; assumption.
  - intros (_ & Hr & Hp). split; [|split; assumption].
    intros g0 Hg0. rewrite Hg in Hg0. injection Hg0 as <-. exact Hfin.
Qed.

(** Whatever the fuel, a result of [nextWorkItem] is false exactly when
    no work-group of the state it was called in has a work-item to run. *)
Lemma nextWorkItem_false : forall fuel d b d',
  nextWorkItem fuel d = Ok b d' -> (b = false <-> all_finished d).
Proof.
  induction fuel as [|f IH]; intros d b d' Hrun; [discriminate Hrun|].
  assert (Hnone : forall d0 b0 d0',
    m_currentWorkGroup d0 = None ->
    nextWorkItem (S f) d0 = Ok b0 d0' -> (b0 = false <-> all_finished d0)).
  { intros d0 b0 d0' Hg0 Hrun0. unfold all_finished. rewrite Hg0.
    destruct (m_runningGroups d0) as [|g rest] eqn:Hr.
    - destruct (m_pendingGroups d0) as [|p rest] eqn:Hp.
      + rewrite (nextWorkItem_empty f d0) in Hrun0 by assumption.
        injection Hrun0 as <- _. split; [|reflexivity].
        intros _. split; [intros g Hg; discriminate|].
        split; [constructor|]. intros k _. constructor.
      + destruct (m_kernel d0) as [k|] eqn:Hker.
        * rewrite (nextWorkItem_pending f d0 p rest k) in Hrun0 by assumption.
          cbv zeta in Hrun0.
          destruct (getNextWorkItem _) as [i|] eqn:Hn.
          -- injection Hrun0 as <- _. split; [discriminate|].
             intros (_ & _ & Hall). specialize (Hall k eq_refl).
             inversion Hall as [|? ? (Hnn & _) _]; subst. congruence.
          -- apply IH in Hrun0. rewrite Hrun0. unfold all_finished. simpl.
             rewrite Hr, Hker. split.
             ++ intros (Hcur & _ & Hrest). split; [intros g Hg; discriminate|].
                split; [constructor|]. intros k0 Hk0. injection Hk0 as <-.
                constructor; [apply Hcur; reflexivity|apply Hrest; reflexivity].
             ++ intros (_ & _ & Hall). specialize (Hall k eq_refl).
                inversion Hall as [|? ? Hfin Hrest]; subst.
                split; [intros g Hg; injection Hg as <-; exact Hfin|].
                split; [constructor|]. intros k0 Hk0. injection Hk0 as <-.
                exact Hrest.
        * exfalso. revert Hrun0. simpl.
          unfold bind, modify, gets, resumeCurrentGroup, takeNextGroup,
            createWorkGroup, bind, gets, modify, deref. simpl.
          rewrite Hg0. simpl. rewrite Hr. simpl. rewrite Hp. simpl.
          rewrite Hker. destruct p; simpl. discriminate.
    - rewrite (nextWorkItem_running f d0 g rest) in Hrun0 by assumption.
      cbv zeta in Hrun0.
      destruct (getNextWorkItem g) as [i|] eqn:Hn.
      + injection Hrun0 as <- _. split; [discriminate|].
        intros (_ & Hall & _).
        inversion Hall as [|? ? (Hnn & _) _]; subst. congruence.
      + apply IH in Hrun0. rewrite Hrun0. unfold all_finished. simpl. split.
        * intros (Hcur & Hrest & Hpend). split; [intros g0 Hg; discriminate|].
          split; [|exact Hpend].
          constructor; [apply Hcur; reflexivity|exact Hrest].
        * intros (_ & Hall & Hpend).
          inversion Hall as [|? ? Hfin Hrest]; subst.
          split; [intros g0 Hg; injection Hg as <-; exact Hfin|].
          split; assumption. }
  destruct (m_currentWorkGroup d) as [g|] eqn:Hg; [|eapply Hnone; eassumption].
  destruct (getNextWorkItem g) as [i|] eqn:Hn.
  - rewrite (nextWorkItem_ready f d g i) in Hrun by assumption.
    injection Hrun as <- _. split; [discriminate|].
    intros (Hcur & _). destruct (Hcur g Hg) as (Hnn & _). congruence.
  - destruct (hasBarrier g) eqn:Hb.
    + rewrite (nextWorkItem_barrier f d g) in Hrun by assumption.
      injection Hrun as <- _. split; [discriminate|].
      intros (Hcur & _). destruct (Hcur g Hg) as (_ & Hbb). congruence.
    + rewrite (nextWorkItem_finished f d g) in Hrun by assumption.
      rewrite (all_finished_drop d g Hg (conj Hn Hb)).
      eapply Hnone; [reflexivity|exact Hrun].
Qed.

(** C2.  With enough fuel for the groups at hand [nextWorkItem] returns.
    A current group with a ready work-item keeps the device as it is and
    makes that work-item current, with result true.  A current group
    without a ready work-item but with a barrier has the barrier cleared
    and its next ready work-item taken, with result true; one with
    neither is dropped, and the scheduler goes on as if there were no
    current group: it takes the head of the running groups, else
    instantiates the head of the pending pool, and starts again when the
    group taken has no ready work-item.  With no current, running or
    pending group the result is false and only the current work-item is
    reset.  The result is false exactly when no group of the state the
    scheduler was called in has a work-item that is ready or waits at a
    barrier, which is exactly when no current, running or pending group
    is left afterwards; it is true exactly when a ready work-item is
    current afterwards. *)
Theorem nextWorkItem_spec (d : Device) (fuel : nat) :
  m_pendingGroups d = [] \/ is_Some (m_kernel d) ->
  (nextWorkItem_fuel d <= fuel)%nat ->
  (forall g i,
     m_currentWorkGroup d = Some g -> getNextWorkItem g = Some i ->
     nextWorkItem fuel d = Ok true (set_m_currentWorkItem (Some i) d)) /\
  (forall g,
     m_currentWorkGroup d = Some g -> getNextWorkItem g = None ->
     hasBarrier g = true ->
     is_Some (getNextWorkItem (clearBarrier g)) /\
     nextWorkItem fuel d =
       Ok true (set_m_currentWorkItem (getNextWorkItem (clearBarrier g))
                  (set_m_currentWorkGroup (Some (clearBarrier g)) d))) /\
  (forall g,
     m_currentWorkGroup d = Some g -> getNextWorkItem g = None ->
     hasBarrier g = false ->
     nextWorkItem fuel d = nextWorkItem fuel (set_m_currentWorkGroup None d)) /\
  (forall g rest,
     m_currentWorkGroup d = None -> m_runningGroups d = g :: rest ->
     let d1 := set_m_runningGroups rest (set_m_currentWorkGroup (Some g) d) in
     nextWorkItem fuel d =
       match getNextWorkItem g with
       | Some i => Ok true (set_m_currentWorkItem (Some i) d1)
       | None => nextWorkItem (fuel - 1) (set_m_currentWorkItem None d1)
       end) /\
  (forall p rest k,
     m_currentWorkGroup d = None -> m_runningGroups d = [] ->
     m_pendingGroups d = p :: rest -> m_kernel d = Some k ->
     let g := newWorkGroup k p (m_globalOffset d) (m_localSize d) in
     let d1 := set_m_currentWorkGroup (Some g) (set_m_pendingGroups rest d) in
     nextWorkItem fuel d =
       match getNextWorkItem g with
       | Some i => Ok true (set_m_currentWorkItem (Some i) d1)
       | None => nextWorkItem (fuel - 1) (set_m_currentWorkItem None d1)
       end) /\
  (m_currentWorkGroup d = None -> m_runningGroups d = [] ->
   m_pendingGroups d = [] ->
   nextWorkItem fuel d = Ok false (set_m_currentWorkItem None d)) /\
  exists b d',
    nextWorkItem fuel d = Ok b d' /\
    (b = false <-> all_finished d) /\
    (b = false <-> nothing_left d') /\
    (b = true <-> ready_current d').
Proof.
  intros Hk Hfuel.
  destruct fuel as [|f]; [unfold nextWorkItem_fuel in Hfuel; lia|].
  replace (S f - 1)%nat with f by lia.
  split; [|split; [|split; [|split; [|split; [|split]]]]].
  - intros g i Hg Hn. apply nextWorkItem_ready with g; assumption.
  - intros g Hg Hn Hb. split; [apply clearBarrier_ready, Hb|].
    apply nextWorkItem_barrier; assumption.
  - intros g Hg Hn Hb. apply nextWorkItem_finished with g; assumption.
  - intros g rest Hg Hr. apply nextWorkItem_running; assumption.
  - intros p rest k Hg Hr Hp Hker. apply nextWorkItem_pending; assumption.
  - intros Hg Hr Hp. apply nextWorkItem_empty; assumption.
  - destruct (nextWorkItem_total (S f) d Hfuel Hk) as (b & d' & Hrun & Hb).
    exists b, d'. split; [exact Hrun|].
    split; [exact (nextWorkItem_false _ _ _ _ Hrun)|].
    destruct b.
    + destruct Hb as (g & i & wi & Hg & Hi & Hwi & Hs).
      split; split; try discriminate; try reflexivity.
      * intros (Hnone & _). congruence.
      * intros _. exists g, i, wi. repeat split; assumption.
    + destruct Hb as (Hleft & Hitem).
      split; split; try discriminate; try reflexivity.
      * intros _. exact Hleft.
      * intros (g & i & wi & Hg & _). destruct Hleft as (Hnone & _). congruence.
Qed.

End Scheduler.

(** ** The [workitem] command *)

Section Workitem.

Context `{Interpreter}.

Lemma parseGlobalID_accepts d tokens G :
  denotes tokens G -> in_box (m_globalSize d) G ->
  parseGlobalID tokens 1 (V3 0 0 0) d = Ok (Some G) d.
Proof.
  intros Hden (H0 & H1 & H2).
  destruct tokens as [|a [|b [|c [|x rest]]]]; simpl in Hden.
  - subst G. reflexivity.
  - destruct Hden as (Ha & Hb & Hc). destruct G as [x y z]; simpl in *. subst.
    unfold bind, gets, deref, ret. rewrite Ha. simpl.
    destruct (Z.geb_spec x (v0 (m_globalSize d))); [lia|]. reflexivity.
  - destruct Hden as (Ha & Hb & Hc). destruct G as [x y z]; simpl in *. subst.
    unfold bind, gets, deref, ret. rewrite Ha. simpl.
    destruct (Z.geb_spec x (v0 (m_globalSize d))); [lia|]. rewrite Hb. simpl.
    destruct (Z.geb_spec y (v1 (m_globalSize d))); [lia|]. reflexivity.
  - destruct Hden as (Ha & Hb & Hc). destruct G as [x y z]; simpl in *.
    unfold bind, gets, deref, ret. rewrite Ha. simpl.
    destruct (Z.geb_spec x (v0 (m_globalSize d))); [lia|]. rewrite Hb. simpl.
    destruct (Z.geb_spec y (v1 (m_globalSize d))); [lia|]. rewrite Hc. simpl.
    destruct (Z.geb_spec z (v2 (m_globalSize d))); [lia|]. reflexivity.
  - contradiction.
Qed.

(** A fourth argument makes the loop write [gid[3]]. *)
Lemma parseGlobalID_overflow d a b c x rest G :
  denotes [a; b; c] G -> in_box (m_globalSize d) G ->
  parseGlobalID (a :: b :: c :: x :: rest) 1 (V3 0 0 0) d = Undefined.
Proof.
  intros (Ha & Hb & Hc) (H0 & H1 & H2).
  simpl. unfold bind, gets, deref, ret. rewrite Ha. simpl.
  destruct (Z.geb_spec (v0 G) (v0 (m_globalSize d))); [lia|]. rewrite Hb. simpl.
  destruct (Z.geb_spec (v1 G) (v1 (m_globalSize d))); [lia|]. rewrite Hc. simpl.
  destruct (Z.geb_spec (v2 G) (v2 (m_globalSize d))); [lia|].
  destruct (extract_size_t x). reflexivity.
Qed.

Lemma newWorkItem_ids k gid lid :
  wi_globalID (newWorkItem k gid lid) = gid /\
  wi_localID (newWorkItem k gid lid) = lid /\
  wi_state (newWorkItem k gid lid) = READY.
Proof. unfold newWorkItem. destruct (workitem_entry k gid lid). auto. Qed.

Lemma newWorkGroup_group_of d k group :
  group_of d (newWorkGroup k group (m_globalOffset d) (m_localSize d)).
Proof.
  intros lid (H0 & H1 & H2).
  set (n := m_localSize d) in *.
  set (f := fun x y z =>
    newWorkItem k (globalIDOf group (m_globalOffset d) n (V3 x y z)) (V3 x y z)).
  pose proof (lookup_grid f n (v0 lid) (v1 lid) (v2 lid) H0 H1 H2) as Hl.
  exists (Z.to_nat (v0 lid + v0 n * (v1 lid + v1 n * v2 lid))), (f (v0 lid) (v1 lid) (v2 lid)).
  split; [|split; [exact Hl|]].
  - unfold getWorkItem, newWorkGroup. simpl. fold f.
    replace (v0 lid + (v1 lid + v2 lid * v1 n) * v0 n)
      with (v0 lid + v0 n * (v1 lid + v1 n * v2 lid)) by ring.
    apply lookup_lt_Some in Hl.
    rewrite decide_True by exact Hl. reflexivity.
  - unfold f. destruct (newWorkItem_ids k
      (globalIDOf group (m_globalOffset d) n (V3 (v0 lid) (v1 lid) (v2 lid)))
      (V3 (v0 lid) (v1 lid) (v2 lid))) as (Hg & Hlid & _).
    rewrite Hg, Hlid. destruct lid; simpl. split; reflexivity.
Qed.

Lemma same_group_eq a b : same_group a b = true <-> a = b.
Proof.
  unfold same_group. destruct a, b; simpl.
  rewrite !andb_true_iff, !Z.eqb_eq. split; [intros [[-> ->] ->]; reflexivity|].
  intros [= -> -> ->]. auto.
Qed.

Lemma printSourceLine_ok d lineNum :
  0 <= lineNum ->
  exists o, printSourceLine lineNum d = Ok tt (set_cout o d).
Proof.
  intros Hpos. unfold printSourceLine, bind, gets.
  destruct (negb (lineNum =? 0) && (lineNum <=? Z.of_nat (length (m_sourceLines d)))) eqn:Hc.
  - apply andb_true_iff in Hc as (Hz & Hle).
    apply negb_true_iff, Z.eqb_neq in Hz. apply Z.leb_le in Hle.
    destruct (lookup_lt_is_Some_2 (m_sourceLines d) (Z.to_nat (lineNum - 1)))
      as [text Ht]; [lia|].
    rewrite Ht. simpl. eexists. reflexivity.
  - eexists. reflexivity.
Qed.

Lemma set_cout_id d : set_cout (cout d) d = d.
Proof. destruct d; reflexivity. Qed.

Lemma printCurrentLine_ok d p :
  pointee d = Some p ->
  exists o, printCurrentLine d = Ok tt (set_cout o d).
Proof.
  intros Hp. unfold printCurrentLine.
  rewrite (bind_ok _ _ d p d) by (rewrite currentWorkItem_pointee, Hp; reflexivity).
  destruct p as [wi|]; [|exists (cout d); rewrite set_cout_id; reflexivity].
  case_decide; [exists (cout d); rewrite set_cout_id; reflexivity|].
  unfold getCurrentLineNumber.
  unfold bind at 1. unfold bind at 1.
  rewrite currentWorkItem_pointee, Hp.
  unfold ret, bind, gets.
  destruct (negb (is_nil (m_sourceLines d)) && (lineOf (Some wi) >? 0)) eqn:Hc.
  - apply printSourceLine_ok.
    apply andb_true_iff in Hc as (_ & Hgt). apply Z.gtb_lt in Hgt. lia.
  - eexists. reflexivity.
Qed.


Lemma wrap_wrap_add a b : SizeT.wrap (SizeT.wrap a + b) = SizeT.wrap (a + b).
Proof. unfold SizeT.wrap. apply Z.add_mod_idemp_l. unfold SizeT.modulus. lia. Qed.

Lemma wrap_add_wrap a b : SizeT.wrap (a + SizeT.wrap b) = SizeT.wrap (a + b).
Proof. unfold SizeT.wrap. apply Z.add_mod_idemp_r. unfold SizeT.modulus. lia. Qed.

Lemma globalID_component (g o n : Z) :
  n <> 0 ->
  SizeT.add (SizeT.add (g mod n) (SizeT.mul (g / n) n)) o = SizeT.add g o.
Proof.
  intros Hn. unfold SizeT.add, SizeT.mul.
  rewrite wrap_wrap_add.
  replace (g mod n + SizeT.wrap (g / n * n) + o)
    with (SizeT.wrap (g / n * n) + (g mod n + o)) by lia.
  rewrite wrap_wrap_add. f_equal.
  pose proof (Z.div_mod g n Hn). lia.
Qed.

Lemma globalIDOf_div_mod G offset ls :
  positive3 ls ->
  globalIDOf (V3 (v0 G / v0 ls) (v1 G / v1 ls) (v2 G / v2 ls)) offset ls
    (V3 (v0 G mod v0 ls) (v1 G mod v1 ls) (v2 G mod v2 ls))
  = V3 (SizeT.add (v0 G) (v0 offset)) (SizeT.add (v1 G) (v1 offset))
       (SizeT.add (v2 G) (v2 offset)).
Proof.
  intros (H0 & H1 & H2). unfold globalIDOf. simpl.
  rewrite !globalID_component by lia. reflexivity.
Qed.

Lemma selectWorkItem_ok d G g :
  positive3 (m_localSize d) ->
  m_currentWorkGroup d = Some g -> group_of d g ->
  let ls := m_localSize d in
  let lid := V3 (v0 G mod v0 ls) (v1 G mod v1 ls) (v2 G mod v2 ls) in
  exists o i wi,
    selectWorkItem G d = Ok tt (set_cout o (set_m_currentWorkItem (Some i) d)) /\
    wg_items g !! i = Some wi /\ wi_localID wi = lid /\
    wi_globalID wi = globalIDOf (wg_groupID g) (m_globalOffset d) ls lid.
Proof.
  intros (H0 & H1 & H2) Hg Hgroup ls lid.
  destruct (Hgroup lid) as (i & wi & Hget & Hl & Hlid & Hgid).
  { unfold in_box, lid, ls. simpl.
    pose proof (Z.mod_pos_bound (v0 G) (v0 (m_localSize d))).
    pose proof (Z.mod_pos_bound (v1 G) (v1 (m_localSize d))).
    pose proof (Z.mod_pos_bound (v2 G) (v2 (m_localSize d))). lia. }
  unfold selectWorkItem, bind, gets, SizeT.rem, deref, ret, modify.
  destruct (Z.eqb_spec (v0 (m_localSize d)) 0); [lia|].
  destruct (Z.eqb_spec (v1 (m_localSize d)) 0); [lia|].
  destruct (Z.eqb_spec (v2 (m_localSize d)) 0); [lia|].
  rewrite Hg. fold ls. fold lid. rewrite Hget.
  unfold to_cout, modify.
  rewrite currentWorkItem_pointee.
  unfold pointee. simpl. rewrite Hg. simpl. rewrite Hl. simpl.
  case_decide.
  - eexists _, i, wi. split; [reflexivity|]. auto.
  - match goal with |- context [printCurrentLine ?d1] =>
      destruct (printCurrentLine_ok d1 (Some wi)) as [o Ho]
    end.
    { unfold pointee. simpl. rewrite Hg. simpl. rewrite Hl. reflexivity. }
    rewrite Ho. exists o, i, wi. split; [reflexivity|]. auto.
Qed.

Lemma workitem_switches d cmd tokens G cur :
  denotes tokens G -> in_box (m_globalSize d) G ->
  positive3 (m_localSize d) ->
  m_currentWorkGroup d = Some cur ->
  group_of d cur -> Forall (group_of d) (m_runningGroups d) ->
  let ls := m_localSize d in
  let target := V3 (v0 G / v0 ls) (v1 G / v1 ls) (v2 G / v2 ls) in
  let lid := V3 (v0 G mod v0 ls) (v1 G mod v1 ls) (v2 G mod v2 ls) in
  wg_groupID cur = target \/
  (exists g, g ∈ m_runningGroups d /\ wg_groupID g = target) \/
  (target ∈ m_pendingGroups d /\ is_Some (m_kernel d)) ->
  exists d' g i wi,
    workitem (cmd :: tokens) d = Ok tt d' /\
    m_currentWorkGroup d' = Some g /\ wg_groupID g = target /\
    m_currentWorkItem d' = Some i /\ wg_items g !! i = Some wi /\
    wi_localID wi = lid /\
    wi_globalID wi =
      V3 (SizeT.add (v0 G) (v0 (m_globalOffset d)))
         (SizeT.add (v1 G) (v1 (m_globalOffset d)))
         (SizeT.add (v2 G) (v2 (m_globalOffset d))) /\
    (wg_groupID cur = target ->
       g = cur /\ m_runningGroups d' = m_runningGroups d) /\
    (wg_groupID cur <> target ->
       exists rest, m_runningGroups d' = rest ++ [cur]).
Proof.
  intros Hden Hbox Hls Hcur Hgcur Hrun ls target lid Hloc.
  pose proof Hls as (H0 & H1 & H2).
  unfold workitem. simpl tail.
  rewrite (bind_ok _ _ _ _ _ (parseGlobalID_accepts d tokens G Hden Hbox)).
  unfold bind at 1. unfold gets at 1.
  unfold SizeT.div. fold ls.
  destruct (Z.eqb_spec (v0 ls) 0); [unfold ls in *; lia|].
  destruct (Z.eqb_spec (v1 ls) 0); [unfold ls in *; lia|].
  destruct (Z.eqb_spec (v2 ls) 0); [unfold ls in *; lia|].
  unfold deref at 1 2 3. unfold bind at 1 2 3. unfold ret at 1 2 3.
  fold target.
  unfold bind at 1. unfold gets at 1. rewrite Hcur.
  unfold deref at 1. unfold bind at 1. unfold ret at 1.
  assert (Hfinish : forall d1 g,
    m_currentWorkGroup d1 = Some g -> wg_groupID g = target ->
    m_localSize d1 = m_localSize d -> m_globalOffset d1 = m_globalOffset d ->
    group_of d g ->
    (wg_groupID cur = target ->
       g = cur /\ m_runningGroups d1 = m_runningGroups d) ->
    (wg_groupID cur <> target -> exists rest, m_runningGroups d1 = rest ++ [cur]) ->
    exists d' g i wi,
      selectWorkItem G d1 = Ok tt d' /\
      m_currentWorkGroup d' = Some g /\ wg_groupID g = target /\
      m_currentWorkItem d' = Some i /\ wg_items g !! i = Some wi /\
      wi_localID wi = lid /\
      wi_globalID wi =
        V3 (SizeT.add (v0 G) (v0 (m_globalOffset d)))
           (SizeT.add (v1 G) (v1 (m_globalOffset d)))
           (SizeT.add (v2 G) (v2 (m_globalOffset d))) /\
      (wg_groupID cur = target ->
         g = cur /\ m_runningGroups d' = m_runningGroups d) /\
      (wg_groupID cur <> target ->
         exists rest, m_runningGroups d' = rest ++ [cur])).
  { intros d1 g Hg1 Hid Hls1 Hoff1 Hgrp Hsame Hdiff.
    destruct (selectWorkItem_ok d1 G g) as (o & i & wi & Hsel & Hl & Hlid & Hgid).
    - rewrite Hls1. exact Hls.
    - exact Hg1.
    - unfold group_of. rewrite Hls1, Hoff1. exact Hgrp.
    - exists (set_cout o (set_m_currentWorkItem (Some i) d1)), g, i, wi.
      split; [exact Hsel|]. split; [exact Hg1|]. split; [exact Hid|].
      split; [reflexivity|]. split; [exact Hl|].
      rewrite Hls1 in Hlid, Hgid. rewrite Hoff1 in Hgid.
      split; [exact Hlid|].
      split; [|split; [exact Hsame|exact Hdiff]].
      rewrite Hgid, Hid. apply globalIDOf_div_mod, Hls. }
  assert (Hclose : forall d1 g,
    m_currentWorkGroup d1 = Some g -> wg_groupID g = target ->
    m_localSize d1 = m_localSize d -> m_globalOffset d1 = m_globalOffset d ->
    group_of d g ->
    (wg_groupID cur = target ->
       g = cur /\ m_runningGroups d1 = m_runningGroups d) ->
    (wg_groupID cur <> target -> exists rest, m_runningGroups d1 = rest ++ [cur]) ->
    forall c : M Device unit, c d = selectWorkItem G d1 ->
    exists d' g i wi,
      c d = Ok tt d' /\
      m_currentWorkGroup d' = Some g /\ wg_groupID g = target /\
      m_currentWorkItem d' = Some i /\ wg_items g !! i = Some wi /\
      wi_localID wi = lid /\
      wi_globalID wi =
        V3 (SizeT.add (v0 G) (v0 (m_globalOffset d)))
           (SizeT.add (v1 G) (v1 (m_globalOffset d)))
           (SizeT.add (v2 G) (v2 (m_globalOffset d))) /\
      (wg_groupID cur = target ->
         g = cur /\ m_runningGroups d' = m_runningGroups d) /\
      (wg_groupID cur <> target ->
         exists rest, m_runningGroups d' = rest ++ [cur])).
  { intros d1 g ? ? ? ? ? ? ? c Hc. rewrite Hc. apply (Hfinish d1 g); assumption. }
  clear Hfinish.
  destruct (same_group target (wg_groupID cur)) eqn:Hsame.
  - apply same_group_eq in Hsame.
    apply (Hclose d cur); auto.
    intros Hne. congruence.
  - assert (Hne : wg_groupID cur <> target).
    { intros Heq. symmetry in Heq. apply same_group_eq in Heq. congruence. }
    destruct (list_find (fun g => same_group target (wg_groupID g) = true)
                (m_runningGroups d)) as [[pos g]|] eqn:Hfind.
    + pose proof Hfind as (Hpos & Hid & _)%list_find_Some.
      apply same_group_eq in Hid.
      assert (Hfound :
        (let* inRunning := findInRunning target in
         if inRunning : bool then ret true else findInPending target) d
        = Ok true (set_m_runningGroups (delete pos (m_runningGroups d))
                     (set_m_currentWorkGroup (Some g) d))).
      { unfold findInRunning, bind, gets. rewrite Hfind. reflexivity. }
      eapply (Hclose _ g); cycle -1.
      { rewrite (bind_ok _ _ _ _ _ Hfound). reflexivity. }
      all: try reflexivity; auto.
      * rewrite Forall_forall in Hrun. apply Hrun.
        apply list_elem_of_lookup. exists pos. exact Hpos.
      * intros Heq. contradiction.
      * intros _. eexists. reflexivity.
    + destruct Hloc as [Heq | [(g & Hin & Hid) | (Hin & [k Hk])]].
      * contradiction.
      * apply list_find_None in Hfind. rewrite Forall_forall in Hfind.
        exfalso. apply (Hfind g Hin). apply same_group_eq. auto.
      * destruct (list_find (fun g => same_group target g = true)
                    (m_pendingGroups d)) as [[pos p]|] eqn:Hpend.
        2:{ apply list_find_None in Hpend. rewrite Forall_forall in Hpend.
            exfalso. apply (Hpend target Hin). apply same_group_eq. reflexivity. }
        assert (Hfound :
          (let* inRunning := findInRunning target in
           if inRunning : bool then ret true else findInPending target) d
          = Ok true
              (set_m_pendingGroups (delete pos (m_pendingGroups d))
                 (set_m_currentWorkGroup
                    (Some (newWorkGroup k target (m_globalOffset d)
                             (m_localSize d))) d))).
        { unfold findInRunning, bind, gets. rewrite Hfind.
          unfold ret. cbv beta iota.
          unfold findInPending, bind, gets. rewrite Hpend.
          unfold createWorkGroup, bind, gets, deref. rewrite Hk. reflexivity. }
        eapply (Hclose _ (newWorkGroup k target (m_globalOffset d) (m_localSize d)));
          cycle -1.
        { rewrite (bind_ok _ _ _ _ _ Hfound). reflexivity. }
        all: try reflexivity; auto.
        -- apply newWorkGroup_group_of.
        -- intros Heq. contradiction.
        -- intros _. eexists. reflexivity.
Qed.

End Workitem.

(** ** Stepping *)

Section Stepping.

Context `{Interpreter}.

Lemma router_only_refl d : router_only d d.
Proof. exists (cerr d), (m_forceBreak d). destruct d; reflexivity. Qed.

Lemma router_only_trans d1 d2 d3 :
  router_only d1 d2 -> router_only d2 d3 -> router_only d1 d3.
Proof.
  intros (o1 & f1 & ->) (o2 & f2 & ->). exists o2, f2. reflexivity.
Qed.

Lemma router_only_cerr o d : router_only d (set_cerr o d).
Proof. exists o, (m_forceBreak d). destruct d; reflexivity. Qed.

Lemma router_only_emit items d : router_only d (emit items d).
Proof. apply router_only_cerr. Qed.

Lemma router_only_pointee d d' : router_only d d' -> pointee d' = pointee d.
Proof. intros (o & fb & ->). reflexivity. Qed.

Lemma printErrorContext_frame d d' :
  printErrorContext d = Ok tt d' -> router_only d d'.
Proof.
  unfold printErrorContext. unfold bind at 1. rewrite currentWorkItem_pointee.
  destruct (pointee d) as [p|]; [|discriminate].
  intros [= <-]. apply router_only_emit.
Qed.

Lemma reportOtherEntity_frame a b d d' :
  reportOtherEntity a b d = Ok tt d' -> router_only d d'.
Proof.
  unfold reportOtherEntity, bind, gets, deref.
  repeat case_decide.
  - destruct (delinearize _ _); [|discriminate].
    intros [= <-]. apply router_only_cerr.
  - destruct (delinearize _ _); [|discriminate].
    intros [= <-]. apply router_only_cerr.
  - intros [= <-]. apply router_only_cerr.
Qed.

(** Sequencing preserves the frame. *)
Lemma bind_frame {A} (c : M Device A) (k : A -> M Device unit) d d' :
  (forall a d1, c d = Ok a d1 -> router_only d d1) ->
  (forall a d1 d2, c d = Ok a d1 -> k a d1 = Ok tt d2 -> router_only d1 d2) ->
  bind c k d = Ok tt d' -> router_only d d'.
Proof.
  intros Hc Hk. unfold bind. destruct (c d) as [a d1| | |] eqn:Hcd; try discriminate.
  intros Hkd. eapply router_only_trans; [eapply Hc; reflexivity|].
  eapply Hk; [reflexivity|exact Hkd].
Qed.

Lemma to_cerr_frame items d d' : to_cerr items d = Ok tt d' -> router_only d d'.
Proof. intros [= <-]. apply router_only_cerr. Qed.

Lemma when_frame (b : bool) items d d' :
  when b (to_cerr items) d = Ok tt d' -> router_only d d'.
Proof.
  destruct b; [apply to_cerr_frame|]. intros [= <-]. apply router_only_refl.
Qed.

Lemma break_frame d d' :
  modify (set_m_forceBreak true) d = Ok tt d' -> router_only d d'.
Proof.
  intros [= <-]. exists (cerr d), true. destruct d; reflexivity.
Qed.

Ltac frame_steps :=
  repeat first
    [ eapply bind_frame;
      [ intros [] ? ?;
        first [ eapply printErrorContext_frame; eassumption
              | eapply reportOtherEntity_frame; eassumption
              | eapply when_frame; eassumption
              | eapply to_cerr_frame; eassumption ]
      | intros [] ? ? _ ]
    | eapply break_frame ].

Lemma notify_frame n d d' : notify n d = Ok tt d' -> router_only d d'.
Proof.
  destruct n as
    [ read addrSpace address size
    | type addrSpace address lastWorkItem lastWorkGroup lastInstruction
    | instruction divergence currentInfo previousInfo
    | error message ]; simpl.
  - unfold notifyMemoryError. frame_steps.
  - unfold notifyDataRace. frame_steps.
    destruct lastInstruction.
    + eapply bind_frame; [intros [] ? ?; eapply to_cerr_frame; eassumption|].
      intros [] ? ? _. frame_steps.
    + eapply bind_frame; [intros [] ? [= <-]; apply router_only_refl|].
      intros [] ? ? _. frame_steps.
  - unfold notifyDivergence. frame_steps.
  - unfold notifyError. frame_steps.
Qed.

Lemma notes_frame notes : forall d d',
  forEach notes notify d = Ok tt d' -> router_only d d'.
Proof.
  induction notes as [|n notes IH]; intros d d'.
  - intros [= <-]. apply router_only_refl.
  - simpl. unfold bind. destruct (notify n d) as [[] d1| | |] eqn:Hn; try discriminate.
    intros Hrest. eapply router_only_trans; [eapply notify_frame, Hn|].
    apply IH, Hrest.
Qed.

(** The shape of the device after one instruction of the current
    work-item. *)
Lemma stepWorkItem_shape d st d1 :
  stepWorkItem d = Ok st d1 ->
  exists i g wi wi' global' local' o fb,
    m_currentWorkItem d = Some i /\ m_currentWorkGroup d = Some g /\
    wg_items g !! i = Some wi /\ st = wi_state wi' /\
    d1 = set_m_currentWorkGroup (Some (replaceItem g i wi' local'))
           (set_m_globalMemory global' (set_m_forceBreak fb (set_cerr o d))).
Proof.
  unfold stepWorkItem, bind, gets, deref, ret, modify, throw.
  destruct (m_currentWorkItem d) as [i|]; [|discriminate].
  destruct (m_currentWorkGroup d) as [g|]; [|discriminate].
  destruct (wg_items g !! i) as [wi|] eqn:Hwi; [|discriminate].
  destruct (workitem_step _ _ wi) as [e|global' local' wi' notes]; [discriminate|].
  destruct (forEach notes notify d) as [[] dn| | |] eqn:Hn; try discriminate.
  apply notes_frame in Hn as (o & fb & ->).
  intros [= <- <-].
  exists i, g, wi, wi', global', local', o, fb. auto.
Qed.

Lemma stepWorkItem_pointee d st d1 :
  stepWorkItem d = Ok st d1 ->
  exists wi', pointee d1 = Some (Some wi') /\ wi_state wi' = st.
Proof.
  intros (i & g & wi & wi' & global' & local' & o & fb & Hi & Hg & Hwi & -> & ->)
    %stepWorkItem_shape.
  exists wi'. split; [|reflexivity].
  unfold pointee. simpl. rewrite Hi. simpl.
  rewrite list_lookup_insert_eq by (eapply lookup_lt_Some, Hwi). reflexivity.
Qed.

Lemma stepWorkItem_source d st d1 :
  stepWorkItem d = Ok st d1 -> m_sourceLines d1 = m_sourceLines d.
Proof.
  intros (i & g & wi & wi' & global' & local' & o & fb & _ & _ & _ & _ & ->)
    %stepWorkItem_shape. reflexivity.
Qed.

Lemma getCurrentLineNumber_ok d p :
  pointee d = Some p -> getCurrentLineNumber d = Ok (currentLine d) d.
Proof.
  intros Hp. unfold getCurrentLineNumber, bind, currentLine.
  rewrite currentWorkItem_pointee, Hp. reflexivity.
Qed.

Lemma is_nil_true {A} (l : list A) : is_nil l = true <-> l = [].
Proof. destruct l; simpl; split; congruence. Qed.

Lemma stepLoop_stepped prev n d d' :
  stepped prev n d d' ->
  forall fuel, (n <= fuel)%nat -> stepLoop fuel prev d = Ok tt d'.
Proof.
  induction 1 as [d st d1 Hstep Hstop | n d d1 d' Hstep Hsrc Hline Hrest IH];
    intros fuel Hfuel; (destruct fuel as [|fuel]; [lia|]); simpl.
  - rewrite (bind_ok _ _ _ _ _ Hstep).
    destruct (decide (st <> READY)) as [|Hready]; [reflexivity|].
    destruct (stepWorkItem_pointee _ _ _ Hstep) as (wi' & Hp & _).
    rewrite (bind_ok _ _ _ _ _ (getCurrentLineNumber_ok _ _ Hp)).
    unfold bind, gets.
    destruct Hstop as [Hs | [Hs | [Hs1 Hs2]]].
    + contradiction.
    + rewrite Hs. reflexivity.
    + apply Z.eqb_neq in Hs1, Hs2. rewrite Hs1, Hs2, andb_false_r. reflexivity.
  - rewrite (bind_ok _ _ _ _ _ Hstep).
    rewrite decide_False by (intros Hc; apply Hc; reflexivity).
    destruct (stepWorkItem_pointee _ _ _ Hstep) as (wi' & Hp & _).
    rewrite (bind_ok _ _ _ _ _ (getCurrentLineNumber_ok _ _ Hp)).
    unfold bind at 1. unfold gets.
    assert (Hnil : is_nil (m_sourceLines d1) = false).
    { destruct (m_sourceLines d1); [contradiction|reflexivity]. }
    rewrite Hnil. simpl negb.
    assert (Hcond : (currentLine d1 =? prev) || (currentLine d1 =? 0) = true).
    { apply orb_true_iff. destruct Hline as [-> | ->];
        [left|right]; apply Z.eqb_refl. }
    rewrite Hcond. simpl. apply IH. lia.
Qed.

(** The steps [step] takes without source are one. *)
Lemma stepped_no_source prev n d d' :
  stepped prev n d d' -> m_sourceLines d = [] -> n = 1%nat.
Proof.
  intros Hsteps Hnil.
  inversion Hsteps as [|n0 d0 d1 d0' Hstep Hsrc _ _]; subst; [reflexivity|]. rewrite (stepWorkItem_source _ _ _ Hstep) in Hsrc. contradiction.
Qed.

(** Where [step] ends: the work-item has left the ready state, or no
    source is loaded, or the device is on another line that has a
    number. *)
Lemma stepped_final prev n d d' :
  stepped prev n d d' ->
  m_sourceLines d' = m_sourceLines d /\
  exists wi', pointee d' = Some (Some wi') /\ stops prev (wi_state wi') d'.
Proof.
  induction 1 as [d st d1 Hstep Hstop | n d d1 d' Hstep Hsrc Hline Hrest IH].
  - split; [apply (stepWorkItem_source _ _ _ Hstep)|].
    destruct (stepWorkItem_pointee _ _ _ Hstep) as (wi' & Hp & Hst).
    exists wi'. rewrite Hst. auto.
  - destruct IH as (Hs & wi' & Hp & Hstop).
    split; [|exists wi'; auto].
    rewrite Hs. apply (stepWorkItem_source _ _ _ Hstep).
Qed.

(** C7 (amended).  For a ready current work-item, [step] issues work-item
    steps while the work-item stays ready and source is loaded and the new
    line is the previous line or zero.  So without source it executes
    exactly one instruction; with source it ends on a work-item that is no
    longer ready or on a line that is neither the previous one nor zero. *)
Theorem step_advances (d d' : Device) (wi : WorkItem Priv) (n fuel : nat) :
  pointee d = Some (Some wi) ->
  wi_state wi = READY ->
  stepped (currentLine d) n d d' ->
  (n <= fuel)%nat ->
  step fuel d = Ok tt d' /\
  (m_sourceLines d = [] ->
     n = 1%nat /\ forall st d1, stepWorkItem d = Ok st d1 -> d' = d1) /\
  (m_sourceLines d <> [] ->
     exists wi',
       pointee d' = Some (Some wi') /\
       (wi_state wi' <> READY \/
        (currentLine d' <> currentLine d /\ currentLine d' <> 0))).
Proof.
  intros Hp Hready Hsteps Hfuel.
  split; [|split].
  - unfold step. rewrite (bind_ok _ _ d (Some wi) d)
      by (rewrite currentWorkItem_pointee, Hp; reflexivity).
    simpl deref. rewrite (bind_ok _ _ d wi d) by reflexivity.
    rewrite Hready.
    rewrite (bind_ok _ _ _ _ _ (getCurrentLineNumber_ok _ _ Hp)).
    apply (stepLoop_stepped _ _ _ _ Hsteps), Hfuel.
  - intros Hnil. split; [apply (stepped_no_source _ _ _ _ Hsteps Hnil)|].
    intros st d1 Hstep.
    inversion Hsteps as [d0 st' d1' Hstep' _ | n0 d0 d1' d0' Hstep' Hsrc _ _]; subst.
    + congruence.
    + rewrite (stepWorkItem_source _ _ _ Hstep') in Hsrc. contradiction.
  - intros Hsrc.
    destruct (stepped_final _ _ _ _ Hsteps) as (Hs & wi' & Hp' & Hstop).
    exists wi'. split; [exact Hp'|].
    destruct Hstop as [Hst | [Hnil | Hl]]; [left; exact Hst| |right; exact Hl].
    rewrite Hs in Hnil. contradiction.
Qed.

End Stepping.

(** ** Breakpoints and [continue] *)

Section Continue.

Context `{Interpreter}.

Lemma programBreakpoints_ok d :
  exists d', programBreakpoints d = Ok (breakpointsHere d) d' /\
    breakpointsHere d' = breakpointsHere d /\
    (breakpointsHere d <> [] -> d' = d) /\
    exists bps, d' = set_m_breakpoints bps d.
Proof.
  unfold programBreakpoints, breakpointsHere, bind, gets.
  destruct (m_breakpoints d !! programKey (m_program d)) as [bps|] eqn:Hl; simpl.
  - exists d. split; [reflexivity|]. split; [rewrite Hl; reflexivity|].
    split; [reflexivity|]. exists (m_breakpoints d). destruct d; reflexivity.
  - eexists. split; [reflexivity|]. simpl.
    rewrite lookup_insert_eq. simpl. split; [reflexivity|].
    split; [congruence|]. eexists. reflexivity.
Qed.

Lemma find_line bps line id l :
  List.find (fun bp : Z * Z => snd bp =? line) bps = Some (id, l) -> l = line.
Proof.
  intros Hf. apply find_some in Hf as (_ & Heq). simpl in Heq.
  apply Z.eqb_eq, Heq.
Qed.

Lemma bind_gets {A B} (f : Device -> A) (k : A -> M Device B) d :
  bind (gets f) k d = k (f d) d.
Proof. reflexivity. Qed.

Lemma afterStep_checks d canBreak :
  m_interactive d = true -> m_forceBreak d = false ->
  m_breakpoints d <> ∅ ->
  afterStep canBreak d =
    (let* passed := passedLastBreak canBreak in
     if negb passed then ret (Continue false) else checkBreakpoint) d.
Proof.
  intros Hi Hf Hb. unfold afterStep.
  rewrite bind_gets, Hi. cbn [negb]. cbv iota.
  rewrite bind_gets, Hf. cbv iota.
  rewrite bind_gets, bool_decide_eq_false_2 by exact Hb. reflexivity.
Qed.

Lemma passedLastBreak_ok d p canBreak :
  pointee d = Some p ->
  passedLastBreak canBreak d =
    Ok (canBreak || negb (currentLine d =? lastBreakLine d)) d.
Proof.
  intros Hp. destruct canBreak; [reflexivity|]. unfold passedLastBreak.
  rewrite (bind_ok _ _ _ _ _ (getCurrentLineNumber_ok _ _ Hp)). reflexivity.
Qed.

(** The inner loop of [cont] does not fire on the remembered line. *)
Lemma afterStep_latched d p :
  m_interactive d = true -> m_forceBreak d = false ->
  m_breakpoints d <> ∅ -> pointee d = Some p ->
  currentLine d = lastBreakLine d ->
  afterStep false d = Ok (Continue false) d.
Proof.
  intros Hi Hf Hb Hp Hline.
  rewrite afterStep_checks by assumption.
  rewrite (bind_ok _ _ _ _ _ (passedLastBreak_ok _ _ _ Hp)).
  rewrite Hline, Z.eqb_refl. reflexivity.
Qed.

Lemma reportBreakpoint_ok d wi id line :
  pointee d = Some (Some wi) ->
  exists o, reportBreakpoint id line d = Ok tt (set_cout o d).
Proof.
  intros Hp. unfold reportBreakpoint. cbv [bind].
  rewrite currentWorkItem_pointee, Hp. simpl. eexists. reflexivity.
Qed.

(** With the latch open, or on another line than the remembered one, a
    breakpoint on the current line fires and [cont] returns; without one
    the loop goes on with the latch open. *)
Lemma afterStep_open d wi canBreak :
  m_interactive d = true -> m_forceBreak d = false ->
  m_breakpoints d <> ∅ -> pointee d = Some (Some wi) ->
  canBreak = true \/ currentLine d <> lastBreakLine d ->
  match firing d (currentLine d) with
  | Some (id, line) =>
      line = currentLine d /\
      exists o,
        afterStep canBreak d =
          Ok Returned
            (set_m_listPosition 0
               (set_lastBreakLine (currentLine d) (set_cout o d)))
  | None =>
      exists bps,
        afterStep canBreak d = Ok (Continue true) (set_m_breakpoints bps d) /\
        (breakpointsHere d <> [] -> bps = m_breakpoints d)
  end.
Proof.
  intros Hi Hf Hb Hp Hopen.
  destruct (programBreakpoints_ok d) as (d1 & Hbps & Hsame & Hkeep & bps & Hd1).
  rewrite afterStep_checks by assumption.
  rewrite (bind_ok _ _ _ _ _ (passedLastBreak_ok _ _ _ Hp)).
  assert (Hpassed : canBreak || negb (currentLine d =? lastBreakLine d) = true).
  { destruct Hopen as [-> | Hne]; [reflexivity|].
    apply Z.eqb_neq in Hne. rewrite Hne. apply orb_true_r. }
  rewrite Hpassed. cbn [negb]. cbv iota.
  unfold checkBreakpoint.
  rewrite (bind_ok _ _ _ _ _ (getCurrentLineNumber_ok _ _ Hp)).
  rewrite (bind_ok _ _ _ _ _ Hbps).
  unfold firing.
  destruct (List.find _ (breakpointsHere d)) as [[id line]|] eqn:Hfind.
  - split; [apply (find_line _ _ _ _ Hfind)|].
    assert (Hne : breakpointsHere d <> []).
    { intros Hnil. rewrite Hnil in Hfind. discriminate. }
    rewrite (Hkeep Hne) in *.
    destruct (reportBreakpoint_ok d wi id line Hp) as [o1 Ho1].
    rewrite (bind_ok _ _ _ _ _ Ho1).
    destruct (printCurrentLine_ok (set_cout o1 d) (Some wi) Hp) as [o2 Ho2].
    rewrite (bind_ok _ _ _ _ _ Ho2).
    exists o2. reflexivity.
  - exists bps. rewrite Hd1. split; [reflexivity|].
    intros Hne. specialize (Hkeep Hne). rewrite Hd1 in Hkeep.
    apply (f_equal m_breakpoints) in Hkeep. exact Hkeep.
Qed.

Lemma stepWorkItem_debugger d st d1 :
  stepWorkItem d = Ok st d1 ->
  m_interactive d1 = m_interactive d /\ m_running d1 = m_running d /\
  m_breakpoints d1 = m_breakpoints d /\ m_program d1 = m_program d /\
  lastBreakLine d1 = lastBreakLine d /\ cout d1 = cout d.
Proof.
  intros (i & g & wi & wi' & global' & local' & o & fb & _ & _ & _ & _ & ->)
    %stepWorkItem_shape. repeat split; reflexivity.
Qed.

Lemma runWorkItem_step d wi st d1 fuel canBreak :
  pointee d = Some (Some wi) -> wi_state wi = READY -> m_running d = true ->
  stepWorkItem d = Ok st d1 ->
  runWorkItem (S fuel) canBreak d =
    (let* flow := afterStep canBreak in
     match flow with
     | Returned => ret Returned
     | Continue canBreak' => runWorkItem fuel canBreak'
     end) d1.
Proof.
  intros Hp Hready Hrun Hstep. simpl.
  rewrite (bind_ok _ _ d (Some wi) d)
    by (rewrite currentWorkItem_pointee, Hp; reflexivity).
  simpl deref. rewrite (bind_ok _ _ d wi d) by reflexivity.
  rewrite bind_gets, Hrun, Hready.
  rewrite bool_decide_eq_true_2 by reflexivity. cbn [andb]. cbv iota.
  rewrite (bind_ok _ _ _ _ _ Hstep). reflexivity.
Qed.

Lemma contLoop_S fuel canBreak :
  contLoop (S fuel) canBreak =
    (let* p := gets m_currentWorkItem in
     let* running := gets m_running in
     if bool_decide (is_Some p) && running then
       let* flow := runWorkItem fuel canBreak in
       match flow with
       | Returned => ret true
       | Continue canBreak' => nextWorkItemNow ;; contLoop fuel canBreak'
       end
     else ret false).
Proof. reflexivity. Qed.

(** C4 (amended).  Inside [continue], after an instruction of a ready
    work-item that raised no forced break: while the latch is closed and
    the line is still the remembered break line, nothing fires and the
    latch stays closed; once the latch is open or the line differs, a
    breakpoint on the current line fires, is remembered as the break line
    and ends the [continue], and otherwise the latch is open from then on.
    A new [continue] starts with the latch closed and the break line
    remembered from the one before. *)
Theorem breakpoint_latch (d d1 : Device) (wi : WorkItem Priv) (st : State)
    (canBreak : bool) (fuel : nat) :
  m_interactive d = true -> m_running d = true -> m_breakpoints d <> ∅ ->
  pointee d = Some (Some wi) -> wi_state wi = READY ->
  stepWorkItem d = Ok st d1 -> m_forceBreak d1 = false ->
  (canBreak = false -> currentLine d1 = lastBreakLine d ->
     runWorkItem (S fuel) canBreak d = runWorkItem fuel false d1) /\
  (canBreak = true \/ currentLine d1 <> lastBreakLine d ->
     match firing d1 (currentLine d1) with
     | Some (id, line) =>
         line = currentLine d1 /\
         exists o,
           let stopped :=
             set_m_listPosition 0
               (set_lastBreakLine (currentLine d1) (set_cout o d1)) in
           runWorkItem (S fuel) canBreak d = Ok Returned stopped /\
           contLoop (S (S fuel)) canBreak d = Ok true stopped
     | None =>
         exists bps,
           runWorkItem (S fuel) canBreak d =
             runWorkItem fuel true (set_m_breakpoints bps d1)
     end) /\
  (forall fuel' args d',
     cont fuel' args d' =
       (let* returned := contLoop fuel' false in
        if returned : bool then ret tt else modify (set_m_running false))
         (set_m_running true (set_m_forceBreak false d')) /\
     lastBreakLine (set_m_running true (set_m_forceBreak false d'))
       = lastBreakLine d').
Proof.
  intros Hi Hrun Hb Hp Hready Hstep Hf.
  destruct (stepWorkItem_debugger _ _ _ Hstep)
    as (Hi1 & Hrun1 & Hb1 & Hprog1 & Hlast1 & Hcout1).
  destruct (stepWorkItem_pointee _ _ _ Hstep) as (wi1 & Hp1 & Hst1).
  assert (Hi1' : m_interactive d1 = true) by congruence.
  assert (Hb1' : m_breakpoints d1 <> ∅) by congruence.
  split; [|split].
  - intros -> Hline.
    rewrite (runWorkItem_step d wi st d1) by assumption.
    rewrite (bind_ok _ _ _ _ _
      (afterStep_latched d1 (Some wi1) Hi1' Hf Hb1' Hp1 ltac:(congruence))).
    reflexivity.
  - intros Hopen.
    assert (Hopen1 : canBreak = true \/ currentLine d1 <> lastBreakLine d1)
      by (rewrite Hlast1; exact Hopen).
    pose proof (afterStep_open d1 wi1 canBreak Hi1' Hf Hb1' Hp1 Hopen1) as Hfire.
    destruct (firing d1 (currentLine d1)) as [[id line]|].
    + destruct Hfire as (Hline & o & Hafter). split; [exact Hline|].
      exists o. cbv zeta.
      assert (Hinner : runWorkItem (S fuel) canBreak d =
        Ok Returned (set_m_listPosition 0
          (set_lastBreakLine (currentLine d1) (set_cout o d1)))).
      { rewrite (runWorkItem_step d wi st d1) by assumption.
        rewrite (bind_ok _ _ _ _ _ Hafter). reflexivity. }
      split; [exact Hinner|].
      assert (Hcur : is_Some (m_currentWorkItem d)).
      { unfold pointee in Hp. destruct (m_currentWorkItem d); [eauto|discriminate]. }
      rewrite contLoop_S, !bind_gets, Hrun.
      rewrite bool_decide_eq_true_2 by exact Hcur. cbn [andb]. cbv iota.
      rewrite (bind_ok _ _ _ _ _ Hinner). reflexivity.
    + destruct Hfire as (bps & Hafter & _). exists bps.
      rewrite (runWorkItem_step d wi st d1) by assumption.
      rewrite (bind_ok _ _ _ _ _ Hafter). reflexivity.
  - intros fuel' args d'. split; reflexivity.
Qed.

End Continue.

(** ** [quit] and the end of a run *)

Section Quit.

Context `{Interpreter} `{!Inspectors}.

Lemma quit_ok args d : quit args d = Ok tt (quitted d).
Proof. reflexivity. Qed.

Lemma teardown_ok kernel d : teardown kernel d = Ok tt (tornDown kernel d).
Proof. reflexivity. Qed.

Lemma commandLoop_quit d fuel line after name rest :
  m_running d = true ->
  split_line (cin d) = Some (line, after) ->
  tokenize line = name :: rest ->
  findCommand name = Some Cquit ->
  commandLoop (S (S fuel)) d = Ok tt (quitted (prompted after d)).
Proof.
  intros Hrun Hline Htok Hcmd.
  cbn [commandLoop]. rewrite bind_gets, Hrun. cbn [negb]. cbv iota.
  rewrite (bind_ok _ _ d tt (set_cout (write [IS "(oclgrind) "] (cout d)) d))
    by reflexivity.
  rewrite (bind_ok _ _ _ (line, false) (prompted after d)).
  2:{ unfold getline. rewrite bind_gets. cbn [cin set_cout]. rewrite Hline. reflexivity. }
  cbv iota. rewrite Htok, Hcmd.
  rewrite (bind_ok _ _ _ tt (quitted (prompted after d))) by reflexivity.
  reflexivity.
Qed.

(** C6 (amended).  When the line read at the prompt is the [quit]
    command, the command loop ends with interactive mode left, [m_running]
    reset and the breakpoints cleared; [run] then goes straight to its
    clean-up: the global memory is what it was at the prompt (constants
    deallocated, synchronized), no instruction is executed for the
    remaining work-items, the running groups are dropped and the pending
    pool is left as it was. *)
Theorem quit_ends_run (d : Device) (kernel : Kernel) (fuel : nat)
    (line after name : string) (rest : list string) :
  m_running d = true ->
  split_line (cin d) = Some (line, after) ->
  tokenize line = name :: rest ->
  findCommand name = Some Cquit ->
  let d' := quitted (prompted after d) in
  commandLoop (S (S fuel)) d = Ok tt d' /\
  m_interactive d' = false /\ m_running d' = false /\ m_breakpoints d' = ∅ /\
  (catchFatal (commandLoop (S (S fuel))) reportFatal ;; teardown kernel) d
    = Ok tt (tornDown kernel d') /\
  m_globalMemory (tornDown kernel d')
    = memory_synchronize (kernel_deallocateConstants kernel (m_globalMemory d)) /\
  m_runningGroups (tornDown kernel d') = [] /\
  m_currentWorkGroup (tornDown kernel d') = None /\
  m_pendingGroups (tornDown kernel d') = m_pendingGroups d.
Proof.
  intros Hrun Hline Htok Hcmd d'.
  pose proof (commandLoop_quit d fuel line after name rest Hrun Hline Htok Hcmd)
    as Hloop.
  split; [exact Hloop|].
  repeat (split; [reflexivity|]).
  split; [|repeat split; reflexivity].
  unfold bind, catchFatal. rewrite Hloop. reflexivity.
Qed.

End Quit.

(** ** More on the decoding of linear indices *)

Section Decoding.

(** X1.  For a one-dimensional index space (sizes [size], 1, 1) the
    decoding of [notifyDataRace] is exact: an index below [size] decodes
    to (index, 0, 0), a point of the index space whose row-major index
    is the index again. *)
Theorem delinearize_one_dimension (size index : Z) :
  0 <= index < size -> size <= SizeT.modulus ->
  delinearize (V3 size 1 1) index = Some (V3 index 0 0) /\
  linearize_rowmajor (V3 size 1 1) (V3 index 0 0) = index /\
  in_box (V3 size 1 1) (V3 index 0 0).
Proof.
  intros Hi Hs. split; [|split].
  - unfold delinearize, SizeT.rem, SizeT.div. cbn [v0 v1 v2].
    destruct (Z.eqb_spec size 0); [lia|]. cbn.
    rewrite (Z.mod_small index size) by lia.
    unfold SizeT.sub, SizeT.wrap.
    rewrite Z.sub_diag, Z.mod_0_l by (unfold SizeT.modulus; lia).
    rewrite !Z.div_1_r, Z.sub_0_r.
    rewrite (Z.mod_small index) by lia.
    rewrite Z.sub_diag, Z.mod_0_l by (unfold SizeT.modulus; lia).
    reflexivity.
  - unfold linearize_rowmajor. cbn. lia.
  - unfold in_box. cbn. lia.
Qed.

(** X2.  Whatever the sizes, the decoding gets the first component
    right: the row-major index of a point of the index space (an index
    that fits [size_t]) decodes to a triple with the point's x. *)
Theorem delinearize_first_component (n g : size3) :
  in_box n g ->
  linearize_rowmajor n g < SizeT.modulus ->
  exists gy gz,
    delinearize n (linearize_rowmajor n g) = Some (V3 (v0 g) gy gz).
Proof.
  intros (H0 & H1 & H2) _.
  unfold delinearize, SizeT.rem, SizeT.div, linearize_rowmajor.
  destruct (Z.eqb_spec (v0 n) 0); [lia|].
  destruct (Z.eqb_spec (v1 n) 0); [lia|].
  destruct (Z.eqb_spec (v2 n) 0); [lia|]. cbn.
  eexists _, _. f_equal. f_equal.
  replace (v0 g + v1 g * v0 n + v2 g * v0 n * v1 n)
    with (v0 g + (v1 g + v2 g * v1 n) * v0 n) by ring.
  rewrite Z.mod_add by lia. apply Z.mod_small. lia.
Qed.

End Decoding.

(** ** More on the start of a run *)

Section Sizes.

Context `{Interpreter}.

Lemma sizes_only_refl d : sizes_only d d.
Proof.
  exists (m_globalSize d), (m_globalOffset d), (m_localSize d).
  destruct d; reflexivity.
Qed.

Lemma sizes_only_trans d1 d2 d3 :
  sizes_only d1 d2 -> sizes_only d2 d3 -> sizes_only d1 d3.
Proof.
  intros (gs & go & ls & ->) (gs' & go' & ls' & ->).
  exists gs', go', ls'. reflexivity.
Qed.

Lemma setSizes_frame globalOffset globalSize localSize i d d' :
  setSizes globalOffset globalSize localSize i d = Ok tt d' ->
  sizes_only d d'.
Proof.
  unfold setSizes, bind, gets, modify, deref, ret. intros Hrun.
  destruct (globalSize !! i) as [g|]; [|discriminate Hrun].
  destruct (v3_set (m_globalSize d) i g) as [gs|]; [|discriminate Hrun].
  destruct (globalOffset !! i) as [o|]; [|discriminate Hrun].
  destruct (localSize !! i) as [l|];
    [|destruct (decide (o <> 0)); cbn in Hrun;
      repeat match type of Hrun with
      | context [v3_set ?v i ?x] => destruct (v3_set v i x)
      end; discriminate Hrun].
  destruct (decide (o <> 0)); destruct (decide (l <> 0)); cbn in Hrun;
    repeat match type of Hrun with
    | context [v3_set ?v i ?x] =>
        destruct (v3_set v i x); [|discriminate Hrun]
    end;
    injection Hrun as <-;
    match goal with |- sizes_only _ ?d' =>
      exists (m_globalSize d'), (m_globalOffset d'), (m_localSize d')
    end; destruct d; reflexivity.
Qed.

Lemma setSizes_offset globalOffset globalSize localSize i d g o l :
  (i < 3)%nat ->
  globalSize !! i = Some g -> globalOffset !! i = Some o ->
  localSize !! i = Some l ->
  exists d',
    setSizes globalOffset globalSize localSize i d = Ok tt d' /\
    (forall j, v3_get (m_globalOffset d') j =
       if decide (j = i /\ o <> 0) then Some o
       else v3_get (m_globalOffset d) j).
Proof.
  intros Hi Hg Ho Hl.
  unfold setSizes, bind, gets, modify, deref, ret.
  rewrite Hg, Ho, Hl.
  destruct i as [|[|[|i]]]; [| | |lia]; simpl;
    destruct (decide (o <> 0)); destruct (decide (l <> 0)); simpl;
    (eexists; split; [reflexivity|]; intros [|[|[|j]]]; simpl;
     repeat case_decide; try reflexivity; try lia; intuition congruence).
Qed.

Lemma setSizes_offsets globalOffset globalSize localSize n : forall a d,
  (a + n <= 3)%nat ->
  (a + n <= length globalOffset)%nat ->
  (a + n <= length globalSize)%nat ->
  (a + n <= length localSize)%nat ->
  exists d',
    forEach (seq a n) (setSizes globalOffset globalSize localSize) d = Ok tt d' /\
    sizes_only d d' /\
    (forall j o, (a <= j < a + n)%nat -> globalOffset !! j = Some o ->
       v3_get (m_globalOffset d') j =
         if decide (o = 0) then v3_get (m_globalOffset d) j else Some o) /\
    (forall j, ~ (a <= j < a + n)%nat ->
       v3_get (m_globalOffset d') j = v3_get (m_globalOffset d) j).
Proof.
  induction n as [|n IH]; intros a d H3 Ho Hg Hl.
  - exists d. split; [reflexivity|]. split; [apply sizes_only_refl|].
    split; [intros; lia|reflexivity].
  - destruct (lookup_lt_is_Some_2 globalSize a) as [g Hga]; [lia|].
    destruct (lookup_lt_is_Some_2 globalOffset a) as [o Hoa]; [lia|].
    destruct (lookup_lt_is_Some_2 localSize a) as [l Hla]; [lia|].
    destruct (setSizes_offset globalOffset globalSize localSize a d g o l)
      as (d1 & Hstep & Hoff1); [lia|done..|].
    destruct (IH (S a) d1) as (d' & Hrest & Hframe & Hin & Hout); [lia..|].
    exists d'. split.
    { simpl seq. rewrite (forEach_cons_ok _ _ _ _ _ Hstep). exact Hrest. }
    split.
    { eapply sizes_only_trans; [|exact Hframe].
      apply (setSizes_frame _ _ _ _ _ _ Hstep). }
    split.
    + intros j oj Hj Hoj. destruct (decide (j = a)) as [->|Hne].
      * rewrite Hout by lia. rewrite Hoff1.
        assert (oj = o) as -> by congruence.
        destruct (decide (o = 0)).
        -- rewrite decide_False by tauto. reflexivity.
        -- rewrite decide_True by tauto. reflexivity.
      * rewrite (Hin j oj) by (lia || assumption).
        rewrite Hoff1.
        rewrite (decide_False (P := j = a /\ o <> 0)) by tauto.
        reflexivity.
    + intros j Hj. rewrite Hout by lia. rewrite Hoff1.
      rewrite decide_False by (intros [-> _]; lia). reflexivity.
Qed.

(** The setup phase returns and touches the work dimension, the sizes
    and the offset only. *)
Lemma setup_ok d workDim globalOffset globalSize localSize :
  0 <= workDim <= 3 ->
  (Z.to_nat workDim <= length globalOffset)%nat ->
  (Z.to_nat workDim <= length globalSize)%nat ->
  (Z.to_nat workDim <= length localSize)%nat ->
  exists d',
    setup workDim globalOffset globalSize localSize d = Ok tt d' /\
    sizes_only (set_m_workDim workDim d) d'.
Proof.
  intros Hdim Ho Hg Hl.
  destruct (setSizes_offsets globalOffset globalSize localSize
              (Z.to_nat workDim) 0%nat
              (set_m_localSize (V3 1 1 1)
                 (set_m_globalOffset (V3 0 0 0)
                    (set_m_globalSize (V3 1 1 1) (set_m_workDim workDim d)))))
    as (d' & Hrun & Hframe & _); [lia..|].
  exists d'. split; [exact Hrun|].
  eapply sizes_only_trans; [|exact Hframe].
  exists (V3 1 1 1), (V3 0 0 0), (V3 1 1 1). reflexivity.
Qed.

(** X3.  For a work dimension of at most three and arrays that long, the
    setup phase of [run] returns; it stores [workDim]; the stored offset
    is the passed one within [workDim] (the guard on a zero offset makes
    no difference) and zero outside; and apart from [m_workDim], the
    sizes and the offset the device is left as it was. *)
Theorem setup_offsets d workDim globalOffset globalSize localSize :
  0 <= workDim <= 3 ->
  (Z.to_nat workDim <= length globalOffset)%nat ->
  (Z.to_nat workDim <= length globalSize)%nat ->
  (Z.to_nat workDim <= length localSize)%nat ->
  exists d',
    setup workDim globalOffset globalSize localSize d = Ok tt d' /\
    m_workDim d' = workDim /\
    (forall i o, (i < Z.to_nat workDim)%nat -> globalOffset !! i = Some o ->
       v3_get (m_globalOffset d') i = Some o) /\
    (forall i, (Z.to_nat workDim <= i < 3)%nat ->
       v3_get (m_globalOffset d') i = Some 0) /\
    sizes_only (set_m_workDim workDim d) d'.
Proof.
  intros Hdim Ho Hg Hl.
  set (d0 := set_m_localSize (V3 1 1 1)
               (set_m_globalOffset (V3 0 0 0)
                  (set_m_globalSize (V3 1 1 1) (set_m_workDim workDim d)))).
  destruct (setSizes_offsets globalOffset globalSize localSize
              (Z.to_nat workDim) 0%nat d0)
    as (d' & Hrun & Hframe & Hin & Hout); [lia..|].
  exists d'. split; [exact Hrun|].
  split.
  { destruct Hframe as (gs & go & ls & ->). reflexivity. }
  split; [|split].
  - intros i o Hi Hoi. rewrite (Hin i o) by (lia || assumption).
    case_decide; [|reflexivity]. subst o.
    destruct i as [|[|[|i]]]; [reflexivity..|lia].
  - intros i Hi. rewrite Hout by lia.
    destruct i as [|[|[|i]]]; [reflexivity..|lia].
  - eapply sizes_only_trans; [|exact Hframe].
    exists (V3 1 1 1), (V3 0 0 0), (V3 1 1 1). reflexivity.
Qed.

End Sizes.

Section Allocation.

Context `{Interpreter} `{!Inspectors}.

(** X4.  When the kernel's constants cannot be allocated, [run] reports
    the fatal error with the kernel's name on [cerr] and returns at once:
    no work-group is enqueued, no kernel is set, no work-item becomes
    current and nothing goes to the standard output. *)
Theorem run_allocation_fails d kernel workDim globalOffset globalSize
    localSize err fuel :
  m_runningGroups d = [] ->
  0 <= workDim <= 3 ->
  (Z.to_nat workDim <= length globalOffset)%nat ->
  (Z.to_nat workDim <= length globalSize)%nat ->
  (Z.to_nat workDim <= length localSize)%nat ->
  kernel_allocateConstants kernel (m_globalMemory d) = inl err ->
  exists d',
    run fuel kernel workDim globalOffset globalSize localSize d = Ok tt d' /\
    cerr d' =
      write [Iendl; IS "OCLGRIND FATAL ERROR "; IS "("; IS (err_file err);
             IS ":"; IN (err_line err); IS ")"; Iendl; IS (err_what err);
             Iendl; IS "When allocating kernel constants for '";
             IS (kernel_getName kernel); IS "'"; Iendl] (cerr d) /\
    m_pendingGroups d' = m_pendingGroups d /\
    m_kernel d' = m_kernel d /\
    m_currentWorkItem d' = m_currentWorkItem d /\
    cout d' = cout d.
Proof.
  intros Hr Hdim Ho Hg Hl Halloc.
  destruct (setup_ok d workDim globalOffset globalSize localSize Hdim Ho Hg Hl)
    as (d1 & Hsetup & gs & go & ls & Hd1).
  eexists. split.
  - unfold run, startRun. unfold bind at 1. rewrite bind_gets, Hr.
    cbn [is_nil negb].
    rewrite (bind_ok _ _ _ _ _ Hsetup). rewrite bind_gets.
    replace (m_globalMemory d1) with (m_globalMemory d)
      by (rewrite Hd1; reflexivity).
    rewrite Halloc.
    rewrite (bind_ok _ _ _ _ _ (to_cerr_ok _ _)). reflexivity.
  - rewrite Hd1. repeat split.
Qed.

End Allocation.

Section Source.

Context `{Interpreter}.

Lemma append_cons c (a b : string) : String c a +:+ b = String c (a +:+ b).
Proof. reflexivity. Qed.

Lemma append_assoc_char (a : string) c (b : string) :
  (a +:+ String c EmptyString) +:+ b = a +:+ String c b.
Proof.
  induction a as [|x a IH]; [reflexivity|].
  rewrite !append_cons. f_equal. exact IH.
Qed.

Lemma append_empty (a : string) : a +:+ EmptyString = a.
Proof.
  induction a as [|x a IH]; [reflexivity|].
  rewrite append_cons. f_equal. exact IH.
Qed.

Lemma lines_from_line line : forall current text,
  free_of newline line ->
  lines_from (line +:+ String newline text) current
  = (current +:+ line) :: lines_from text EmptyString.
Proof.
  induction line as [|c line IH]; intros current text Hfree.
  - change (EmptyString +:+ String newline text) with (String newline text).
    cbn [lines_from]. rewrite decide_True by reflexivity.
    rewrite append_empty. reflexivity.
  - destruct Hfree as [Hc Hfree]. rewrite append_cons.
    cbn [lines_from]. rewrite decide_False by exact Hc.
    rewrite IH by exact Hfree. f_equal.
    apply append_assoc_char.
Qed.

(** X5.  Splitting is the inverse of joining: for lines that hold no
    newline, the source text made of each line followed by a newline is
    split by [run] into exactly those lines (empty ones included). *)
Theorem lines_from_unlines lines :
  Forall (free_of newline) lines ->
  lines_from (unlines lines) EmptyString = lines.
Proof.
  induction 1 as [|line lines Hline Hlines IH]; [reflexivity|].
  cbn [unlines foldr]. rewrite lines_from_line by exact Hline.
  fold (unlines lines). rewrite IH. reflexivity.
Qed.

End Source.

(** ** More on stepping and [continue] *)

Section Batch.

Context `{Interpreter}.

Lemma scheduler_only_refl d : scheduler_only d d.
Proof. repeat split. Qed.

Lemma scheduler_only_trans d1 d2 d3 :
  scheduler_only d1 d2 -> scheduler_only d2 d3 -> scheduler_only d1 d3.
Proof.
  unfold scheduler_only. intros (?&?&?&?&?&?&?&?) (?&?&?&?&?&?&?&?).
  repeat split; congruence.
Qed.

Lemma nextWorkItem_no_kernel f d p rest :
  m_currentWorkGroup d = None -> m_runningGroups d = [] ->
  m_pendingGroups d = p :: rest -> m_kernel d = None ->
  nextWorkItem (S f) d = Undefined.
Proof.
  intros Hcur Hr Hp Hk.
  cbn [nextWorkItem]. unfold bind at 1. unfold modify at 1.
  unfold resumeCurrentGroup. unfold bind at 1. rewrite bind_gets.
  cbn [m_currentWorkGroup set_m_currentWorkItem]. rewrite Hcur.
  unfold ret at 1. cbv iota beta.
  unfold takeNextGroup. unfold bind at 1. rewrite bind_gets.
  cbn [m_runningGroups set_m_currentWorkItem]. rewrite Hr.
  rewrite bind_gets. cbn [m_pendingGroups set_m_currentWorkItem]. rewrite Hp.
  unfold bind at 1. unfold modify at 1.
  unfold createWorkGroup. unfold bind at 1. rewrite bind_gets.
  cbn [m_kernel set_m_currentWorkItem set_m_pendingGroups]. rewrite Hk.
  reflexivity.
Qed.

(** Where [nextWorkItem] leaves the scheduler. *)
Lemma nextWorkItem_result : forall fuel d b d',
  nextWorkItem fuel d = Ok b d' ->
  scheduler_only d d' /\
  if b : bool then is_Some (m_currentWorkItem d')
  else nothing_left d' /\ m_currentWorkItem d' = None.
Proof.
  induction fuel as [|f IH]; intros d b d' Hrun; [discriminate|].
  assert (Hnone : forall d b d',
    m_currentWorkGroup d = None -> nextWorkItem (S f) d = Ok b d' ->
    scheduler_only d d' /\
    if b : bool then is_Some (m_currentWorkItem d')
    else nothing_left d' /\ m_currentWorkItem d' = None).
  { clear d b d' Hrun. intros d b d' Hcur Hrun.
    destruct (m_runningGroups d) as [|g rest] eqn:Hr.
    - destruct (m_pendingGroups d) as [|p prest] eqn:Hp.
      + rewrite (nextWorkItem_empty f d Hcur Hr Hp) in Hrun.
        injection Hrun as <- <-. split; [repeat split|].
        split; [|reflexivity]. repeat split; assumption.
      + destruct (m_kernel d) as [k|] eqn:Hk.
        * rewrite (nextWorkItem_pending f d p prest k Hcur Hr Hp Hk) in Hrun.
          cbv zeta in Hrun.
          destruct (getNextWorkItem _) as [i|].
          -- injection Hrun as <- <-. split; [repeat split; assumption|]. eauto.
          -- apply IH in Hrun as [Hframe Hres]. split; [|exact Hres].
             eapply scheduler_only_trans; [|exact Hframe].
             repeat split; assumption.
        * rewrite (nextWorkItem_no_kernel f d p prest Hcur Hr Hp Hk) in Hrun.
          discriminate.
    - rewrite (nextWorkItem_running f d g rest Hcur Hr) in Hrun.
      cbv zeta in Hrun.
      destruct (getNextWorkItem g) as [i|].
      + injection Hrun as <- <-. split; [repeat split|]. eauto.
      + apply IH in Hrun as [Hframe Hres]. split; [|exact Hres].
        eapply scheduler_only_trans; [|exact Hframe]. repeat split. }
  destruct (m_currentWorkGroup d) as [g|] eqn:Hcur; [|apply Hnone; assumption].
  destruct (getNextWorkItem g) as [i|] eqn:Hnext.
  - rewrite (nextWorkItem_ready f d g i Hcur Hnext) in Hrun.
    injection Hrun as <- <-. split; [repeat split|]. eauto.
  - destruct (hasBarrier g) eqn:Hb.
    + rewrite (nextWorkItem_barrier f d g Hcur Hnext Hb) in Hrun.
      injection Hrun as <- <-. split; [repeat split|].
      apply clearBarrier_ready. exact Hb.
    + rewrite (nextWorkItem_finished f d g Hcur Hnext Hb) in Hrun.
      apply Hnone in Hrun as [Hframe Hres]; [|reflexivity].
      split; [|exact Hres].
      eapply scheduler_only_trans; [|exact Hframe]. repeat split.
Qed.

Lemma afterStep_batch d canBreak :
  m_interactive d = false -> afterStep canBreak d = Ok (Continue canBreak) d.
Proof. intros Hi. unfold afterStep. rewrite bind_gets, Hi. reflexivity. Qed.

(** Not interactive, the inner loop of [cont] never returns from
    [cont], and prints nothing. *)
Lemma runWorkItem_batch : forall fuel canBreak d flow d',
  m_interactive d = false ->
  runWorkItem fuel canBreak d = Ok flow d' ->
  flow = Continue canBreak /\
  m_interactive d' = false /\ m_running d' = m_running d /\
  cout d' = cout d /\ cin d' = cin d /\
  m_currentWorkItem d' = m_currentWorkItem d.
Proof.
  induction fuel as [|f IH]; intros canBreak d flow d' Hi Hrun; [discriminate|].
  cbn [runWorkItem] in Hrun. unfold bind at 1 in Hrun.
  destruct (currentWorkItem d) as [p d0| | |] eqn:Hp; try discriminate.
  rewrite currentWorkItem_pointee in Hp.
  destruct (pointee d) as [q|]; [|discriminate]. injection Hp as -> <-.
  destruct p as [wi|]; [|discriminate]. cbn [deref] in Hrun.
  unfold bind at 1, ret at 1 in Hrun. rewrite bind_gets in Hrun.
  destruct (bool_decide (wi_state wi = READY) && m_running d).
  - unfold bind at 1 in Hrun.
    destruct (stepWorkItem d) as [st d1| | |] eqn:Hstep; try discriminate.
    destruct (stepWorkItem_debugger _ _ _ Hstep)
      as (Hi1 & Hrun1 & _ & _ & _ & Hcout1).
    destruct (stepWorkItem_shape _ _ _ Hstep)
      as (i & g & wi0 & wi' & global' & local' & o & fb & Hcwi & _ & _ & _ & Hd1).
    rewrite (bind_ok _ _ _ _ _ (afterStep_batch d1 canBreak ltac:(congruence)))
      in Hrun.
    apply IH in Hrun as (Hflow & Hi' & Hrun' & Hcout' & Hcin' & Hcwi');
      [|congruence].
    split; [exact Hflow|]. split; [exact Hi'|].
    split; [congruence|]. split; [congruence|].
    split; [rewrite Hcin', Hd1; reflexivity|].
    rewrite Hcwi', Hd1. reflexivity.
  - injection Hrun as <- <-. repeat split; try reflexivity. exact Hi.
Qed.

Lemma contLoop_batch : forall fuel canBreak d returned d',
  m_interactive d = false -> m_running d = true ->
  contLoop fuel canBreak d = Ok returned d' ->
  returned = false /\ m_currentWorkItem d' = None /\
  m_interactive d' = false /\ m_running d' = true /\
  cout d' = cout d /\ cin d' = cin d /\
  (m_currentWorkItem d <> None -> nothing_left d').
Proof.
  induction fuel as [|f IH]; intros canBreak d returned d' Hi Hr Hrun;
    [discriminate|].
  rewrite contLoop_S, !bind_gets, Hr in Hrun.
  destruct (m_currentWorkItem d) as [i|] eqn:Hcwi.
  - rewrite bool_decide_true in Hrun by eauto. cbn [andb] in Hrun.
    unfold bind at 1 in Hrun.
    destruct (runWorkItem f canBreak d) as [flow d1| | |] eqn:Hinner;
      try discriminate.
    apply runWorkItem_batch in Hinner
      as (-> & Hi1 & Hr1 & Hcout1 & Hcin1 & _); [|exact Hi].
    unfold bind at 1 in Hrun.
    destruct (nextWorkItemNow d1) as [b d2| | |] eqn:Hnext; try discriminate.
    unfold nextWorkItemNow, bind, get in Hnext.
    apply nextWorkItem_result in Hnext
      as ((Hi2 & Hr2 & Hcout2 & Hcin2 & _) & Hres).
    assert (Hrest := Hrun).
    apply IH in Hrun as (Hret & Hnone & Hi' & Hr' & Hcout' & Hcin' & Hleft);
      [|congruence..].
    split; [exact Hret|]. split; [exact Hnone|]. split; [exact Hi'|].
    split; [exact Hr'|]. split; [congruence|]. split; [congruence|].
    intros _. destruct b.
    + apply Hleft. destruct Hres as [j Hj]. congruence.
    + destruct Hres as [Hnothing Hcwi2].
      destruct f as [|f']; [discriminate|].
      rewrite contLoop_S, !bind_gets, Hcwi2 in Hrest.
      rewrite bool_decide_false in Hrest by (intros [? ?]; discriminate).
      injection Hrest as _ <-. exact Hnothing.
  - rewrite bool_decide_false in Hrun by (intros [? ?]; discriminate).
    injection Hrun as <- <-.
    split; [reflexivity|]. split; [exact Hcwi|]. split; [exact Hi|].
    split; [exact Hr|]. split; [reflexivity|]. split; [reflexivity|]. done.
Qed.

(** X7.  When the device is not interactive and [continue] returns, no
    work-item is current, [m_running] is reset, nothing was printed or
    read, and, if there was a current work-item to start with, no group
    is left: none current, none running, none pending. *)
Theorem cont_runs_everything d args fuel d' :
  m_interactive d = false ->
  cont fuel args d = Ok tt d' ->
  m_currentWorkItem d' = None /\ m_running d' = false /\
  cout d' = cout d /\ cin d' = cin d /\
  (m_currentWorkItem d <> None -> nothing_left d').
Proof.
  intros Hi Hrun. unfold cont in Hrun.
  unfold bind at 1, modify at 1 in Hrun.
  unfold bind at 1, modify at 1 in Hrun.
  unfold bind at 1 in Hrun.
  destruct (contLoop fuel false _) as [returned d1| | |] eqn:Hloop;
    try discriminate.
  apply contLoop_batch in Hloop
    as (-> & Hnone & _ & _ & Hcout & Hcin & Hleft); [|exact Hi|reflexivity].
  injection Hrun as <-.
  split; [exact Hnone|]. split; [reflexivity|]. split; [exact Hcout|].
  split; [exact Hcin|]. exact Hleft.
Qed.

End Batch.

Section Errors.

Context `{Interpreter}.

Lemma bind_last {A} (c : M Device A) (k : A -> M Device unit) d d'
    (P : Device -> Prop) :
  (forall a d1, k a d1 = Ok tt d' -> P d') ->
  bind c k d = Ok tt d' -> P d'.
Proof.
  intros Hk. unfold bind. destruct (c d) as [a d1| | |]; try discriminate.
  apply Hk.
Qed.

Lemma notify_breaks n d d' : notify n d = Ok tt d' -> m_forceBreak d' = true.
Proof.
  destruct n as
    [ read addrSpace address size
    | type addrSpace address lastWorkItem lastWorkGroup lastInstruction
    | instruction divergence currentInfo previousInfo
    | error message ]; simpl.
  - unfold notifyMemoryError.
    repeat (apply (bind_last _ _ _ _ (fun x => m_forceBreak x = true));
            intros [] ?).
    intros [= <-]. reflexivity.
  - unfold notifyDataRace.
    repeat (apply (bind_last _ _ _ _ (fun x => m_forceBreak x = true));
            intros [] ?).
    intros [= <-]. reflexivity.
  - unfold notifyDivergence.
    repeat (apply (bind_last _ _ _ _ (fun x => m_forceBreak x = true));
            intros [] ?).
    intros [= <-]. reflexivity.
  - unfold notifyError.
    repeat (apply (bind_last _ _ _ _ (fun x => m_forceBreak x = true));
            intros [] ?).
    intros [= <-]. reflexivity.
Qed.

Lemma notes_break notes : forall d d',
  forEach notes notify d = Ok tt d' -> notes <> [] -> m_forceBreak d' = true.
Proof.
  induction notes as [|n notes IH]; intros d d' Hrun Hne; [done|].
  simpl in Hrun. unfold bind in Hrun.
  destruct (notify n d) as [[] d1| | |] eqn:Hn; try discriminate.
  destruct notes as [|m notes].
  - injection Hrun as <-. apply (notify_breaks _ _ _ Hn).
  - apply (IH d1 d' Hrun). discriminate.
Qed.

(** One instruction of the current work-item, given what the interpreter
    answers. *)
Lemma stepWorkItem_done d i g wi global' local' wi' notes st d1 :
  m_currentWorkItem d = Some i -> m_currentWorkGroup d = Some g ->
  wg_items g !! i = Some wi ->
  workitem_step (m_globalMemory d) (wg_localMemory g) wi
    = StepDone global' local' wi' notes ->
  stepWorkItem d = Ok st d1 ->
  exists d0,
    forEach notes notify d = Ok tt d0 /\ st = wi_state wi' /\
    d1 = set_m_currentWorkGroup (Some (replaceItem g i wi' local'))
           (set_m_globalMemory global' d0).
Proof.
  intros Hi Hg Hwi Hstep.
  unfold stepWorkItem. rewrite !bind_gets, Hi. cbn [deref].
  unfold ret at 1. unfold bind at 1. rewrite bind_gets, Hg. cbn [deref].
  unfold ret at 1. unfold bind at 1. rewrite Hwi. cbn [deref].
  unfold ret at 1. unfold bind at 1. rewrite bind_gets, Hstep.
  unfold bind at 1.
  destruct (forEach notes notify d) as [[] d0| | |]; try discriminate.
  intros [= <- <-]. exists d0. auto.
Qed.

(** X8.  In interactive mode, when the next instruction of the ready
    current work-item makes the interpreter send a notification,
    [continue] returns right after that instruction: the device stays
    running with the break request reset and the list position at zero,
    the work-item has advanced by that one instruction, no breakpoint is
    looked at, nothing is printed and the pools are as before. *)
Theorem cont_stops_at_error d args i g wi global' local' wi' notes st d1 fuel :
  m_interactive d = true ->
  m_currentWorkItem d = Some i -> m_currentWorkGroup d = Some g ->
  wg_items g !! i = Some wi -> wi_state wi = READY ->
  workitem_step (m_globalMemory d) (wg_localMemory g) wi
    = StepDone global' local' wi' notes ->
  notes <> [] ->
  stepWorkItem (set_m_running true (set_m_forceBreak false d)) = Ok st d1 ->
  let d' := set_m_forceBreak false (set_m_listPosition 0 d1) in
  cont (S (S fuel)) args d = Ok tt d' /\
  m_running d' = true /\
  m_globalMemory d' = global' /\
  pointee d' = Some (Some wi') /\
  cout d' = cout d /\ lastBreakLine d' = lastBreakLine d /\
  m_runningGroups d' = m_runningGroups d /\
  m_pendingGroups d' = m_pendingGroups d.
Proof.
  intros Hint Hi Hg Hwi Hready Hstep Hnotes Hrun d'.
  set (d0 := set_m_running true (set_m_forceBreak false d)) in *.
  assert (Hp0 : pointee d0 = Some (Some wi)).
  { unfold pointee. cbn. rewrite Hi, Hg. cbn. rewrite Hwi. reflexivity. }
  destruct (stepWorkItem_done d0 i g wi global' local' wi' notes st d1
              Hi Hg Hwi Hstep Hrun) as (dn & Hn & Hst & Hd1).
  pose proof (notes_break _ _ _ Hn Hnotes) as Hfb.
  destruct (notes_frame _ _ _ Hn) as (o & fb & Hdn).
  assert (Hfb1 : m_forceBreak d1 = true) by (rewrite Hd1; exact Hfb).
  assert (Hint1 : m_interactive d1 = true) by (rewrite Hd1, Hdn; exact Hint).
  assert (Hflow : runWorkItem (S fuel) false d0 = Ok Returned d').
  { rewrite (runWorkItem_step d0 wi st d1 fuel false Hp0 Hready eq_refl Hrun).
    assert (Hafter : afterStep false d1 = Ok Returned d').
    { unfold afterStep. rewrite bind_gets, Hint1. cbn [negb].
      rewrite bind_gets, Hfb1. reflexivity. }
    rewrite (bind_ok _ _ _ _ _ Hafter). reflexivity. }
  split.
  { assert (Hloop : contLoop (S (S fuel)) false d0 = Ok true d').
    { rewrite contLoop_S.
      rewrite bind_gets. change (m_currentWorkItem d0) with (m_currentWorkItem d).
      rewrite Hi. rewrite bind_gets. change (m_running d0) with true.
      rewrite bool_decide_true by eauto. cbn [andb].
      rewrite (bind_ok _ _ _ _ _ Hflow). reflexivity. }
    unfold cont. unfold bind at 1. unfold modify at 1.
    unfold bind at 1. unfold modify at 1. fold d0.
    rewrite (bind_ok _ _ _ _ _ Hloop). reflexivity. }
  subst d'. rewrite Hd1, Hdn. repeat split.
  unfold pointee. cbn. rewrite Hi. cbn.
  rewrite list_lookup_insert_eq; [reflexivity|].
  apply lookup_lt_is_Some_1. eauto.
Qed.

End Errors.

Section Fatal.

Context `{Interpreter} `{!Inspectors}.

Lemma stepWorkItem_throws d i g wi e :
  m_currentWorkItem d = Some i -> m_currentWorkGroup d = Some g ->
  wg_items g !! i = Some wi ->
  workitem_step (m_globalMemory d) (wg_localMemory g) wi = StepThrow e ->
  stepWorkItem d = Throw e d.
Proof.
  intros Hi Hg Hwi Hstep.
  unfold stepWorkItem. rewrite !bind_gets, Hi. cbn [deref].
  unfold ret at 1. unfold bind at 1. rewrite bind_gets, Hg. cbn [deref].
  unfold ret at 1. unfold bind at 1. rewrite Hwi. cbn [deref].
  unfold ret at 1. unfold bind at 1. rewrite bind_gets, Hstep.
  reflexivity.
Qed.

Lemma bind_throw {A B} (c : M Device A) (k : A -> M Device B) d e d' :
  c d = Throw e d' -> bind c k d = Throw e d'.
Proof. intros Hc. unfold bind. rewrite Hc. reflexivity. Qed.

Lemma reportFatal_ok d p e :
  pointee d = Some p ->
  reportFatal e d =
    Ok tt (emit ([Iendl; IS "OCLGRIND FATAL ERROR "; IS "("; IS (err_file e);
                  IS ":"; IN (err_line e); IS ")"; Iendl; IS (err_what e);
                  Iendl]
                 ++ errorContext p (m_currentWorkGroup d) (m_kernel d)
                 ++ [Iendl]) d).
Proof.
  intros Hp. unfold reportFatal.
  rewrite (bind_ok _ _ _ _ _ (to_cerr_ok _ _)).
  erewrite bind_ok by (apply printErrorContext_emit; exact Hp).
  rewrite to_cerr_ok, !emit_emit. reflexivity.
Qed.

(** X9.  Not interactive, when the interpreter raises a fatal error at
    the next instruction of the ready current work-item, [run] catches
    it: the error and the error context go to [cerr], the current and
    the running work-groups are destroyed, the constants deallocated and
    the memory synchronized.  The pending work-groups stay in the pool
    and [m_running] stays set. *)
Theorem fatal_error_ends_run d kernel i g wi e fuel :
  m_interactive d = false ->
  m_currentWorkItem d = Some i -> m_currentWorkGroup d = Some g ->
  wg_items g !! i = Some wi -> wi_state wi = READY ->
  workitem_step (m_globalMemory d) (wg_localMemory g) wi = StepThrow e ->
  let report :=
    [Iendl; IS "OCLGRIND FATAL ERROR "; IS "("; IS (err_file e); IS ":";
     IN (err_line e); IS ")"; Iendl; IS (err_what e); Iendl]
    ++ errorContext (Some wi) (Some g) (m_kernel d) ++ [Iendl] in
  let d' :=
    tornDown kernel
      (emit report (set_m_running true (set_m_forceBreak false d))) in
  (catchFatal (debugOrRun (S (S fuel))) reportFatal ;; teardown kernel) d
    = Ok tt d' /\
  m_pendingGroups d' = m_pendingGroups d /\
  m_runningGroups d' = [] /\ m_currentWorkGroup d' = None /\
  m_kernel d' = None /\ m_running d' = true /\ cout d' = cout d /\
  m_globalMemory d' =
    memory_synchronize (kernel_deallocateConstants kernel (m_globalMemory d)).
Proof.
  intros Hint Hi Hg Hwi Hready Hstep report d'.
  split; [|repeat split].
  set (d0 := set_m_running true (set_m_forceBreak false d)).
  assert (Hp0 : pointee d0 = Some (Some wi)).
  { unfold pointee. cbn. rewrite Hi, Hg. cbn. rewrite Hwi. reflexivity. }
  assert (Hthrow : stepWorkItem d0 = Throw e d0)
    by (apply (stepWorkItem_throws d0 i g wi e); assumption).
  assert (Hinner : runWorkItem (S fuel) false d0 = Throw e d0).
  { cbn [runWorkItem]. unfold bind at 1.
    rewrite currentWorkItem_pointee, Hp0. cbn [deref].
    unfold bind at 1, ret at 1. rewrite bind_gets.
    rewrite bool_decide_true by exact Hready.
    change (m_running d0) with true. cbn [andb].
    apply bind_throw. exact Hthrow. }
  assert (Hloop : contLoop (S (S fuel)) false d0 = Throw e d0).
  { rewrite contLoop_S, !bind_gets.
    change (m_currentWorkItem d0) with (m_currentWorkItem d). rewrite Hi.
    rewrite bool_decide_true by eauto.
    change (m_running d0) with true. cbn [andb].
    apply bind_throw. exact Hinner. }
  assert (Hcont : cont (S (S fuel)) [] d = Throw e d0).
  { unfold cont. unfold bind at 1, modify at 1.
    unfold bind at 1, modify at 1. apply bind_throw. exact Hloop. }
  assert (Htry : debugOrRun (S (S fuel)) d = Throw e d0).
  { unfold debugOrRun. rewrite bind_gets, Hint.
    apply bind_throw. apply bind_throw. exact Hcont. }
  unfold bind at 1. unfold catchFatal. rewrite Htry.
  rewrite (reportFatal_ok d0 (Some wi) e Hp0).
  change (m_currentWorkGroup d0) with (m_currentWorkGroup d).
  change (m_kernel d0) with (m_kernel d). rewrite Hg.
  apply teardown_ok.
Qed.

End Fatal.

(** ** More on breakpoints *)

Section Breakpoints.

Context `{Interpreter}.

Lemma to_cout_ok items d : to_cout items d = Ok tt (said items d).
Proof. reflexivity. Qed.

Lemma set_m_breakpoints_id d : set_m_breakpoints (m_breakpoints d) d = d.
Proof. destruct d; reflexivity. Qed.

Lemma programBreakpoints_touch d :
  programBreakpoints d = Ok (breakpointsHere d) (set_m_breakpoints (touched d) d).
Proof.
  unfold programBreakpoints, touched, breakpointsHere.
  rewrite !bind_gets.
  destruct (m_breakpoints d !! programKey (m_program d)) as [bps|]; simpl.
  - unfold ret. rewrite set_m_breakpoints_id. reflexivity.
  - reflexivity.
Qed.

Lemma touched_lookup d k :
  default [] (touched d !! k) = breakpointsOf d k.
Proof.
  unfold touched, breakpointsOf.
  destruct (m_breakpoints d !! programKey (m_program d)) as [bps|] eqn:Hk;
    [reflexivity|].
  destruct (decide (k = programKey (m_program d))) as [->|Hne].
  - rewrite lookup_insert_eq, Hk. reflexivity.
  - rewrite lookup_insert_ne by congruence. reflexivity.
Qed.

Lemma insert_touched d l :
  <[programKey (m_program d) := l]> (touched d)
  = <[programKey (m_program d) := l]> (m_breakpoints d).
Proof.
  unfold touched.
  destruct (m_breakpoints d !! programKey (m_program d)); [reflexivity|].
  apply insert_insert_eq.
Qed.

Lemma touched_is_Some d :
  is_Some (touched d !! programKey (m_program d)).
Proof.
  unfold touched.
  destruct (m_breakpoints d !! programKey (m_program d)) as [l|] eqn:Hk.
  - rewrite Hk. eauto.
  - rewrite lookup_insert_eq. eauto.
Qed.

Lemma breakpointsOf_with d l k :
  breakpointsOf (withBreakpoints l d) k =
    if decide (k = programKey (m_program d)) then l else breakpointsOf d k.
Proof.
  unfold breakpointsOf, withBreakpoints. cbn.
  case_decide as Hk.
  - subst k. rewrite lookup_insert_eq. reflexivity.
  - rewrite lookup_insert_ne by congruence. reflexivity.
Qed.

(** Setting the breakpoints of the current program, as [brk] and [del]
    do it: first [m_breakpoints[m_program]] is read, then written. *)
Lemma update_ok d (f : list (Z * Z) -> list (Z * Z)) :
  (let* bps := programBreakpoints in setProgramBreakpoints (f bps)) d
  = Ok tt (withBreakpoints (f (breakpointsHere d)) d).
Proof.
  rewrite (bind_ok _ _ _ _ _ (programBreakpoints_touch d)).
  unfold setProgramBreakpoints, withBreakpoints. rewrite bind_gets.
  unfold modify. cbn. rewrite insert_touched. reflexivity.
Qed.

Lemma bp_line_insert id line l : bp_line id (bp_insert id line l) = Some line.
Proof.
  unfold bp_line. induction l as [|[i v] l IH]; simpl.
  - rewrite Z.eqb_refl. reflexivity.
  - destruct (Z.ltb_spec id i); simpl.
    + rewrite Z.eqb_refl. reflexivity.
    + destruct (Z.eqb_spec id i); simpl.
      * rewrite Z.eqb_refl. reflexivity.
      * destruct (Z.eqb_spec i id); [lia|]. exact IH.
Qed.

Lemma bp_erase_absent id l : bp_count id l = false -> bp_erase id l = l.
Proof.
  unfold bp_count, bp_erase. induction l as [|[j w] l IH]; simpl; [done|].
  intros Hc. apply orb_false_iff in Hc as [Hj Hc].
  rewrite Hj. simpl. f_equal. auto.
Qed.

Lemma bp_erase_insert id line l :
  bp_count id l = false -> bp_erase id (bp_insert id line l) = l.
Proof.
  induction l as [|[i v] l IH]; intros Hc.
  - unfold bp_erase. simpl. rewrite Z.eqb_refl. reflexivity.
  - pose proof (bp_erase_absent id _ Hc) as Hl.
    unfold bp_count in Hc. simpl in Hc.
    apply orb_false_iff in Hc as [Hi Hc].
    simpl. destruct (Z.ltb_spec id i).
    + unfold bp_erase in *. simpl in *. rewrite Z.eqb_refl. simpl. exact Hl.
    + destruct (Z.eqb_spec id i).
      * subst. rewrite Z.eqb_refl in Hi. discriminate.
      * unfold bp_erase in *. simpl in *. rewrite Hi in *. simpl in *.
        f_equal. apply IH. exact Hc.
Qed.

Lemma bp_count_insert id line l : bp_count id (bp_insert id line l) = true.
Proof.
  unfold bp_count. induction l as [|[i v] l IH]; simpl.
  - rewrite Z.eqb_refl. reflexivity.
  - destruct (Z.ltb_spec id i); simpl.
    + rewrite Z.eqb_refl. reflexivity.
    + destruct (Z.eqb_spec id i); simpl.
      * rewrite Z.eqb_refl. reflexivity.
      * rewrite IH. apply orb_true_r.
Qed.

(** What [brk] does once it has a line to break on. *)
Lemma brk_installs d p args line :
  pointee d = Some p ->
  m_sourceLines d <> [] ->
  Z.of_nat (length (m_sourceLines d)) + 1 < SizeT.modulus ->
  (exists cmd arg rest,
     args = cmd :: arg :: rest /\ extract_size_t arg = (line, true) /\
     1 <= line <= Z.of_nat (length (m_sourceLines d)) + 1) \/
  (length args <= 1)%nat /\ line = currentLine d /\ line <> 0 ->
  brk args d =
    Ok tt (withBreakpoints
             (bp_insert (m_nextBreakpoint d) line (breakpointsHere d))
             (set_m_nextBreakpoint (SizeT.add (m_nextBreakpoint d) 1) d)).
Proof.
  intros Hp Hsrc Hsize Hargs.
  assert (Hline : line <> 0) by (destruct Hargs as [(?&?&?&?&?&?)|(?&?&?)]; lia).
  assert (Hi :
    (let* bps := programBreakpoints in
     let* id := gets m_nextBreakpoint in
     modify (set_m_nextBreakpoint (SizeT.add id 1)) ;;
     setProgramBreakpoints (bp_insert id line bps)) d
    = Ok tt (withBreakpoints
               (bp_insert (m_nextBreakpoint d) line (breakpointsHere d))
               (set_m_nextBreakpoint (SizeT.add (m_nextBreakpoint d) 1) d))).
  { rewrite (bind_ok _ _ _ _ _ (programBreakpoints_touch d)).
    rewrite bind_gets. unfold setProgramBreakpoints, withBreakpoints.
    unfold bind, modify, gets. cbn. rewrite insert_touched. reflexivity. }
  unfold brk. rewrite bind_gets.
  destruct (m_sourceLines d) as [|s0 src] eqn:Hs; [done|]. cbn [is_nil].
  rewrite (bind_ok _ _ _ _ _ (getCurrentLineNumber_ok d p Hp)).
  destruct Hargs as [(cmd & arg & rest & -> & Hx & Hlo & Hhi)|(Hlen & -> & _)].
  - rewrite Hx. cbn [negb orb].
    destruct (Z.eqb_spec line 0); [lia|]. cbn [orb].
    unfold SizeT.add at 1, SizeT.wrap at 1.
    rewrite Z.mod_small by (unfold SizeT.modulus in *; lia).
    destruct (Z.gtb_spec line (Z.of_nat (length (s0 :: src)) + 1)); [lia|].
    cbn [negb]. exact Hi.
  - destruct (Z.eqb_spec (currentLine d) 0); [lia|].
    destruct args as [|a [|b args]]; [| |simpl in Hlen; lia];
      cbn [negb]; exact Hi.
Qed.

(** X10.  With source loaded, [break N] for a number N from 1 to one past
    the last line, and [break] alone on a line other than zero, record
    the line under the next breakpoint number for the current program,
    leave the other programs' breakpoints alone, advance the number by
    one and print nothing. *)
Theorem brk_sets_breakpoint d p args line :
  pointee d = Some p ->
  m_sourceLines d <> [] ->
  Z.of_nat (length (m_sourceLines d)) + 1 < SizeT.modulus ->
  (exists cmd arg rest,
     args = cmd :: arg :: rest /\ extract_size_t arg = (line, true) /\
     1 <= line <= Z.of_nat (length (m_sourceLines d)) + 1) \/
  (length args <= 1)%nat /\ line = currentLine d /\ line <> 0 ->
  let id := m_nextBreakpoint d in
  let key := programKey (m_program d) in
  exists d',
    brk args d = Ok tt d' /\
    (forall k,
       breakpointsOf d' k =
         if decide (k = key) then bp_insert id line (breakpointsHere d)
         else breakpointsOf d k) /\
    bp_line id (breakpointsHere d') = Some line /\
    m_nextBreakpoint d' = SizeT.add id 1 /\
    cout d' = cout d.
Proof.
  intros Hp Hsrc Hsize Hargs id key.
  eexists. split; [apply (brk_installs d p args line); assumption|].
  split; [|split; [|split; reflexivity]].
  - intros k. apply (breakpointsOf_with
      (set_m_nextBreakpoint (SizeT.add id 1) d)).
  - unfold breakpointsHere. cbn. rewrite lookup_insert_eq. cbn.
    apply bp_line_insert.
Qed.

(** X11.  [break] changes nothing and prints one message when no source
    is loaded, when the argument is not a number, is zero or lies more
    than one past the last line, and, without argument, when the current
    line is zero. *)
Theorem brk_rejects d args :
  (m_sourceLines d = [] ->
   brk args d =
     Ok tt (said [IS "Breakpoints only valid when source is available.";
                  Iendl] d)) /\
  (forall p cmd arg rest line eof,
     pointee d = Some p -> m_sourceLines d <> [] ->
     args = cmd :: arg :: rest -> extract_size_t arg = (line, eof) ->
     eof = false \/ line = 0 \/
     line > SizeT.add (Z.of_nat (length (m_sourceLines d))) 1 ->
     brk args d = Ok tt (said [IS "Invalid line number."; Iendl] d)) /\
  (forall p,
     pointee d = Some p -> m_sourceLines d <> [] ->
     (length args <= 1)%nat -> currentLine d = 0 ->
     brk args d = Ok tt (said [IS "Not currently on a line."; Iendl] d)).
Proof.
  split; [|split].
  - intros Hs. unfold brk. rewrite bind_gets, Hs. reflexivity.
  - intros p cmd arg rest line eof Hp Hs -> Hx Hbad.
    unfold brk. rewrite bind_gets.
    destruct (m_sourceLines d) as [|s0 src] eqn:Hsrc; [done|]. cbn [is_nil].
    rewrite (bind_ok _ _ _ _ _ (getCurrentLineNumber_ok d p Hp)).
    rewrite Hx.
    destruct eof; cbn [negb orb]; [|reflexivity].
    destruct (Z.eqb_spec line 0); [reflexivity|]. cbn [orb].
    destruct (Z.gtb_spec line (SizeT.add (Z.of_nat (length (s0 :: src))) 1));
      [reflexivity|].
    destruct Hbad as [|[|]]; [discriminate|lia|lia].
  - intros p Hp Hs Hlen Hline.
    unfold brk. rewrite bind_gets.
    destruct (m_sourceLines d) as [|s0 src] eqn:Hsrc; [done|]. cbn [is_nil].
    rewrite (bind_ok _ _ _ _ _ (getCurrentLineNumber_ok d p Hp)).
    rewrite Hline.
    destruct args as [|a [|b args]]; [| |simpl in Hlen; lia]; reflexivity.
Qed.

(** What [del] does with the number of a breakpoint the current program
    has. *)
Lemma del_erases d cmd text rest id :
  extract_size_t text = (id, true) ->
  bp_count id (breakpointsHere d) = true ->
  del (cmd :: text :: rest) d
  = Ok tt (withBreakpoints (bp_erase id (breakpointsHere d)) d).
Proof.
  intros Hx Hc. unfold del. rewrite Hx. cbn [negb].
  rewrite (bind_ok _ _ _ _ _ (programBreakpoints_touch d)).
  rewrite Hc. cbn [negb].
  pose proof (update_ok (set_m_breakpoints (touched d) d) (bp_erase id)) as Hu.
  rewrite Hu. f_equal.
  unfold withBreakpoints, breakpointsHere. cbn.
  rewrite insert_touched.
  pose proof (touched_lookup d (programKey (m_program d))) as Ht.
  unfold breakpointsOf in Ht. rewrite Ht. reflexivity.
Qed.

(** X12.  A breakpoint set and then deleted by its number leaves the
    breakpoints of every program as they were; the number is used up:
    the next breakpoint gets the following one. *)
Theorem brk_then_del d p cmd arg rest line cmd' text rest' :
  pointee d = Some p ->
  m_sourceLines d <> [] ->
  Z.of_nat (length (m_sourceLines d)) + 1 < SizeT.modulus ->
  extract_size_t arg = (line, true) ->
  1 <= line <= Z.of_nat (length (m_sourceLines d)) + 1 ->
  extract_size_t text = (m_nextBreakpoint d, true) ->
  bp_count (m_nextBreakpoint d) (breakpointsHere d) = false ->
  exists d1 d2,
    brk (cmd :: arg :: rest) d = Ok tt d1 /\
    del (cmd' :: text :: rest') d1 = Ok tt d2 /\
    (forall k, breakpointsOf d2 k = breakpointsOf d k) /\
    m_nextBreakpoint d2 = SizeT.add (m_nextBreakpoint d) 1 /\
    cout d2 = cout d.
Proof.
  intros Hp Hsrc Hsize Hx Hline Htext Hfresh.
  set (id := m_nextBreakpoint d) in *.
  set (d0 := set_m_nextBreakpoint (SizeT.add id 1) d).
  set (d1 := withBreakpoints (bp_insert id line (breakpointsHere d)) d0).
  assert (Hhere : breakpointsHere d1 = bp_insert id line (breakpointsHere d)).
  { unfold breakpointsHere. change (m_program d1) with (m_program d0).
    pose proof (breakpointsOf_with d0
      (bp_insert id line (breakpointsHere d)) (programKey (m_program d0))) as Hw.
    rewrite decide_True in Hw by reflexivity. exact Hw. }
  exists d1, (withBreakpoints (bp_erase id (breakpointsHere d1)) d1).
  split.
  { apply (brk_installs d p _ line); try assumption.
    left. exists cmd, arg, rest. auto. }
  split.
  { apply (del_erases d1 cmd' text rest' id); [exact Htext|].
    rewrite Hhere. apply bp_count_insert. }
  split; [|split; reflexivity].
  intros k. rewrite breakpointsOf_with, Hhere.
  rewrite (bp_erase_insert _ _ _ Hfresh).
  change (m_program d1) with (m_program d).
  case_decide as Hk.
  - subst k. reflexivity.
  - unfold d1. rewrite breakpointsOf_with.
    change (m_program d0) with (m_program d).
    rewrite decide_False by exact Hk. reflexivity.
Qed.

(** X13.  [delete] with an argument that is not a number prints a
    message and changes nothing.  With the number of a breakpoint the
    current program does not have, it prints a message and keeps every
    program's breakpoints, but the table is no longer empty: reading the
    current program's entry has created it. *)
Theorem del_rejects d cmd text rest id eof :
  extract_size_t text = (id, eof) ->
  (eof = false ->
   del (cmd :: text :: rest) d
   = Ok tt (said [IS "Invalid breakpoint number."; Iendl] d)) /\
  (eof = true -> bp_count id (breakpointsHere d) = false ->
   exists d',
     del (cmd :: text :: rest) d = Ok tt d' /\
     cout d' = write [IS "Breakpoint not found."; Iendl] (cout d) /\
     (forall k, breakpointsOf d' k = breakpointsOf d k) /\
     m_nextBreakpoint d' = m_nextBreakpoint d /\
     m_breakpoints d' <> ∅).
Proof.
  intros Hx. split.
  - intros ->. unfold del. rewrite Hx. reflexivity.
  - intros -> Hc. unfold del. rewrite Hx. cbn [negb].
    rewrite (bind_ok _ _ _ _ _ (programBreakpoints_touch d)).
    rewrite Hc. cbn [negb].
    eexists. split; [reflexivity|].
    split; [reflexivity|]. split; [|split; [reflexivity|]].
    + intros k. apply touched_lookup.
    + cbn. intros He. pose proof (touched_is_Some d) as [l Hl].
      rewrite He, lookup_empty in Hl. discriminate.
Qed.











Lemma forEach_said {A} (f : A -> list Item) l : forall d,
  forEach l (fun a => to_cout (f a)) d = Ok tt (said (l ≫= f) d).
Proof.
  induction l as [|a l IH]; intros d.
  - simpl. unfold ret, said. simpl. rewrite set_cout_id. reflexivity.
  - simpl forEach. unfold bind at 1. unfold to_cout at 1, modify at 1.
    rewrite IH. unfold said. cbn. rewrite write_app. reflexivity.
Qed.

(** X15.  [info break] always returns; it prints one line per breakpoint
    of the current program, in the order of their numbers, and keeps
    every program's breakpoints and the counter. *)
Theorem info_break_lists d cmd rest :
  exists d',
    info (cmd :: "break" :: rest) d = Ok tt d' /\
    cout d' = write (breakpointLines (breakpointsHere d)) (cout d) /\
    (forall k, breakpointsOf d' k = breakpointsOf d k) /\
    m_nextBreakpoint d' = m_nextBreakpoint d.
Proof.
  eexists. split.
  - unfold info. rewrite bool_decide_true by reflexivity.
    rewrite (bind_ok _ _ _ _ _ (programBreakpoints_touch d)).
    apply (forEach_said
      (fun bp => [IS "Breakpoint "; IN (fst bp); IS ": Line "; IN (snd bp); Iendl])).
  - split; [reflexivity|]. split; [|reflexivity].
    intros k. apply touched_lookup.
Qed.

End Breakpoints.

(** ** The [list] command *)

Section Listing.

Context `{Interpreter}.

Lemma said_nil d : said [] d = d.
Proof. unfold said. simpl. apply set_cout_id. Qed.

Lemma said_said a b d : said b (said a d) = said (a ++ b) d.
Proof. unfold said. cbn. rewrite write_app. reflexivity. Qed.

Lemma printSourceLine_line d l :
  1 <= l <= Z.of_nat (length (m_sourceLines d)) ->
  printSourceLine l d = Ok tt (said (sourceLine (m_sourceLines d) l) d).
Proof.
  intros Hl. unfold printSourceLine, sourceLine. rewrite bind_gets.
  destruct (Z.eqb_spec l 0); [lia|].
  destruct (Z.leb_spec l (Z.of_nat (length (m_sourceLines d)))); [|lia].
  cbn [negb andb].
  destruct (lookup_lt_is_Some_2 (m_sourceLines d) (Z.to_nat (l - 1)))
    as [text Ht]; [lia|].
  rewrite Ht. reflexivity.
Qed.

(** The display loop of [list]. *)
Lemma displayLines_ok start : forall (n : nat) (a : Z) d,
  1 <= start -> 0 <= a ->
  start + a + Z.of_nat n <= SizeT.modulus ->
  Z.of_nat (length (m_sourceLines d)) + 1 < SizeT.modulus ->
  displayLines start (Z.of_nat (length (m_sourceLines d)))
    (seqZ a (Z.of_nat n)) d
  = Ok tt
      (said (l ← seqZ (start + a)
                  (Z.min (Z.of_nat n)
                     (Z.of_nat (length (m_sourceLines d)) + 1 - (start + a)));
             sourceLine (m_sourceLines d) l) d).
Proof.
  induction n as [|n IH]; intros a d Hstart Ha Hwrap Hsize.
  - rewrite !seqZ_nil by lia. cbn. rewrite said_nil. reflexivity.
  - rewrite (seqZ_cons a) by lia. cbn [displayLines].
    replace (Z.pred (Z.of_nat (S n))) with (Z.of_nat n) by lia.
    unfold SizeT.add at 1 2, SizeT.wrap.
    rewrite !Z.mod_small by lia.
    destruct (Z.geb_spec (start + a) (Z.of_nat (length (m_sourceLines d)) + 1)).
    + rewrite seqZ_nil by lia. cbn. rewrite said_nil. reflexivity.
    + unfold SizeT.add, SizeT.wrap. rewrite Z.mod_small by lia.
      rewrite (bind_ok _ _ _ _ _ (printSourceLine_line d (start + a) ltac:(lia))).
      pose proof (IH (Z.succ a)
        (said (sourceLine (m_sourceLines d) (start + a)) d)) as Hrest.
      cbn [m_sourceLines said set_cout] in Hrest.
      rewrite Hrest by lia. rewrite said_said. f_equal. f_equal.
      rewrite (seqZ_cons (start + a)) by lia. cbn.
      do 2 f_equal. f_equal; lia.
Qed.

(** The display part of [list], from a start line on. *)
Lemma display_ok d start :
  1 <= start -> start + LIST_LENGTH <= SizeT.modulus ->
  Z.of_nat (length (m_sourceLines d)) + 1 < SizeT.modulus ->
  (displayLines start (Z.of_nat (length (m_sourceLines d))) (range LIST_LENGTH) ;;
   modify (set_m_listPosition start)) d
  = Ok tt (set_m_listPosition start (said (listing (m_sourceLines d) start) d)).
Proof.
  intros Hstart Hwrap Hsize.
  pose proof (displayLines_ok start 10 0 d Hstart ltac:(lia)) as Hd.
  unfold LIST_LENGTH in *.
  change (Z.of_nat 10) with 10 in Hd.
  rewrite Z.add_0_r in Hd. specialize (Hd ltac:(lia) Hsize).
  unfold range. rewrite (bind_ok _ _ _ _ _ Hd). reflexivity.
Qed.

(** X16.  With a current work-item and source loaded, [list N] shows the
    ten lines from line N-5 on (from line 1 when N is at most 5), or as
    many as there are, each with its number, and remembers the first of
    them as the list position. *)
Theorem list_around d i cmd arg rest N :
  m_currentWorkItem d = Some i ->
  m_sourceLines d <> [] ->
  arg <> "-" ->
  extract_size_t arg = (N, true) ->
  0 <= N -> N + LIST_LENGTH <= SizeT.modulus ->
  Z.of_nat (length (m_sourceLines d)) + 1 < SizeT.modulus ->
  let start := if N >? LIST_LENGTH / 2 then N - LIST_LENGTH / 2 else 1 in
  list_cmd (cmd :: arg :: rest) d
  = Ok tt (set_m_listPosition start (said (listing (m_sourceLines d) start) d)).
Proof.
  intros Hi Hsrc Harg Hx HN Hwrap Hsize start.
  assert (Hnil : is_nil (m_sourceLines d) = false)
    by (destruct (m_sourceLines d); [done|reflexivity]).
  unfold list_cmd. rewrite !bind_gets, Hi, Hnil.
  rewrite bool_decide_false by exact Harg. rewrite Hx. cbn [negb].
  apply display_ok; [| |exact Hsize].
  - subst start. unfold LIST_LENGTH. change (10 / 2) with 5.
    match goal with |- context [if ?c then _ else _] =>
      destruct c eqn:Hgt end; [apply Z.gtb_lt in Hgt|]; lia.
  - subst start. unfold LIST_LENGTH, SizeT.modulus in *. change (10 / 2) with 5.
    match goal with |- context [if ?c then _ else _] =>
      destruct c eqn:Hgt end; [apply Z.gtb_lt in Hgt|]; lia.
Qed.

(** X17.  [list] without argument pages forwards, from the line after
    the current one, or ten lines after the list position when there is
    one: it shows the next ten lines (or as many as there are) and
    remembers where they start; past the last line it shows nothing and
    puts the list position one past the last line. *)
Theorem list_pages_forward d wi args :
  pointee d = Some (Some wi) ->
  m_sourceLines d <> [] ->
  (length args <= 1)%nat ->
  0 <= m_listPosition d -> m_listPosition d + 2 * LIST_LENGTH <= SizeT.modulus ->
  0 <= currentLine d -> currentLine d + 1 + LIST_LENGTH <= SizeT.modulus ->
  Z.of_nat (length (m_sourceLines d)) + 1 < SizeT.modulus ->
  let size := Z.of_nat (length (m_sourceLines d)) in
  let start :=
    if m_listPosition d =? 0 then currentLine d + 1
    else m_listPosition d + LIST_LENGTH in
  list_cmd args d =
    Ok tt (if start >=? size + 1 then set_m_listPosition (size + 1) d
           else set_m_listPosition start
                  (said (listing (m_sourceLines d) start) d)).
Proof.
  intros Hp Hsrc Hargs Hpos Hposw Hcur Hcurw Hsize size start.
  assert (Hi : is_Some (m_currentWorkItem d)).
  { unfold pointee in Hp. destruct (m_currentWorkItem d); [eauto|discriminate]. }
  destruct Hi as [i Hi].
  assert (Hnil : is_nil (m_sourceLines d) = false)
    by (destruct (m_sourceLines d); [done|reflexivity]).
  unfold list_cmd. rewrite !bind_gets, Hi, Hnil.
  assert (Hforwards :
    (let* position := gets m_listPosition in
     let* current := getCurrentLineNumber in
     let start :=
       if negb (position =? 0) then SizeT.add position LIST_LENGTH
       else SizeT.add current 1 in
     if start >=? SizeT.add (Z.of_nat (length (m_sourceLines d))) 1 then
       modify (set_m_listPosition (SizeT.add (Z.of_nat (length (m_sourceLines d))) 1))
     else
       displayLines start (Z.of_nat (length (m_sourceLines d))) (range LIST_LENGTH) ;;
       modify (set_m_listPosition start)) d
    = Ok tt (if start >=? size + 1 then set_m_listPosition (size + 1) d
             else set_m_listPosition start
                    (said (listing (m_sourceLines d) start) d))).
  { rewrite bind_gets.
    rewrite (bind_ok _ _ _ _ _ (getCurrentLineNumber_ok d _ Hp)).
    cbv zeta.
    assert (Hstart :
      (if negb (m_listPosition d =? 0)
       then SizeT.add (m_listPosition d) LIST_LENGTH
       else SizeT.add (currentLine d) 1) = start).
    { subst start. unfold SizeT.add, SizeT.wrap, LIST_LENGTH in *.
      destruct (m_listPosition d =? 0); cbn [negb];
        apply Z.mod_small; lia. }
    rewrite Hstart.
    assert (Hend : SizeT.add (Z.of_nat (length (m_sourceLines d))) 1 = size + 1).
    { unfold SizeT.add, SizeT.wrap. apply Z.mod_small. lia. }
    rewrite Hend.
    destruct (Z.geb_spec start (size + 1)); [reflexivity|].
    apply display_ok; [| |exact Hsize].
    - subst start. destruct (Z.eqb_spec (m_listPosition d) 0);
        unfold LIST_LENGTH; lia.
    - subst start. destruct (Z.eqb_spec (m_listPosition d) 0);
        unfold LIST_LENGTH in *; lia. }
  destruct args as [|a [|b args]]; [exact Hforwards|exact Hforwards|].
  simpl in Hargs. lia.
Qed.

End Listing.

(** ** More on [step] and [next] *)

Section Next.

Context `{Interpreter}.

Lemma callDepth_ok d wi :
  pointee d = Some (Some wi) ->
  callDepth d = Ok (Z.of_nat (length (wi_callStack wi))) d.
Proof.
  intros Hp. unfold callDepth.
  unfold bind at 1. rewrite currentWorkItem_pointee, Hp. reflexivity.
Qed.

(** [Device::step()] on a work-item that cannot run. *)
Lemma step_blocked d wi fuel :
  pointee d = Some (Some wi) -> wi_state wi <> READY ->
  step fuel d =
    Ok tt (said [IS (match wi_state wi with
                     | BARRIER => "Work-item is at a barrier."
                     | _ => "Work-item has finished execution."
                     end); Iendl] d).
Proof.
  intros Hp Hs. unfold step.
  unfold bind at 1. rewrite currentWorkItem_pointee, Hp. cbn [deref].
  unfold bind at 1, ret at 1.
  destruct (wi_state wi); [done|reflexivity..].
Qed.

(** X20.  The loop of [next] does not end when the work-item stops at a
    barrier (or finishes) while the call stack is deeper than at the
    start: [Device::step()] then only prints its message and the loop
    condition stays true, whatever number of rounds is allowed. *)
Theorem nextLoop_stuck d wi prevDepth :
  pointee d = Some (Some wi) -> wi_state wi <> READY ->
  Z.of_nat (length (wi_callStack wi)) > prevDepth ->
  forall fuel, nextLoop fuel prevDepth d = Timeout.
Proof.
  intros Hp Hs Hdepth fuel. revert d Hp.
  induction fuel as [|f IH]; intros d Hp; [reflexivity|].
  cbn [nextLoop].
  rewrite (bind_ok _ _ _ _ _ (step_blocked d wi f Hp Hs)).
  match goal with |- context [said ?items d] =>
    assert (Hp' : pointee (said items d) = Some (Some wi)) by exact Hp;
    rewrite (bind_ok _ _ _ _ _ (callDepth_ok _ wi Hp'))
  end.
  destruct (Z.gtb_spec (Z.of_nat (length (wi_callStack wi))) prevDepth); [|lia].
  apply IH. exact Hp.
Qed.


(** X18.  On a work-item at a barrier or finished, [step] and [next]
    execute nothing: they only print (for a finished work-item exactly
    the message that it has finished) and reset the list position. *)
Theorem step_blocked_prints d wi fuel args :
  pointee d = Some (Some wi) -> wi_state wi <> READY ->
  exists o,
    stepCommand fuel args d = Ok tt (set_m_listPosition 0 (set_cout o d)) /\
    next (S fuel) args d = Ok tt (set_m_listPosition 0 (set_cout o d)) /\
    (wi_state wi = FINISHED ->
     o = write [IS "Work-item has finished execution."; Iendl] (cout d)).
Proof.
  intros Hp Hs.
  assert (Hi : is_Some (m_currentWorkItem d)).
  { unfold pointee in Hp. destruct (m_currentWorkItem d); [eauto|discriminate]. }
  destruct Hi as [i Hi].
  set (message := [IS (match wi_state wi with
                       | BARRIER => "Work-item is at a barrier."
                       | _ => "Work-item has finished execution."
                       end); Iendl]).
  assert (Hp' : pointee (said message d) = Some (Some wi)) by exact Hp.
  destruct (printCurrentLine_ok (said message d) (Some wi) Hp') as [o Ho].
  assert (Hshow : showPosition (Z.of_nat (length (wi_callStack wi))) (said message d)
                  = Ok tt (set_m_listPosition 0 (set_cout o d))).
  { unfold showPosition.
    rewrite (bind_ok _ _ _ _ _ (callDepth_ok _ wi Hp')).
    unfold bind at 1. rewrite currentWorkItem_pointee, Hp'. cbn [deref].
    unfold bind at 1, ret at 1. rewrite Z.eqb_refl. cbn [negb andb when].
    unfold bind at 1, ret at 1. rewrite (bind_ok _ _ _ _ _ Ho). reflexivity. }
  exists o. split; [|split].
  - unfold stepCommand. rewrite bind_gets, Hi.
    rewrite (bind_ok _ _ _ _ _ (callDepth_ok d wi Hp)).
    rewrite (bind_ok _ _ _ _ _ (step_blocked d wi fuel Hp Hs)).
    exact Hshow.
  - unfold next. rewrite bind_gets, Hi.
    rewrite (bind_ok _ _ _ _ _ (callDepth_ok d wi Hp)).
    assert (Hloop : nextLoop (S fuel) (Z.of_nat (length (wi_callStack wi))) d
                    = Ok tt (said message d)).
    { cbn [nextLoop].
      rewrite (bind_ok _ _ _ _ _ (step_blocked d wi fuel Hp Hs)).
      rewrite (bind_ok _ _ _ _ _ (callDepth_ok _ wi Hp')).
      destruct (Z.gtb_spec (Z.of_nat (length (wi_callStack wi)))
                  (Z.of_nat (length (wi_callStack wi)))); [lia|reflexivity]. }
    rewrite (bind_ok _ _ _ _ _ Hloop). exact Hshow.
  - intros Hfin. unfold printCurrentLine in Ho.
    unfold bind at 1 in Ho. rewrite currentWorkItem_pointee, Hp' in Ho.
    rewrite decide_True in Ho by exact Hfin.
    injection Ho as Ho. subst message. rewrite Hfin in Ho.
    symmetry. exact Ho.
Qed.

End Next.

(** ** More on [workitem] *)

Section Switching.

Context `{Interpreter}.

(** X23.  [workitem] has no guard for a device without a current
    work-group: once the global id is accepted, the command reads the
    id of the current work-group through a null pointer. *)
Theorem workitem_without_group d cmd tokens G d1 :
  parseGlobalID tokens 1 (V3 0 0 0) d = Ok (Some G) d1 ->
  positive3 (m_localSize d1) ->
  m_currentWorkGroup d1 = None ->
  workitem (cmd :: tokens) d = Undefined.
Proof.
  intros Hparse (H0 & H1 & H2) Hcur.
  unfold workitem. cbn [tail]. rewrite (bind_ok _ _ _ _ _ Hparse).
  rewrite bind_gets. unfold SizeT.div.
  destruct (Z.eqb_spec (v0 (m_localSize d1)) 0); [lia|].
  destruct (Z.eqb_spec (v1 (m_localSize d1)) 0); [lia|].
  destruct (Z.eqb_spec (v2 (m_localSize d1)) 0); [lia|].
  cbn [deref]. unfold bind at 1, ret at 1. unfold bind at 1, ret at 1.
  unfold bind at 1, ret at 1. rewrite bind_gets, Hcur. reflexivity.
Qed.

(** X21.  [workitem] with a first argument that is not a number, or is
    not below the first global size, prints "Invalid global ID." and
    changes nothing else, whatever follows the argument. *)
Theorem workitem_rejects d cmd a rest x eof :
  extract_size_t a = (x, eof) ->
  eof = false \/ x >= v0 (m_globalSize d) ->
  workitem (cmd :: a :: rest) d
  = Ok tt (said [IS "Invalid global ID."; Iendl] d).
Proof.
  intros Hx Hbad. unfold workitem. cbn [tail parseGlobalID].
  rewrite Hx. cbn [v3_set Nat.sub deref].
  assert (Hinvalid :
    (if negb eof then ret true
     else
       let* gs := gets m_globalSize in
       let* limit := deref (v3_get gs (1 - 1)) in
       ret (x >=? limit)) d = Ok true d).
  { destruct eof; cbn [negb]; [|reflexivity].
    rewrite bind_gets. cbn [v3_get Nat.sub deref].
    unfold bind, ret. destruct Hbad as [|Hge]; [discriminate|].
    destruct (Z.geb_spec x (v0 (m_globalSize d))); [reflexivity|lia]. }
  unfold bind at 1. unfold bind at 1. unfold ret at 1.
  rewrite (bind_ok _ _ _ _ _ Hinvalid).
  reflexivity.
Qed.

(** X22.  When the work-group of the work-item asked for is neither the
    current one nor in the running or the pending pool, [workitem]
    reports that the work-item has already finished and changes nothing
    else: the current work-group and work-item stay. *)
Theorem workitem_already_finished d cmd tokens G cur :
  denotes tokens G -> in_box (m_globalSize d) G ->
  positive3 (m_localSize d) ->
  m_currentWorkGroup d = Some cur ->
  let ls := m_localSize d in
  let target := V3 (v0 G / v0 ls) (v1 G / v1 ls) (v2 G / v2 ls) in
  wg_groupID cur <> target ->
  Forall (fun g => wg_groupID g <> target) (m_runningGroups d) ->
  target ∉ m_pendingGroups d ->
  workitem (cmd :: tokens) d
  = Ok tt (said [IS "Work-item has already finished, unable to load state.";
                 Iendl] d).
Proof.
  intros Hden Hbox (H0 & H1 & H2) Hcur ls target Hne Hrun Hpend.
  unfold workitem. cbn [tail].
  rewrite (bind_ok _ _ _ _ _ (parseGlobalID_accepts d tokens G Hden Hbox)).
  rewrite bind_gets. unfold SizeT.div. fold ls.
  destruct (Z.eqb_spec (v0 ls) 0); [unfold ls in *; lia|].
  destruct (Z.eqb_spec (v1 ls) 0); [unfold ls in *; lia|].
  destruct (Z.eqb_spec (v2 ls) 0); [unfold ls in *; lia|].
  cbn [deref]. unfold bind at 1, ret at 1. unfold bind at 1, ret at 1.
  unfold bind at 1, ret at 1. fold target.
  rewrite bind_gets, Hcur. cbn [deref]. unfold bind at 1, ret at 1.
  destruct (same_group target (wg_groupID cur)) eqn:Hsame.
  { apply same_group_eq in Hsame. congruence. }
  assert (Hfound :
    (let* inRunning := findInRunning target in
     if inRunning : bool then ret true else findInPending target) d
    = Ok false d).
  { assert (Hr : findInRunning target d = Ok false d).
    { unfold findInRunning. rewrite bind_gets.
      replace (list_find (fun g => same_group target (wg_groupID g) = true)
                 (m_runningGroups d)) with (@None (nat * WorkGroup));
        [reflexivity|].
      symmetry. apply list_find_None.
      eapply Forall_impl; [exact Hrun|]. simpl. intros g Hg Hs.
      apply same_group_eq in Hs. congruence. }
    assert (Hp : findInPending target d = Ok false d).
    { unfold findInPending. rewrite bind_gets.
      replace (list_find (fun g => same_group target g = true)
                 (m_pendingGroups d)) with (@None (nat * size3));
        [reflexivity|].
      symmetry. apply list_find_None. apply Forall_forall.
      intros g Hg Hs. apply same_group_eq in Hs. subst g.
      apply Hpend. exact Hg. }
    rewrite (bind_ok _ _ _ _ _ Hr). exact Hp. }
  rewrite (bind_ok _ _ _ _ _ Hfound). reflexivity.
Qed.

End Switching.

(** ** The command loop *)

Section Prompt.

Context `{Interpreter} `{!Inspectors}.

Lemma getline_line d line after :
  split_line (cin d) = Some (line, after) ->
  getline d = Ok (line, false) (set_cin after d).
Proof. intros Hl. unfold getline. rewrite bind_gets, Hl. reflexivity. Qed.

Lemma getline_eof d :
  split_line (cin d) = None ->
  getline d = Ok (cin d, true) (set_cin EmptyString d).
Proof. intros Hl. unfold getline. rewrite bind_gets, Hl. reflexivity. Qed.

(** X24.  At the prompt, a line without a token is skipped, and a line
    whose first token is no command only gets the message "Unrecognized
    command"; in both cases nothing else changes and the next prompt
    follows. *)
Theorem commandLoop_skips d fuel line after :
  m_running d = true ->
  split_line (cin d) = Some (line, after) ->
  (tokenize line = [] ->
   commandLoop (S fuel) d = commandLoop fuel (prompted after d)) /\
  (forall name rest,
     tokenize line = name :: rest -> findCommand name = None ->
     commandLoop (S fuel) d =
       commandLoop fuel
         (said [IS "Unrecognized command '"; IS name; IS "'"; Iendl]
            (prompted after d))).
Proof.
  intros Hrun Hline.
  assert (Hstart : forall k : string * bool -> M Device unit,
    (let* running := gets m_running in
     if negb running then ret tt
     else to_cout [IS "(oclgrind) "] ;; let* input := getline in k input) d
    = k (line, false) (prompted after d)).
  { intros k. rewrite bind_gets, Hrun. cbn [negb].
    rewrite (bind_ok _ _ _ _ _ (to_cout_ok _ d)).
    rewrite (bind_ok _ _ _ _ _
      (getline_line (said [IS "(oclgrind) "] d) line after Hline)).
    reflexivity. }
  split.
  - intros Htok. cbn [commandLoop]. rewrite Hstart, Htok. reflexivity.
  - intros name rest Htok Hcmd. cbn [commandLoop].
    rewrite Hstart, Htok, Hcmd.
    rewrite (bind_ok _ _ _ _ _ (to_cout_ok _ _)). reflexivity.
Qed.

(** X25.  In the build without a line editor, where the prompt reads
    with [std::getline]: when the input holds no further newline, be it
    exhausted or cut in the middle of a last line, the command loop
    prints "(quit)" and quits: interactive mode is left, the breakpoints
    are cleared and the loop ends.  In that build text left without a
    newline after it is not executed, and no instruction runs.  (With a
    line editor only the exhausted input ends the loop this way: an
    unterminated last line is handed to the loop as a command.) *)
Theorem commandLoop_end_of_input d fuel :
  m_running d = true ->
  split_line (cin d) = None ->
  let d' :=
    quitted (said [IS "(quit)"; Iendl]
               (set_cin EmptyString (said [IS "(oclgrind) "] d))) in
  commandLoop (S fuel) d = Ok tt d' /\
  m_interactive d' = false /\ m_running d' = false /\ m_breakpoints d' = ∅ /\
  m_currentWorkItem d' = m_currentWorkItem d /\
  m_globalMemory d' = m_globalMemory d.
Proof.
  intros Hrun Hline d'. split; [|repeat split].
  cbn [commandLoop]. rewrite bind_gets, Hrun. cbn [negb].
  rewrite (bind_ok _ _ _ _ _ (to_cout_ok _ d)).
  rewrite (bind_ok _ _ _ _ _
    (getline_eof (said [IS "(oclgrind) "] d) Hline)).
  rewrite (bind_ok _ _ _ _ _ (to_cout_ok _ _)).
  reflexivity.
Qed.

End Prompt.

(** * Worked examples *)

Import Script.

(** ** Start of a run *)

Lemma setup_sizes_witness :
  0 <= 2 <= 3 /\ Forall (fun z => 0 <= z) [2; 0] /\
  exists d',
    setup 2 [0; 0] [4; 2] [2; 0] fresh = Ok tt d' /\
    positive3 (m_localSize d') /\
    v3_get (m_localSize d') 1 = Some 1 /\
    exists d'', computeNumGroups d' = Ok tt d''.
Proof.
  assert (Hdim : 0 <= 2 <= 3) by lia.
  assert (Hpos : Forall (fun z => 0 <= z) [2; 0])
    by (repeat constructor; lia).
  split; [exact Hdim|]. split; [exact Hpos|].
  destruct (setup_sizes fresh 2 [0; 0] [4; 2] [2; 0] Hdim
              ltac:(simpl; lia) ltac:(simpl; lia) ltac:(simpl; lia) Hpos)
    as (d' & Hrun & Hlocal & _ & _ & Hzero & Hgroups).
  exists d'. split; [exact Hrun|]. split; [exact Hlocal|].
  split; [|exact Hgroups].
  apply (Hzero 1%nat 0); [simpl; lia|reflexivity].
Defined.

(** C9 (as stated, refuted).  A zero global size passed within [workDim]
    is stored as it is: the stored global size is not at least one. *)
Lemma setup_keeps_zero_global_size :
  exists d',
    setup 1 [0] [0] [1] fresh = Ok tt d' /\
    v0 (m_globalSize d') = 0 /\
    ~ sizes_at_least_one d'.
Proof.
  eexists. split; [vm_compute; reflexivity|].
  split; [reflexivity|].
  intros (_ & Hglobal & _). simpl in Hglobal. lia.
Qed.

Lemma createPendingGroups_order_witness :
  positive3 (m_localSize sized) /\
  exists d' new,
    createPendingGroups sized = Ok tt d' /\
    m_pendingGroups d' = m_pendingGroups sized ++ new /\
    new = [V3 0 0 0; V3 1 0 0; V3 0 1 0; V3 1 1 0].
Proof.
  assert (Hlocal : positive3 (m_localSize sized))
    by (vm_compute; repeat split; discriminate).
  split; [exact Hlocal|].
  destruct (createPendingGroups_order sized Hlocal)
    as (d' & new & Hrun & _ & Hpending & _ & Hall).
  exists d', new. split; [exact Hrun|]. split; [exact Hpending|].
  destruct (Hall eq_refl) as (_ & _ & _ & Hexample).
  apply Hexample; reflexivity.
Defined.

(** ** Scheduler *)

Lemma nextWorkItem_spec_witness :
  is_Some (m_kernel firstDone) /\
  (nextWorkItem_fuel firstDone <= 2)%nat /\
  exists d',
    nextWorkItem 2 firstDone = Ok true d' /\
    ready_current d' /\ ~ nothing_left d' /\ ~ all_finished firstDone.
Proof.
  assert (Hk : is_Some (m_kernel firstDone))
    by (vm_compute; eexists; reflexivity).
  assert (Hfuel : (nextWorkItem_fuel firstDone <= 2)%nat)
    by (vm_compute; lia).
  split; [exact Hk|]. split; [exact Hfuel|].
  destruct (nextWorkItem_spec firstDone 2 (or_intror Hk) Hfuel)
    as (_ & _ & _ & _ & _ & _ & b & d' & Hrun & Hin & Hfalse & Htrue).
  assert (Hb : b = true).
  { assert (Hc : nextWorkItem 2 firstDone = Ok b d') by exact Hrun.
    vm_compute in Hc. congruence. }
  subst b. exists d'. split; [exact Hrun|].
  split; [apply Htrue; reflexivity|].
  split; intros Hn; [apply Hfalse in Hn|apply Hin in Hn]; discriminate.
Defined.

(** ** Error router *)

Lemma notification_block_witness :
  let n := DataRace ReadWriteRace AddrSpaceGlobal 16 0 0 None in
  pointee stopped = Some (pointed stopped) /\
  is_Some (detail stopped n) /\
  exists d',
    notify n stopped = Ok tt d' /\ m_forceBreak d' = true /\
    exists toks,
      s_out (cerr d') = s_out (cerr stopped) ++ toks ++ [TEndl; TEndl].
Proof.
  intros n.
  assert (Hp : pointee stopped = Some (pointed stopped))
    by (vm_compute; reflexivity).
  assert (Hd : detail stopped n
               = Some [Iendl; IS (tab +:+ "Race occured with work-item (");
                       Idec; IN 0; IS ","; IN 0; IS ","; IN 0; IS ")"; Iendl])
    by (vm_compute; reflexivity).
  split; [exact Hp|]. split; [eexists; exact Hd|].
  destruct (notification_block stopped _ n _ Hp Hd) as (Hrun & Hbreak & Hblank).
  eexists. split; [exact Hrun|]. split; [exact Hbreak|exact Hblank].
Defined.

(** C5 (as stated, refuted).  For a memory error the detail of the
    notification (read or write, size, address space and address) goes
    out before the error context, and nothing but the closing [endl]
    follows the context. *)
Lemma memory_error_detail_first :
  let n := MemoryError true AddrSpaceGlobal 16 4 in
  let context :=
    errorContext (pointed stopped) (m_currentWorkGroup stopped)
      (m_kernel stopped) in
  exists d',
    notify n stopped = Ok tt d' /\
    s_out (cerr d') =
      [TEndl; TStr "Invalid "; TStr "read"; TStr " of size "; TNum Dec 4;
       TStr " at "; TStr "global"; TStr " memory address "; TNum Hex 16;
       TEndl]
      ++ render context Hex ++ [TEndl].
Proof.
  intros n context. eexists. split; vm_compute; reflexivity.
Qed.

(** ** Stepping *)

(** C7 (as stated, refuted).  In a debugging session on a kernel without
    source text, [step] executes one instruction of the four; the loop as
    worded, which goes on when no source is loaded, executes all four. *)
Lemma step_not_as_worded :
  m_sourceLines noSourcePrompt = [] /\
  exists d' worded,
    step 10 noSourcePrompt = Ok tt d' /\
    step_worded 10 noSourcePrompt = Ok tt worded /\
    length (m_globalMemory d') = 1%nat /\
    length (m_globalMemory worded) = 4%nat.
Proof.
  split; [vm_compute; reflexivity|].
  do 2 eexists.
  split; [vm_compute; reflexivity|].
  split; [vm_compute; reflexivity|].
  split; vm_compute; reflexivity.
Qed.

Lemma step_advances_witness :
  pointee stopped = Some (Some secondInstruction) /\
  currentLine stopped = 2 /\
  exists d',
    step 5 stopped = Ok tt d' /\ currentLine d' = 3 /\
    length (m_globalMemory d') = 3%nat.
Proof.
  assert (Hp : pointee stopped = Some (Some secondInstruction))
    by (vm_compute; reflexivity).
  split; [exact Hp|]. split; [vm_compute; reflexivity|].
  set (d1 := state_of (stepWorkItem stopped)).
  set (d2 := state_of (stepWorkItem d1)).
  assert (Hsteps : stepped (currentLine stopped) 2 stopped d2).
  { apply (stepped_more _ 1 stopped d1 d2).
    - vm_compute; reflexivity.
    - vm_compute; discriminate.
    - left; vm_compute; reflexivity.
    - apply (stepped_last _ d1 READY d2).
      + vm_compute; reflexivity.
      + right; right. split; vm_compute; discriminate. }
  destruct (step_advances stopped d2 secondInstruction 2 5 Hp eq_refl Hsteps
              ltac:(lia))
    as (Hrun & _ & _).
  exists d2. split; [exact Hrun|]. split; vm_compute; reflexivity.
Defined.

(** ** Breakpoints and [continue] *)

(** C4 (as stated, refuted).  The first [continue] stopped at breakpoint 1
    on line 2, with two instructions of line 2 still to run.  The next
    [continue] does not fire it again: it prints nothing and runs the
    work-item to its end. *)
Lemma breakpoint_not_refired :
  currentLine stopped = 2 /\ lastBreakLine stopped = 2 /\
  firing stopped 2 = Some (1, 2) /\
  exists d',
    cont 20 [] stopped = Ok tt d' /\
    cout d' = cout stopped /\
    m_currentWorkItem d' = None /\
    length (m_globalMemory d') = 4%nat.
Proof.
  split; [vm_compute; reflexivity|].
  split; [vm_compute; reflexivity|].
  split; [vm_compute; reflexivity|].
  eexists.
  split; [vm_compute; reflexivity|].
  split; [vm_compute; reflexivity|].
  split; vm_compute; reflexivity.
Qed.

Lemma breakpoint_latch_witness :
  m_breakpoints resumed <> ∅ /\
  stepWorkItem resumed = Ok READY resumedOne /\
  currentLine resumedOne = lastBreakLine resumed /\
  firing resumedOne (currentLine resumedOne) = Some (1, 2) /\
  runWorkItem 3 false resumed = runWorkItem 2 false resumedOne.
Proof.
  assert (Hb : m_breakpoints resumed <> ∅)
    by (intros Hb; apply (f_equal (fun m => bool_decide (m = ∅))) in Hb;
        vm_compute in Hb; discriminate).
  assert (Hstep : stepWorkItem resumed = Ok READY resumedOne)
    by (vm_compute; reflexivity).
  assert (Hline : currentLine resumedOne = lastBreakLine resumed)
    by (vm_compute; reflexivity).
  split; [exact Hb|]. split; [exact Hstep|]. split; [exact Hline|].
  split; [vm_compute; reflexivity|].
  destruct (breakpoint_latch resumed resumedOne secondInstruction READY false 2)
    as (Hlatched & _ & _).
  - vm_compute; reflexivity.
  - vm_compute; reflexivity.
  - exact Hb.
  - vm_compute; reflexivity.
  - reflexivity.
  - exact Hstep.
  - vm_compute; reflexivity.
  - exact (Hlatched eq_refl Hline).
Defined.

(** ** [quit] *)

(** C6 (as stated, refuted).  Two groups of one work-item, four
    instructions each.  Not interactive, the run executes all eight.
    When the user types [quit] at the first prompt, the run executes
    none, and the second group is still in the pending pool when [run]
    returns. *)
Lemma quit_abandons_work :
  exists plain quit,
    run 50 kernel4 1 [0] [2] [1] fresh = Ok tt plain /\
    run 50 kernel4 1 [0] [2] [1] (fresh_interactive "quit
") = Ok tt quit /\
    length (m_globalMemory plain) = 8%nat /\
    m_pendingGroups plain = [] /\
    m_globalMemory quit = [] /\
    m_pendingGroups quit = [V3 1 0 0] /\
    m_interactive quit = false.
Proof.
  do 2 eexists.
  split; [vm_compute; reflexivity|].
  split; [vm_compute; reflexivity|].
  split; [vm_compute; reflexivity|].
  split; [vm_compute; reflexivity|].
  split; [vm_compute; reflexivity|].
  split; vm_compute; reflexivity.
Qed.

Lemma quit_ends_run_witness :
  m_running quitPrompt = true /\
  split_line (cin quitPrompt) = Some ("quit", EmptyString) /\
  exists d',
    (catchFatal (commandLoop 2) reportFatal ;; teardown kernel4) quitPrompt
      = Ok tt d' /\
    m_interactive d' = false /\
    m_globalMemory d' = m_globalMemory quitPrompt /\
    m_runningGroups d' = [] /\ m_currentWorkGroup d' = None.
Proof.
  assert (Hrun : m_running quitPrompt = true) by (vm_compute; reflexivity).
  assert (Hline : split_line (cin quitPrompt) = Some ("quit", EmptyString))
    by (vm_compute; reflexivity).
  revert Hrun Hline. generalize quitPrompt. intros d Hrun Hline.
  split; [exact Hrun|]. split; [exact Hline|].
  destruct (quit_ends_run d kernel4 0 "quit" EmptyString "quit" [] Hrun Hline
              eq_refl eq_refl)
    as (_ & Hint & _ & _ & Hend & Hmem & Hgroups & Hcur & _).
  eexists. split; [exact Hend|].
  split; [exact Hint|]. split; [exact Hmem|]. split; [exact Hgroups|exact Hcur].
Defined.

(** ** [workitem] *)

(** C8 (fails in the code).  With global offset (1,0,0), global size
    (2,1,1) and local size (1,1,1), [workitem 0] succeeds and makes
    current the work-item of group (0,0,0) whose global id is (1,0,0),
    not the (0,0,0) that was asked for: the command leaves the offset
    out. *)
Theorem workitem_ignores_offset :
  m_globalOffset offsetPrompt = V3 1 0 0 /\
  m_globalSize offsetPrompt = V3 2 1 1 /\
  exists d' g i wi,
    workitem ["workitem"; "0"] offsetPrompt = Ok tt d' /\
    m_currentWorkGroup d' = Some g /\ m_currentWorkItem d' = Some i /\
    wg_items g !! i = Some wi /\
    wg_groupID g = V3 0 0 0 /\
    wi_globalID wi = V3 1 0 0 /\
    wi_globalID wi <> V3 0 0 0.
Proof.
  split; [vm_compute; reflexivity|].
  split; [vm_compute; reflexivity|].
  do 4 eexists.
  split; [vm_compute; reflexivity|].
  split; [vm_compute; reflexivity|].
  split; [vm_compute; reflexivity|].
  split; [vm_compute; reflexivity|].
  split; [vm_compute; reflexivity|].
  split; [vm_compute; reflexivity|].
  vm_compute; discriminate.
Qed.

(** C10 (fails in the code).  With three valid components and a fourth
    argument, the loop of [workitem] goes round a fourth time and writes
    [gid[3]], past the end of the array of three, before any check: the
    behaviour is undefined. *)
Theorem workitem_fourth_argument (d : Device) :
  workitem ["workitem"; "0"; "0"; "0"; "0"] (set_m_globalSize (V3 1 1 1) d)
  = Undefined.
Proof.
  unfold workitem. cbn [tail].
  unfold bind at 1.
  rewrite (parseGlobalID_overflow _ "0" "0" "0" "0" [] (V3 0 0 0)).
  - reflexivity.
  - repeat split.
  - repeat split; simpl; lia.
Qed.

(** ** Further worked examples *)

Lemma delinearize_one_dimension_witness :
  0 <= 3 < 4 /\ delinearize (V3 4 1 1) 3 = Some (V3 3 0 0).
Proof.
  assert (Hi : 0 <= 3 < 4) by lia.
  assert (Hs : 4 <= SizeT.modulus) by (unfold SizeT.modulus; lia).
  split; [exact Hi|].
  exact (proj1 (delinearize_one_dimension 4 3 Hi Hs)).
Defined.

Lemma delinearize_first_component_witness :
  in_box (V3 2 2 1) (V3 0 1 0) /\
  exists gy gz, delinearize (V3 2 2 1) 2 = Some (V3 0 gy gz).
Proof.
  assert (Hbox : in_box (V3 2 2 1) (V3 0 1 0)) by (unfold in_box; cbn; lia).
  split; [exact Hbox|].
  apply (delinearize_first_component (V3 2 2 1) (V3 0 1 0) Hbox).
  unfold linearize_rowmajor, SizeT.modulus. cbn. lia.
Defined.

Lemma setup_offsets_witness :
  0 <= 2 <= 3 /\
  exists d',
    setup 2 [3; 0] [4; 2] [2; 1] fresh = Ok tt d' /\
    v3_get (m_globalOffset d') 0 = Some 3 /\
    v3_get (m_globalOffset d') 1 = Some 0 /\
    v3_get (m_globalOffset d') 2 = Some 0.
Proof.
  assert (Hdim : 0 <= 2 <= 3) by lia.
  split; [exact Hdim|].
  destruct (setup_offsets fresh 2 [3; 0] [4; 2] [2; 1] Hdim
              ltac:(simpl; lia) ltac:(simpl; lia) ltac:(simpl; lia))
    as (d' & Hrun & _ & Hin & Hout & _).
  exists d'. split; [exact Hrun|].
  split; [apply (Hin 0%nat 3); [simpl; lia|reflexivity]|].
  split; [apply (Hin 1%nat 0); [simpl; lia|reflexivity]|].
  apply (Hout 2%nat). simpl. lia.
Defined.

Lemma run_allocation_fails_witness :
  exists d',
    @run exhausted exhaustedInspectors 5 kernel4 1 [0] [1] [1] exhaustedDevice
      = Ok tt d' /\
    m_pendingGroups d' = [] /\ m_kernel d' = None /\ cout d' = cout exhaustedDevice.
Proof.
  destruct (@run_allocation_fails exhausted exhaustedInspectors exhaustedDevice
              kernel4 1 [0] [1] [1] outOfMemory 5 eq_refl
              ltac:(lia) ltac:(simpl; lia) ltac:(simpl; lia) ltac:(simpl; lia)
              eq_refl)
    as (d' & Hrun & _ & Hpending & Hkernel & _ & Hcout).
  exists d'. split; [exact Hrun|]. split; [exact Hpending|].
  split; [exact Hkernel|exact Hcout].
Defined.

Lemma lines_from_unlines_witness :
  Forall (free_of newline) ["a = 1;"; "b = 2;"; "c = 3;"] /\
  lines_from (unlines ["a = 1;"; "b = 2;"; "c = 3;"]) EmptyString
  = ["a = 1;"; "b = 2;"; "c = 3;"].
Proof.
  assert (Hfree : Forall (free_of newline) ["a = 1;"; "b = 2;"; "c = 3;"]).
  { repeat constructor; discriminate. }
  split; [exact Hfree|]. apply (lines_from_unlines _ Hfree).
Defined.

Lemma cont_runs_everything_witness :
  m_interactive (started 2) = false /\
  exists d',
    cont 20 [] (started 2) = Ok tt d' /\
    m_currentWorkItem d' = None /\ nothing_left d'.
Proof.
  assert (Hi : m_interactive (started 2) = false) by (vm_compute; reflexivity).
  assert (Hrun : cont 20 [] (started 2)
                 = Ok tt (state_of (cont 20 [] (started 2))))
    by (vm_compute; reflexivity).
  assert (Hcur : m_currentWorkItem (started 2) <> None)
    by (vm_compute; discriminate).
  revert Hi Hrun Hcur. generalize (state_of (cont 20 [] (started 2))).
  generalize (started 2). intros d d' Hi Hrun Hcur.
  split; [exact Hi|].
  destruct (cont_runs_everything d [] 20 d' Hi Hrun)
    as (Hnone & _ & _ & _ & Hleft).
  exists d'. split; [exact Hrun|]. split; [exact Hnone|].
  apply Hleft. exact Hcur.
Defined.

Lemma cont_stops_at_error_witness :
  m_interactive faultPrompt = true /\
  exists d',
    cont 2 [] faultPrompt = Ok tt d' /\
    m_running d' = true /\ m_forceBreak d' = false /\
    cout d' = cout faultPrompt /\
    m_pendingGroups d' = m_pendingGroups faultPrompt.
Proof.
  set (after := mkWorkItem (V3 0 0 0) (V3 0 0 0) READY (at_line 2) []
                  [(at_line 2, Plain)]).
  set (notes := [MemoryError true AddrSpaceGlobal 16 4]).
  assert (Hi : m_interactive faultPrompt = true) by (vm_compute; reflexivity).
  assert (Hcur : m_currentWorkItem faultPrompt = Some 0%nat)
    by (vm_compute; reflexivity).
  assert (Hg : m_currentWorkGroup faultPrompt = Some faultGroup)
    by (vm_compute; reflexivity).
  assert (Hstep : workitem_step (m_globalMemory faultPrompt)
                    (wg_localMemory faultGroup) faultItem
                  = StepDone [(V3 0 0 0, "op")] [] after notes)
    by (vm_compute; reflexivity).
  assert (Hrun : stepWorkItem
                   (set_m_running true (set_m_forceBreak false faultPrompt))
                 = Ok READY
                     (state_of (stepWorkItem
                        (set_m_running true
                           (set_m_forceBreak false faultPrompt)))))
    by (vm_compute; reflexivity).
  revert Hi Hcur Hg Hstep Hrun.
  generalize (state_of (stepWorkItem
                (set_m_running true (set_m_forceBreak false faultPrompt)))).
  generalize faultPrompt. intros d d1 Hi Hcur Hg Hstep Hrun.
  split; [exact Hi|].
  destruct (cont_stops_at_error d [] 0%nat faultGroup faultItem
              [(V3 0 0 0, "op")] [] after notes READY d1 0
              Hi Hcur Hg eq_refl eq_refl Hstep ltac:(discriminate) Hrun)
    as (Hcont & Hrunning & _ & _ & Hcout & _ & _ & Hpending).
  eexists. split; [exact Hcont|]. split; [exact Hrunning|].
  split; [reflexivity|]. split; [exact Hcout|exact Hpending].
Defined.

Lemma fatal_error_ends_run_witness :
  m_interactive fatalStart = false /\
  exists d',
    (catchFatal (debugOrRun 2) reportFatal ;; teardown kernelFatal) fatalStart
      = Ok tt d' /\
    m_pendingGroups d' = m_pendingGroups fatalStart /\
    m_runningGroups d' = [] /\ m_currentWorkGroup d' = None.
Proof.
  assert (Hi : m_interactive fatalStart = false) by (vm_compute; reflexivity).
  assert (Hcur : m_currentWorkItem fatalStart = Some 0%nat)
    by (vm_compute; reflexivity).
  assert (Hg : m_currentWorkGroup fatalStart = Some fatalGroup)
    by (vm_compute; reflexivity).
  assert (Hstep : workitem_step (m_globalMemory fatalStart)
                    (wg_localMemory fatalGroup) fatalItem
                  = StepThrow unsupported)
    by (vm_compute; reflexivity).
  revert Hi Hcur Hg Hstep. generalize fatalStart. intros d Hi Hcur Hg Hstep.
  split; [exact Hi|].
  destruct (fatal_error_ends_run d kernelFatal 0%nat fatalGroup fatalItem
              unsupported 0 Hi Hcur Hg eq_refl eq_refl Hstep)
    as (Hrun & Hpending & Hrunning & Hgroup & _).
  eexists. split; [exact Hrun|]. split; [exact Hpending|].
  split; [exact Hrunning|exact Hgroup].
Defined.

Lemma brk_sets_breakpoint_witness :
  m_sourceLines (atPrompt EmptyString) <> [] /\
  extract_size_t "2" = (2, true) /\
  exists d',
    brk ["break"; "2"] (atPrompt EmptyString) = Ok tt d' /\
    bp_line 1 (breakpointsHere d') = Some 2 /\
    m_nextBreakpoint d' = 2.
Proof.
  assert (Hp : pointee (atPrompt EmptyString) = Some (Some firstInstruction))
    by (vm_compute; reflexivity).
  assert (Hsrc : m_sourceLines (atPrompt EmptyString) = ["a = 1;"; "b = 2;"; "c = 3;"])
    by (vm_compute; reflexivity).
  assert (Hid : m_nextBreakpoint (atPrompt EmptyString) = 1)
    by (vm_compute; reflexivity).
  revert Hp Hsrc Hid. generalize (atPrompt EmptyString). intros d Hp Hsrc Hid.
  split; [rewrite Hsrc; discriminate|]. split; [reflexivity|].
  destruct (brk_sets_breakpoint d (Some firstInstruction) ["break"; "2"] 2 Hp)
    as (d' & Hrun & _ & Hline & Hnext & _).
  - rewrite Hsrc. discriminate.
  - rewrite Hsrc. unfold SizeT.modulus. simpl. lia.
  - left. exists "break", "2", []. rewrite Hsrc.
    split; [reflexivity|]. split; [reflexivity|]. simpl. lia.
  - rewrite Hid in Hline, Hnext.
    exists d'. split; [exact Hrun|]. split; [exact Hline|exact Hnext].
Defined.

Lemma brk_rejects_witness :
  m_sourceLines noSourcePrompt = [] /\
  brk ["break"; "2"] noSourcePrompt =
    Ok tt (said [IS "Breakpoints only valid when source is available.";
                 Iendl] noSourcePrompt).
Proof.
  assert (Hsrc : m_sourceLines noSourcePrompt = []) by (vm_compute; reflexivity).
  revert Hsrc. generalize noSourcePrompt. intros d Hsrc.
  split; [exact Hsrc|].
  exact (proj1 (brk_rejects d ["break"; "2"]) Hsrc).
Defined.

Lemma brk_then_del_witness :
  bp_count 1 (breakpointsHere (atPrompt EmptyString)) = false /\
  exists d1 d2,
    brk ["break"; "2"] (atPrompt EmptyString) = Ok tt d1 /\
    del ["delete"; "1"] d1 = Ok tt d2 /\
    (forall k, breakpointsOf d2 k = breakpointsOf (atPrompt EmptyString) k) /\
    m_nextBreakpoint d2 = 2.
Proof.
  assert (Hp : pointee (atPrompt EmptyString) = Some (Some firstInstruction))
    by (vm_compute; reflexivity).
  assert (Hsrc : m_sourceLines (atPrompt EmptyString) = ["a = 1;"; "b = 2;"; "c = 3;"])
    by (vm_compute; reflexivity).
  assert (Hid : m_nextBreakpoint (atPrompt EmptyString) = 1)
    by (vm_compute; reflexivity).
  assert (Hfresh : bp_count 1 (breakpointsHere (atPrompt EmptyString)) = false)
    by (vm_compute; reflexivity).
  revert Hp Hsrc Hid Hfresh. generalize (atPrompt EmptyString).
  intros d Hp Hsrc Hid Hfresh.
  split; [exact Hfresh|].
  destruct (brk_then_del d (Some firstInstruction) "break" "2" [] 2
              "delete" "1" [] Hp)
    as (d1 & d2 & Hbrk & Hdel & Hsame & Hnext & _).
  - rewrite Hsrc. discriminate.
  - rewrite Hsrc. unfold SizeT.modulus. simpl. lia.
  - reflexivity.
  - rewrite Hsrc. simpl. lia.
  - rewrite Hid. reflexivity.
  - rewrite Hid. exact Hfresh.
  - rewrite Hid in Hnext.
    exists d1, d2. split; [exact Hbrk|]. split; [exact Hdel|].
    split; [exact Hsame|exact Hnext].
Defined.

Lemma del_rejects_witness :
  extract_size_t "7" = (7, true) /\
  bp_count 7 (breakpointsHere withBreakpoint) = false /\
  exists d',
    del ["delete"; "7"] withBreakpoint = Ok tt d' /\
    (forall k, breakpointsOf d' k = breakpointsOf withBreakpoint k) /\
    m_breakpoints d' <> ∅.
Proof.
  assert (Hx : extract_size_t "7" = (7, true)) by reflexivity.
  assert (Hc : bp_count 7 (breakpointsHere withBreakpoint) = false)
    by (vm_compute; reflexivity).
  revert Hc. generalize withBreakpoint. intros d Hc.
  split; [exact Hx|]. split; [exact Hc|].
  destruct (proj2 (del_rejects d "delete" "7" [] 7 true Hx) eq_refl Hc)
    as (d' & Hrun & _ & Hsame & _ & Hne).
  exists d'. split; [exact Hrun|]. split; [exact Hsame|exact Hne].
Defined.


Lemma list_around_witness :
  m_currentWorkItem (atPrompt EmptyString) = Some 0%nat /\
  extract_size_t "2" = (2, true) /\
  list_cmd ["list"; "2"] (atPrompt EmptyString) =
    Ok tt (set_m_listPosition 1
             (said (listing ["a = 1;"; "b = 2;"; "c = 3;"] 1)
                (atPrompt EmptyString))).
Proof.
  assert (Hi : m_currentWorkItem (atPrompt EmptyString) = Some 0%nat)
    by (vm_compute; reflexivity).
  assert (Hsrc : m_sourceLines (atPrompt EmptyString)
                 = ["a = 1;"; "b = 2;"; "c = 3;"])
    by (vm_compute; reflexivity).
  revert Hi Hsrc. generalize (atPrompt EmptyString). intros d Hi Hsrc.
  split; [exact Hi|]. split; [reflexivity|].
  rewrite <- Hsrc.
  apply (list_around d 0%nat "list" "2" [] 2 Hi).
  - rewrite Hsrc. discriminate.
  - discriminate.
  - reflexivity.
  - lia.
  - unfold LIST_LENGTH, SizeT.modulus. lia.
  - rewrite Hsrc. unfold SizeT.modulus. simpl. lia.
Defined.

Lemma list_pages_forward_witness :
  pointee (atPrompt EmptyString) = Some (Some firstInstruction) /\
  list_cmd ["list"] (atPrompt EmptyString) =
    Ok tt (set_m_listPosition 2
             (said (listing ["a = 1;"; "b = 2;"; "c = 3;"] 2)
                (atPrompt EmptyString))).
Proof.
  assert (Hp : pointee (atPrompt EmptyString) = Some (Some firstInstruction))
    by (vm_compute; reflexivity).
  assert (Hsrc : m_sourceLines (atPrompt EmptyString)
                 = ["a = 1;"; "b = 2;"; "c = 3;"])
    by (vm_compute; reflexivity).
  assert (Hpos : m_listPosition (atPrompt EmptyString) = 0)
    by (vm_compute; reflexivity).
  assert (Hline : currentLine (atPrompt EmptyString) = 1)
    by (vm_compute; reflexivity).
  revert Hp Hsrc Hpos Hline. generalize (atPrompt EmptyString).
  intros d Hp Hsrc Hpos Hline.
  split; [exact Hp|].
  pose proof (list_pages_forward d firstInstruction ["list"] Hp) as Hlist.
  rewrite Hsrc, Hpos, Hline in Hlist.
  apply Hlist.
  - discriminate.
  - simpl. lia.
  - lia.
  - unfold LIST_LENGTH, SizeT.modulus. lia.
  - lia.
  - unfold LIST_LENGTH, SizeT.modulus. lia.
  - unfold SizeT.modulus. simpl. lia.
Defined.

Lemma step_blocked_prints_witness :
  pointee firstDone = Some (Some doneItem) /\
  stepCommand 5 ["step"] firstDone =
    Ok tt (set_m_listPosition 0
             (said [IS "Work-item has finished execution."; Iendl] firstDone)).
Proof.
  assert (Hp : pointee firstDone = Some (Some doneItem))
    by (vm_compute; reflexivity).
  revert Hp. generalize firstDone. intros d Hp.
  split; [exact Hp|].
  destruct (step_blocked_prints d doneItem 5 ["step"] Hp ltac:(discriminate))
    as (o & Hstep & _ & Ho).
  rewrite Hstep, (Ho eq_refl). reflexivity.
Defined.


Lemma nextLoop_stuck_witness :
  pointee barrierInCall = Some (Some waiting) /\
  nextLoop 1000 0 barrierInCall = Timeout.
Proof.
  assert (Hp : pointee barrierInCall = Some (Some waiting))
    by (vm_compute; reflexivity).
  revert Hp. generalize barrierInCall. intros d Hp.
  split; [exact Hp|].
  apply (nextLoop_stuck d waiting 0 Hp); [discriminate|simpl; lia].
Defined.

Lemma workitem_rejects_witness :
  extract_size_t "5" = (5, true) /\
  5 >= v0 (m_globalSize (atPrompt EmptyString)) /\
  workitem ["workitem"; "5"] (atPrompt EmptyString) =
    Ok tt (said [IS "Invalid global ID."; Iendl] (atPrompt EmptyString)).
Proof.
  assert (Hx : extract_size_t "5" = (5, true)) by reflexivity.
  assert (Hgs : m_globalSize (atPrompt EmptyString) = V3 1 1 1)
    by (vm_compute; reflexivity).
  revert Hgs. generalize (atPrompt EmptyString). intros d Hgs.
  assert (Hge : 5 >= v0 (m_globalSize d)) by (rewrite Hgs; simpl; lia).
  split; [exact Hx|]. split; [exact Hge|].
  apply (workitem_rejects d "workitem" "5" [] 5 true Hx). right. exact Hge.
Defined.

Lemma workitem_already_finished_witness :
  m_currentWorkGroup secondGroup = Some lastGroup /\
  workitem ["workitem"; "0"] secondGroup =
    Ok tt (said [IS "Work-item has already finished, unable to load state.";
                 Iendl] secondGroup).
Proof.
  assert (Hg : m_currentWorkGroup secondGroup = Some lastGroup)
    by (vm_compute; reflexivity).
  assert (Hgs : m_globalSize secondGroup = V3 2 1 1) by (vm_compute; reflexivity).
  assert (Hls : m_localSize secondGroup = V3 1 1 1) by (vm_compute; reflexivity).
  assert (Hr : m_runningGroups secondGroup = []) by (vm_compute; reflexivity).
  assert (Hp : m_pendingGroups secondGroup = []) by (vm_compute; reflexivity).
  revert Hg Hgs Hls Hr Hp. generalize secondGroup. intros d Hg Hgs Hls Hr Hp.
  split; [exact Hg|].
  apply (workitem_already_finished d "workitem" ["0"] (V3 0 0 0) lastGroup).
  - repeat split.
  - rewrite Hgs. unfold in_box. simpl. lia.
  - rewrite Hls. unfold positive3. simpl. lia.
  - exact Hg.
  - rewrite Hls. discriminate.
  - rewrite Hr. constructor.
  - rewrite Hp. apply not_elem_of_nil.
Defined.

Lemma workitem_without_group_witness :
  m_currentWorkGroup emptyPrompt = None /\
  workitem ["workitem"] emptyPrompt = Undefined.
Proof.
  assert (Hg : m_currentWorkGroup emptyPrompt = None) by (vm_compute; reflexivity).
  assert (Hls : m_localSize emptyPrompt = V3 1 1 1) by (vm_compute; reflexivity).
  revert Hg Hls. generalize emptyPrompt. intros d Hg Hls.
  split; [exact Hg|].
  apply (workitem_without_group d "workitem" [] (V3 0 0 0) d eq_refl).
  - rewrite Hls. unfold positive3. simpl. lia.
  - exact Hg.
Defined.

Lemma commandLoop_skips_witness :
  m_running blankPrompt = true /\
  commandLoop 3 blankPrompt = commandLoop 2 (prompted "quit
" blankPrompt).
Proof.
  assert (Hrun : m_running blankPrompt = true) by (vm_compute; reflexivity).
  assert (Hline : split_line (cin blankPrompt) = Some (EmptyString, "quit
")) by (vm_compute; reflexivity).
  revert Hrun Hline. generalize blankPrompt. intros d Hrun Hline.
  split; [exact Hrun|].
  exact (proj1 (commandLoop_skips d 2 EmptyString _ Hrun Hline) eq_refl).
Defined.

Lemma commandLoop_end_of_input_witness :
  split_line (cin cutPrompt) = None /\
  exists d',
    commandLoop 1 cutPrompt = Ok tt d' /\
    m_interactive d' = false /\ m_breakpoints d' = ∅ /\
    m_globalMemory d' = m_globalMemory cutPrompt.
Proof.
  assert (Hrun : m_running cutPrompt = true) by (vm_compute; reflexivity).
  assert (Hline : split_line (cin cutPrompt) = None) by (vm_compute; reflexivity).
  revert Hrun Hline. generalize cutPrompt. intros d Hrun Hline.
  split; [exact Hline|].
  destruct (commandLoop_end_of_input d 0 Hrun Hline)
    as (Hloop & Hint & _ & Hbps & _ & Hmem).
  eexists. split; [exact Hloop|]. split; [exact Hint|].
  split; [exact Hbps|exact Hmem].
Defined.
